(** * The rules engine of the Tetris game in [tetris.py]

    A shallow embedding of the classes [Piece], [Board] and [Game] of
    [tetris.py] (the drawing code is left out), followed by the
    properties of the engine.

    Python integers are unbounded, hence [Z].  A Python list is a Rocq
    list; subscripting goes through [py_get]/[py_set], which follow
    Python in accepting the negative indices [-len .. -1] and raising
    [IndexError] elsewhere.  Code that may raise returns an [outcome];
    a [while] loop is a fixpoint on a number of allowed iterations and
    answers [Timeout] when they are used up. *)

From Stdlib Require Import ZArith List Bool Lia Permutation.
Import ListNotations.
Local Open Scope Z_scope.

(** ** Outcomes of Python code *)

Inductive Exn : Type :=
| IndexError
| SystemExit.

Inductive outcome (A : Type) : Type :=
| Done (a : A)
| Raise (e : Exn)
| Timeout.

Arguments Done {A} a.
Arguments Raise {A} e.
Arguments Timeout {A}.

Definition obind {A B : Type} (m : outcome A) (k : A -> outcome B) : outcome B :=
  match m with
  | Done a => k a
  | Raise e => Raise e
  | Timeout => Timeout
  end.

Declare Scope outcome_scope.
Delimit Scope outcome_scope with outcome.
Notation "'let!' x ':=' m 'in' k" := (obind m (fun x => k))
  (at level 10, x pattern, m at level 100, k at level 200) : outcome_scope.
Local Open Scope outcome_scope.

(** ** Python lists *)

Section PyList.
Context {A : Type}.

(** The position a subscript [i] denotes in a list of [n] elements. *)
Definition py_index (n : nat) (i : Z) : option nat :=
  if (0 <=? i) && (i <? Z.of_nat n) then Some (Z.to_nat i)
  else if (- Z.of_nat n <=? i) && (i <? 0) then Some (Z.to_nat (Z.of_nat n + i))
  else None.

(** [l[i]] *)
Definition py_get (l : list A) (i : Z) : outcome A :=
  match py_index (length l) i with
  | Some k =>
      match nth_error l k with
      | Some a => Done a
      | None => Raise IndexError
      end
  | None => Raise IndexError
  end.

Fixpoint replace_nth (k : nat) (v : A) (l : list A) : list A :=
  match l, k with
  | [], _ => []
  | _ :: l', O => v :: l'
  | a :: l', S k' => a :: replace_nth k' v l'
  end.

(** [l[i] = v] *)
Definition py_set (l : list A) (i : Z) (v : A) : outcome (list A) :=
  match py_index (length l) i with
  | Some k => Done (replace_nth k v l)
  | None => Raise IndexError
  end.

Fixpoint remove_nth (k : nat) (l : list A) : list A :=
  match l, k with
  | [], _ => []
  | _ :: l', O => l'
  | a :: l', S k' => a :: remove_nth k' l'
  end.

(** [del l[i]] *)
Definition py_del (l : list A) (i : Z) : outcome (list A) :=
  match py_index (length l) i with
  | Some k => Done (remove_nth k l)
  | None => Raise IndexError
  end.

(** [l.insert(0, v)] *)
Definition py_insert0 (v : A) (l : list A) : list A := v :: l.

(** [l.pop()]: the last element and the list without it. *)
Definition py_pop (l : list A) : outcome (A * list A) :=
  match rev l with
  | [] => Raise IndexError
  | a :: r => Done (a, rev r)
  end.
End PyList.

(** ** Constants and the piece catalog *)

Definition BOARD_WIDTH : Z := 10.
Definition BOARD_HEIGHT : Z := 20.
Definition FALL_SPEED : Z := 500.

(** The keys of [TETROMINOES]: 'I', 'O', 'T', 'S', 'Z', 'J', 'L'. *)
Inductive Tetromino : Type := pI | pO | pT | pS | pZ | pJ | pL.

(** [list(TETROMINOES.keys())], in insertion order. *)
Definition TETROMINOES_keys : list Tetromino := [pI; pO; pT; pS; pZ; pJ; pL].

Definition Coord : Type := (Z * Z)%type.

Definition TETROMINOES (t : Tetromino) : list (list Coord) :=
  match t with
  | pI => [ [(0, 0); (0, 1); (0, 2); (0, 3)];
            [(0, 2); (1, 2); (2, 2); (3, 2)];
            [(2, 0); (2, 1); (2, 2); (2, 3)];
            [(0, 1); (1, 1); (2, 1); (3, 1)] ]
  | pO => [ [(0, 0); (0, 1); (1, 0); (1, 1)];
            [(0, 0); (0, 1); (1, 0); (1, 1)];
            [(0, 0); (0, 1); (1, 0); (1, 1)];
            [(0, 0); (0, 1); (1, 0); (1, 1)] ]
  | pT => [ [(0, 1); (1, 0); (1, 1); (1, 2)];
            [(0, 1); (1, 1); (1, 2); (2, 1)];
            [(1, 0); (1, 1); (1, 2); (2, 1)];
            [(0, 1); (1, 0); (1, 1); (2, 1)] ]
  | pS => [ [(0, 1); (0, 2); (1, 0); (1, 1)];
            [(0, 1); (1, 1); (1, 2); (2, 2)];
            [(1, 1); (1, 2); (2, 0); (2, 1)];
            [(0, 0); (1, 0); (1, 1); (2, 1)] ]
  | pZ => [ [(0, 0); (0, 1); (1, 1); (1, 2)];
            [(0, 2); (1, 1); (1, 2); (2, 1)];
            [(1, 0); (1, 1); (2, 1); (2, 2)];
            [(0, 1); (1, 0); (1, 1); (2, 0)] ]
  | pJ => [ [(0, 0); (1, 0); (1, 1); (1, 2)];
            [(0, 1); (0, 2); (1, 1); (2, 1)];
            [(1, 0); (1, 1); (1, 2); (2, 2)];
            [(0, 1); (1, 1); (2, 0); (2, 1)] ]
  | pL => [ [(0, 2); (1, 0); (1, 1); (1, 2)];
            [(0, 1); (1, 1); (2, 1); (2, 2)];
            [(1, 0); (1, 1); (1, 2); (2, 0)];
            [(0, 0); (0, 1); (1, 1); (2, 1)] ]
  end.

(** ** class Piece

    The fields [color] and [image] only serve the drawing code and are
    left out.  [rotations] is set once to [TETROMINOES[piece_type]] and
    [type] is never assigned again, so it is a function of [type]. *)

Module Piece.

Record t : Type := mk {
  type : Tetromino;
  rotation_index : Z;
  row : Z;
  col : Z
}.

Definition rotations (p : t) : list (list Coord) := TETROMINOES (type p).

(** [Piece(piece_type)] *)
Definition init (piece_type : Tetromino) : t :=
  {| type := piece_type;
     rotation_index := 0;
     row := 0;
     col := BOARD_WIDTH / 2 - 2 |}.

Definition get_cells_at (p : t) (r c rotation : Z) : outcome (list Coord) :=
  let! offsets := py_get (rotations p) rotation in
  Done (map (fun '(dr, dc) => (r + dr, c + dc)) offsets).

Definition get_cells (p : t) : outcome (list Coord) :=
  get_cells_at p (row p) (col p) (rotation_index p).

Definition rotate_cw (p : t) : Z := (rotation_index p + 1) mod 4.

Definition rotate_ccw (p : t) : Z := (rotation_index p - 1) mod 4.

Definition set_row (r : Z) (p : t) : t :=
  {| type := type p; rotation_index := rotation_index p; row := r; col := col p |}.

Definition set_col (c : Z) (p : t) : t :=
  {| type := type p; rotation_index := rotation_index p; row := row p; col := c |}.

Definition set_rotation_index (i : Z) (p : t) : t :=
  {| type := type p; rotation_index := i; row := row p; col := col p |}.

End Piece.

(** ** class Board

    The only field is [grid]; a board is its grid.  A cell holds [None]
    or the type that locked there.  Every row of the grid is a list
    object of its own (built by its own comprehension), so the in-place
    assignment [grid[row][col] = v] is the replacement of row [row] by
    its updated copy. *)

Module Board.

Definition Cell : Type := option Tetromino.
Definition t : Type := list (list Cell).

Definition empty_row : list Cell := repeat None (Z.to_nat BOARD_WIDTH).

(** [Board()] *)
Definition init : t := repeat empty_row (Z.to_nat BOARD_HEIGHT).

Definition is_not_None (c : Cell) : bool :=
  match c with
  | Some _ => true
  | None => false
  end.

Fixpoint is_valid_position (grid : t) (cells : list Coord) : outcome bool :=
  match cells with
  | [] => Done true
  | (row, col) :: rest =>
      if (col <? 0) || (col >=? BOARD_WIDTH) then Done false
      else if row >=? BOARD_HEIGHT then Done false
      else if row >=? 0 then
        let! r := py_get grid row in
        let! c := py_get r col in
        if is_not_None c then Done false
        else is_valid_position grid rest
      else is_valid_position grid rest
  end.

(** The body of the [for] loop of [lock_piece], over the cells that
    are left. *)
Fixpoint lock_cells (grid : t) (ty : Tetromino) (cells : list Coord) : outcome t :=
  match cells with
  | [] => Done grid
  | (row, col) :: rest =>
      if ((0 <=? row) && (row <? BOARD_HEIGHT)) && ((0 <=? col) && (col <? BOARD_WIDTH))
      then
        let! r := py_get grid row in
        let! r' := py_set r col (Some ty) in
        let! grid' := py_set grid row r' in
        lock_cells grid' ty rest
      else lock_cells grid ty rest
  end.

Definition lock_piece (grid : t) (piece : Piece.t) : outcome t :=
  let! cells := Piece.get_cells piece in
  lock_cells grid (Piece.type piece) cells.

(** [all(cell is not None for cell in r)] *)
Definition row_complete (r : list Cell) : bool := forallb is_not_None r.

(** The [while row >= 0] loop of [clear_lines]; [fuel] bounds the
    number of times its condition is tested. *)
Fixpoint clear_lines_loop (fuel : nat) (grid : t) (row lines_cleared : Z)
  : outcome (Z * t) :=
  match fuel with
  | O => Timeout
  | S fuel' =>
      if row >=? 0 then
        let! r := py_get grid row in
        if row_complete r then
          let! grid' := py_del grid row in
          clear_lines_loop fuel' (py_insert0 empty_row grid') row (lines_cleared + 1)
        else clear_lines_loop fuel' grid (row - 1) lines_cleared
      else Done (lines_cleared, grid)
  end.

(** The loop tests its condition at most [2 * BOARD_HEIGHT + 1] times:
    every pass either lowers [row] or removes a complete row among
    the rows [0 .. row] (see [clear_lines_loop_enough]). *)
Definition clear_lines_fuel : nat := S (2 * Z.to_nat BOARD_HEIGHT).

Definition clear_lines (grid : t) : outcome (Z * t) :=
  clear_lines_loop clear_lines_fuel grid (BOARD_HEIGHT - 1) 0.

End Board.

(** ** class Game

    The fields that only serve the drawing code ([screen], [clock],
    the fonts, [piece_images]) are left out.  [random.shuffle] and
    [pygame.time.get_ticks] belong to the world outside the program:
    [random_shuffle n l] is what the [n]-th call of [random.shuffle]
    makes of [l], [get_ticks n] is what the [n]-th reading of the
    clock returns, and the state counts the calls made so far.

    The piece objects: [spawn_piece] binds [current_piece] to the
    object of [next_piece] and at once binds [next_piece] to a new
    object, so no piece that is mutated is reachable under two
    names. *)

Inductive Key : Type :=
| K_ESCAPE | K_r | K_p | K_LEFT | K_RIGHT | K_DOWN | K_UP | K_SPACE
| K_other (code : Z).

Inductive Event : Type :=
| KEYDOWN (key : Key)
| OtherEvent.

Module Game.

Record t : Type := mk {
  board : Board.t;
  current_piece : option Piece.t;
  next_piece : option Piece.t;
  score : Z;
  level : Z;
  lines_cleared : Z;
  game_over : bool;
  paused : bool;
  last_fall_time : Z;
  fall_speed : Z;
  piece_bag : list Tetromino;
  shuffles : nat;
  tick_reads : nat
}.

Definition set_board (v : Board.t) (s : t) : t :=
  mk v (current_piece s) (next_piece s) (score s) (level s) (lines_cleared s)
     (game_over s) (paused s) (last_fall_time s) (fall_speed s) (piece_bag s)
     (shuffles s) (tick_reads s).
Definition set_current_piece (v : option Piece.t) (s : t) : t :=
  mk (board s) v (next_piece s) (score s) (level s) (lines_cleared s)
     (game_over s) (paused s) (last_fall_time s) (fall_speed s) (piece_bag s)
     (shuffles s) (tick_reads s).
Definition set_next_piece (v : option Piece.t) (s : t) : t :=
  mk (board s) (current_piece s) v (score s) (level s) (lines_cleared s)
     (game_over s) (paused s) (last_fall_time s) (fall_speed s) (piece_bag s)
     (shuffles s) (tick_reads s).
Definition set_score (v : Z) (s : t) : t :=
  mk (board s) (current_piece s) (next_piece s) v (level s) (lines_cleared s)
     (game_over s) (paused s) (last_fall_time s) (fall_speed s) (piece_bag s)
     (shuffles s) (tick_reads s).
Definition set_level (v : Z) (s : t) : t :=
  mk (board s) (current_piece s) (next_piece s) (score s) v (lines_cleared s)
     (game_over s) (paused s) (last_fall_time s) (fall_speed s) (piece_bag s)
     (shuffles s) (tick_reads s).
Definition set_lines_cleared (v : Z) (s : t) : t :=
  mk (board s) (current_piece s) (next_piece s) (score s) (level s) v
     (game_over s) (paused s) (last_fall_time s) (fall_speed s) (piece_bag s)
     (shuffles s) (tick_reads s).
Definition set_game_over (v : bool) (s : t) : t :=
  mk (board s) (current_piece s) (next_piece s) (score s) (level s) (lines_cleared s)
     v (paused s) (last_fall_time s) (fall_speed s) (piece_bag s)
     (shuffles s) (tick_reads s).
Definition set_paused (v : bool) (s : t) : t :=
  mk (board s) (current_piece s) (next_piece s) (score s) (level s) (lines_cleared s)
     (game_over s) v (last_fall_time s) (fall_speed s) (piece_bag s)
     (shuffles s) (tick_reads s).
Definition set_last_fall_time (v : Z) (s : t) : t :=
  mk (board s) (current_piece s) (next_piece s) (score s) (level s) (lines_cleared s)
     (game_over s) (paused s) v (fall_speed s) (piece_bag s)
     (shuffles s) (tick_reads s).
Definition set_fall_speed (v : Z) (s : t) : t :=
  mk (board s) (current_piece s) (next_piece s) (score s) (level s) (lines_cleared s)
     (game_over s) (paused s) (last_fall_time s) v (piece_bag s)
     (shuffles s) (tick_reads s).
Definition set_piece_bag (v : list Tetromino) (s : t) : t :=
  mk (board s) (current_piece s) (next_piece s) (score s) (level s) (lines_cleared s)
     (game_over s) (paused s) (last_fall_time s) (fall_speed s) v
     (shuffles s) (tick_reads s).
Definition set_shuffles (v : nat) (s : t) : t :=
  mk (board s) (current_piece s) (next_piece s) (score s) (level s) (lines_cleared s)
     (game_over s) (paused s) (last_fall_time s) (fall_speed s) (piece_bag s)
     v (tick_reads s).
Definition set_tick_reads (v : nat) (s : t) : t :=
  mk (board s) (current_piece s) (next_piece s) (score s) (level s) (lines_cleared s)
     (game_over s) (paused s) (last_fall_time s) (fall_speed s) (piece_bag s)
     (shuffles s) v.

(** A method of [Game]: it reads and writes [self] and returns a
    value, or raises. *)
Definition M (A : Type) : Type := t -> outcome (A * t).

Definition ret {A : Type} (a : A) : M A := fun s => Done (a, s).

Definition bind {A B : Type} (m : M A) (k : A -> M B) : M B :=
  fun s =>
    match m s with
    | Done (a, s') => k a s'
    | Raise e => Raise e
    | Timeout => Timeout
    end.

Definition gets {A : Type} (f : t -> A) : M A := fun s => Done (f s, s).

Definition modify (f : t -> t) : M unit := fun s => Done (tt, f s).

Definition lift {A : Type} (o : outcome A) : M A :=
  fun s =>
    match o with
    | Done a => Done (a, s)
    | Raise e => Raise e
    | Timeout => Timeout
    end.

Definition raise {A : Type} (e : Exn) : M A := fun _ => Raise e.

Declare Scope game_scope.
Delimit Scope game_scope with game.
Notation "x <- m ;; k" := (bind m (fun x => k))
  (at level 61, m at next level, right associativity) : game_scope.
Notation "' pat <- m ;; k" := (bind m (fun x => match x with pat => k end))
  (at level 61, pat pattern, m at next level, right associativity) : game_scope.
Notation "m ;; k" := (bind m (fun _ => k))
  (at level 61, right associativity) : game_scope.
Local Open Scope game_scope.

(** [{1: 100, 2: 300, 3: 500, 4: 800}.get(lines, 0)] *)
Definition scores_get (lines : Z) : Z :=
  if lines =? 1 then 100
  else if lines =? 2 then 300
  else if lines =? 3 then 500
  else if lines =? 4 then 800
  else 0.

(** The iterations allowed to the two loops that lower a piece one
    row at a time: a position is valid only if its cells are above
    row [BOARD_HEIGHT], and no offset of the catalog is negative. *)
Definition fall_fuel (p : Piece.t) : nat :=
  S (Z.to_nat (BOARD_HEIGHT - Piece.row p)).

(** The [while True] loop of [get_ghost_position]. *)
Fixpoint ghost_loop (fuel : nat) (grid : Board.t) (p : Piece.t) (ghost_row : Z)
  : outcome Z :=
  match fuel with
  | O => Timeout
  | S fuel' =>
      let! new_cells :=
        Piece.get_cells_at p (ghost_row + 1) (Piece.col p) (Piece.rotation_index p) in
      let! v := Board.is_valid_position grid new_cells in
      if v then ghost_loop fuel' grid p (ghost_row + 1)
      else Done ghost_row
  end.

Definition get_ghost_position (s : t) : outcome (list Coord) :=
  match current_piece s with
  | None => Done []
  | Some p =>
      let! ghost_row := ghost_loop (fall_fuel p) (board s) p (Piece.row p) in
      Piece.get_cells_at p ghost_row (Piece.col p) (Piece.rotation_index p)
  end.

Definition move_piece (d_row d_col : Z) : M bool :=
  cp <- gets current_piece ;;
  match cp with
  | None => ret false
  | Some p =>
      new_cells <- lift (Piece.get_cells_at p (Piece.row p + d_row)
                           (Piece.col p + d_col) (Piece.rotation_index p)) ;;
      grid <- gets board ;;
      v <- lift (Board.is_valid_position grid new_cells) ;;
      if v then
        modify (set_current_piece
                  (Some (Piece.set_col (Piece.col p + d_col)
                           (Piece.set_row (Piece.row p + d_row) p)))) ;;
        ret true
      else ret false
  end.

(** The [for offset in [1, -1, 2, -2]] loop of [rotate_piece], over
    the offsets that are left. *)
Fixpoint rotate_kicks (p : Piece.t) (new_rotation : Z) (offsets : list Z) : M bool :=
  match offsets with
  | [] => ret false
  | offset :: rest =>
      new_cells <- lift (Piece.get_cells_at p (Piece.row p)
                           (Piece.col p + offset) new_rotation) ;;
      grid <- gets board ;;
      v <- lift (Board.is_valid_position grid new_cells) ;;
      if v then
        modify (set_current_piece
                  (Some (Piece.set_col (Piece.col p + offset)
                           (Piece.set_rotation_index new_rotation p)))) ;;
        ret true
      else rotate_kicks p new_rotation rest
  end.

Definition rotate_piece (clockwise : bool) : M bool :=
  cp <- gets current_piece ;;
  match cp with
  | None => ret false
  | Some p =>
      let new_rotation :=
        if clockwise then Piece.rotate_cw p else Piece.rotate_ccw p in
      new_cells <- lift (Piece.get_cells_at p (Piece.row p) (Piece.col p)
                           new_rotation) ;;
      grid <- gets board ;;
      v <- lift (Board.is_valid_position grid new_cells) ;;
      if v then
        modify (set_current_piece (Some (Piece.set_rotation_index new_rotation p))) ;;
        ret true
      else rotate_kicks p new_rotation [1; -1; 2; -2]
  end.

Definition calculate_score (lines : Z) : M Z :=
  lv <- gets level ;;
  ret (scores_get lines * lv).

(** The [while self.move_piece(1, 0)] loop of [hard_drop]. *)
Fixpoint hard_drop_loop (fuel : nat) (cells_dropped : Z) : M Z :=
  match fuel with
  | O => fun _ => Timeout
  | S fuel' =>
      moved <- move_piece 1 0 ;;
      if moved then hard_drop_loop fuel' (cells_dropped + 1)
      else ret cells_dropped
  end.

Section World.
Variable random_shuffle : nat -> list Tetromino -> list Tetromino.
Variable get_ticks : nat -> Z.

(** [pygame.time.get_ticks()] *)
Definition pygame_time_get_ticks : M Z :=
  n <- gets tick_reads ;;
  modify (set_tick_reads (S n)) ;;
  ret (get_ticks n).

Definition get_next_piece_type : M Tetromino :=
  bag <- gets piece_bag ;;
  match bag with
  | [] =>
      n <- gets shuffles ;;
      modify (set_shuffles (S n)) ;;
      modify (set_piece_bag (random_shuffle n TETROMINOES_keys))
  | _ :: _ => ret tt
  end ;;
  bag <- gets piece_bag ;;
  '(piece_type, bag') <- lift (py_pop bag) ;;
  modify (set_piece_bag bag') ;;
  ret piece_type.

Definition spawn_piece : M bool :=
  np <- gets next_piece ;;
  p <- match np with
       | None =>
           piece_type <- get_next_piece_type ;;
           modify (set_next_piece (Some (Piece.init piece_type))) ;;
           ret (Piece.init piece_type)
       | Some p => ret p
       end ;;
  modify (set_current_piece (Some p)) ;;
  piece_type <- get_next_piece_type ;;
  modify (set_next_piece (Some (Piece.init piece_type))) ;;
  cells <- lift (Piece.get_cells p) ;;
  grid <- gets board ;;
  v <- lift (Board.is_valid_position grid cells) ;;
  if negb v then
    modify (set_game_over true) ;;
    ret false
  else
    now <- pygame_time_get_ticks ;;
    modify (set_last_fall_time now) ;;
    ret true.

Definition reset_game : M unit :=
  modify (set_board Board.init) ;;
  modify (set_current_piece None) ;;
  modify (set_next_piece None) ;;
  modify (set_score 0) ;;
  modify (set_level 1) ;;
  modify (set_lines_cleared 0) ;;
  modify (set_game_over false) ;;
  modify (set_paused false) ;;
  now <- pygame_time_get_ticks ;;
  modify (set_last_fall_time now) ;;
  modify (set_fall_speed FALL_SPEED) ;;
  modify (set_piece_bag []) ;;
  spawn_piece ;;
  ret tt.

Definition lock_piece : M unit :=
  cp <- gets current_piece ;;
  match cp with
  | None => ret tt
  | Some p =>
      grid <- gets board ;;
      grid' <- lift (Board.lock_piece grid p) ;;
      modify (set_board grid') ;;
      '(lines, grid'') <- lift (Board.clear_lines grid') ;;
      modify (set_board grid'') ;;
      (if lines >? 0 then
         modify (fun s => set_lines_cleared (lines_cleared s + lines) s) ;;
         points <- calculate_score lines ;;
         modify (fun s => set_score (score s + points) s) ;;
         modify (fun s => set_level (lines_cleared s / 10 + 1) s) ;;
         modify (fun s => set_fall_speed
                            (Z.max 100 (FALL_SPEED - (level s - 1) * 50)) s)
       else ret tt) ;;
      spawn_piece ;;
      ret tt
  end.

Definition hard_drop : M unit :=
  cp <- gets current_piece ;;
  match cp with
  | None => ret tt
  | Some p =>
      cells_dropped <- hard_drop_loop (fall_fuel p) 0 ;;
      modify (fun s => set_score (score s + cells_dropped * 2) s) ;;
      lock_piece
  end.

Definition update : M unit :=
  over <- gets game_over ;;
  halted <- gets paused ;;
  if over || halted then ret tt
  else
    current_time <- pygame_time_get_ticks ;;
    last <- gets last_fall_time ;;
    speed <- gets fall_speed ;;
    if current_time - last >=? speed then
      moved <- move_piece 1 0 ;;
      (if negb moved then lock_piece else ret tt) ;;
      modify (set_last_fall_time current_time)
    else ret tt.

Definition handle_input (event : Event) : M unit :=
  match event with
  | OtherEvent => ret tt
  | KEYDOWN K_ESCAPE => raise SystemExit
  | KEYDOWN key =>
      over <- gets game_over ;;
      if over then
        match key with
        | K_r => reset_game
        | _ => ret tt
        end
      else
        match key with
        | K_p => modify (fun s => set_paused (negb (paused s)) s)
        | _ =>
            halted <- gets paused ;;
            if halted then ret tt
            else
              match key with
              | K_LEFT => move_piece 0 (-1) ;; ret tt
              | K_RIGHT => move_piece 0 1 ;; ret tt
              | K_DOWN =>
                  moved <- move_piece 1 0 ;;
                  if moved then
                    modify (fun s => set_score (score s + 1) s) ;;
                    now <- pygame_time_get_ticks ;;
                    modify (set_last_fall_time now)
                  else ret tt
              | K_UP => rotate_piece true ;; ret tt
              | K_SPACE => hard_drop
              | _ => ret tt
              end
        end
  end.
End World.

End Game.

(** * Properties *)

(** ** Vocabulary of the statements *)

(** The grid has [BOARD_HEIGHT] rows of [BOARD_WIDTH] cells. *)
Definition wf_grid (g : Board.t) : Prop :=
  length g = Z.to_nat BOARD_HEIGHT /\
  Forall (fun r => length r = Z.to_nat BOARD_WIDTH) g.

(** The content of the cell at row [r] and column [c], if the grid has
    such a cell (no negative subscripts here). *)
Definition cell_at (g : Board.t) (r c : Z) : option Board.Cell :=
  if (0 <=? r) && (0 <=? c) then
    match nth_error g (Z.to_nat r) with
    | Some rw => nth_error rw (Z.to_nat c)
    | None => None
    end
  else None.

Definition in_board (r c : Z) : bool :=
  ((0 <=? r) && (r <? BOARD_HEIGHT)) && ((0 <=? c) && (c <? BOARD_WIDTH)).

Definition valid_rotation (p : Piece.t) : Prop :=
  0 <= Piece.rotation_index p < 4.

(** What a position must satisfy, cell by cell. *)
Definition cell_ok (g : Board.t) (rc : Coord) : Prop :=
  let '(r, c) := rc in
  0 <= c < BOARD_WIDTH /\ r < BOARD_HEIGHT /\ (0 <= r -> cell_at g r c = Some None).

Definition cell_okb (g : Board.t) (rc : Coord) : bool :=
  let '(r, c) := rc in
  (0 <=? c) && (c <? BOARD_WIDTH) && (r <? BOARD_HEIGHT) &&
  (if 0 <=? r then
     match cell_at g r c with
     | Some None => true
     | _ => false
     end
   else true).

Definition coord_eqb (a b : Coord) : bool :=
  (fst a =? fst b) && (snd a =? snd b).

Definition memb (rc : Coord) (cells : list Coord) : bool :=
  existsb (coord_eqb rc) cells.

Definition incomplete (r : list Board.Cell) : bool := negb (Board.row_complete r).

(** The number of complete rows of a grid, and the rows that are not
    complete, in their order. *)
Definition complete_rows (g : Board.t) : nat := length (filter Board.row_complete g).
Definition remaining_rows (g : Board.t) : Board.t := filter incomplete g.

(** A row is full when none of its cells is empty.  This is what the
    statements mean by a complete row; it owes nothing to the test the
    code makes. *)
Definition full (r : list Board.Cell) : Prop :=
  forall c : Board.Cell, In c r -> c <> None.

(** [without_full_rows g kept n]: [kept] is [g] with its full rows taken
    out, the other rows in their order, and [n] rows were taken out. *)
Inductive without_full_rows : Board.t -> Board.t -> nat -> Prop :=
| wfr_nil : without_full_rows [] [] 0
| wfr_drop (r : list Board.Cell) (g kept : Board.t) (n : nat) :
    full r -> without_full_rows g kept n ->
    without_full_rows (r :: g) kept (S n)
| wfr_keep (r : list Board.Cell) (g kept : Board.t) (n : nat) :
    ~ full r -> without_full_rows g kept n ->
    without_full_rows (r :: g) (r :: kept) n.

(** Any sequence of the two operations that write the grid. *)
Inductive BoardOp : Type :=
| OpLock (piece : Piece.t)
| OpClear.

Definition op_valid (op : BoardOp) : Prop :=
  match op with
  | OpLock piece => valid_rotation piece
  | OpClear => True
  end.

Fixpoint run_ops (ops : list BoardOp) (g : Board.t) : outcome Board.t :=
  match ops with
  | [] => Done g
  | OpLock piece :: rest =>
      let! g' := Board.lock_piece g piece in
      run_ops rest g'
  | OpClear :: rest =>
      let! (_, g') := Board.clear_lines g in
      run_ops rest g'
  end.

(** [n] calls of [get_next_piece_type] in a row, and their results. *)
Fixpoint draw (random_shuffle : nat -> list Tetromino -> list Tetromino) (n : nat)
  : Game.M (list Tetromino) :=
  match n with
  | O => Game.ret []
  | S n' =>
      Game.bind (Game.get_next_piece_type random_shuffle) (fun x =>
      Game.bind (draw random_shuffle n') (fun xs =>
      Game.ret (x :: xs)))
  end.

(** The [i]-th window of 7 results. *)
Definition window7 (i : nat) (l : list Tetromino) : list Tetromino :=
  firstn 7 (skipn (7 * i) l).

(** What the frame loop feeds the engine: a call of [update], or an
    event given to [handle_input]. *)
Inductive Command : Type :=
| Tick
| Input (event : Event).

Definition restarts_or_quits (c : Command) : bool :=
  match c with
  | Input (KEYDOWN K_r) | Input (KEYDOWN K_ESCAPE) => true
  | _ => false
  end.

Fixpoint run_commands (random_shuffle : nat -> list Tetromino -> list Tetromino)
  (get_ticks : nat -> Z) (cmds : list Command) : Game.M unit :=
  match cmds with
  | [] => Game.ret tt
  | Tick :: rest =>
      Game.bind (Game.update random_shuffle get_ticks) (fun _ =>
      run_commands random_shuffle get_ticks rest)
  | Input event :: rest =>
      Game.bind (Game.handle_input random_shuffle get_ticks event) (fun _ =>
      run_commands random_shuffle get_ticks rest)
  end.

(** Whether the board accepts the piece turned to [rotation] and
    shifted by [offset] columns. *)
Definition valid_at (g : Board.t) (p : Piece.t) (rotation offset : Z) : bool :=
  match Piece.get_cells_at p (Piece.row p) (Piece.col p + offset) rotation with
  | Done cells =>
      match Board.is_valid_position g cells with
      | Done true => true
      | _ => false
      end
  | _ => false
  end.

(** The states of the engine: a board of the right shape, and pieces
    whose rotation index is one of the four. *)
Definition wf_game (s : Game.t) : Prop :=
  wf_grid (Game.board s) /\
  (forall p, Game.current_piece s = Some p -> valid_rotation p) /\
  (forall p, Game.next_piece s = Some p -> valid_rotation p).

(** [random.shuffle] permutes the list it is given. *)
Definition shuffles_permute (random_shuffle : nat -> list Tetromino -> list Tetromino)
  : Prop :=
  forall n l, Permutation (random_shuffle n l) l.

(** The piece [p] put at row [r] and column [c], turned to [rotation]. *)
Definition placed (p : Piece.t) (r c rotation : Z) : Piece.t :=
  Piece.mk (Piece.type p) rotation r c.

(** The state after the bag was filled again. *)
Definition refilled (random_shuffle : nat -> list Tetromino -> list Tetromino)
  (s : Game.t) : Game.t :=
  Game.set_piece_bag (random_shuffle (Game.shuffles s) TETROMINOES_keys)
    (Game.set_shuffles (S (Game.shuffles s)) s).

(** The states of a game: [reset_game] makes the first one (it is
    what [__init__] ends with), and the frame loop goes on with [update]
    and [handle_input]. *)
Inductive reachable (random_shuffle : nat -> list Tetromino -> list Tetromino)
  (get_ticks : nat -> Z) : Game.t -> Prop :=
| reachable_reset (s0 s : Game.t) :
    Game.reset_game random_shuffle get_ticks s0 = Done (tt, s) ->
    reachable random_shuffle get_ticks s
| reachable_update (s s' : Game.t) :
    reachable random_shuffle get_ticks s ->
    Game.update random_shuffle get_ticks s = Done (tt, s') ->
    reachable random_shuffle get_ticks s'
| reachable_input (s s' : Game.t) (event : Event) :
    reachable random_shuffle get_ticks s ->
    Game.handle_input random_shuffle get_ticks event s = Done (tt, s') ->
    reachable random_shuffle get_ticks s'.

(** The cells of a piece lie in the 4 x 4 box at its anchor. *)
Definition in_box (r c : Z) (rc : Coord) : Prop :=
  r <= fst rc <= r + 3 /\ c <= snd rc <= c + 3.

(** The number of occupied cells of a grid. *)
Definition occupied_in_row (r : list Board.Cell) : nat :=
  length (filter Board.is_not_None r).

Definition occupied (g : Board.t) : nat :=
  list_sum (map occupied_in_row g).

(** Whether the board accepts the piece where it is. *)
Definition piece_fits (g : Board.t) (p : Piece.t) : bool :=
  match Piece.get_cells p with
  | Done cells =>
      match Board.is_valid_position g cells with
      | Done true => true
      | _ => false
      end
  | _ => false
  end.

(** The counters of a game, as [lock_piece] keeps them. *)
Definition counters_ok (s : Game.t) : Prop :=
  0 <= Game.score s /\
  0 <= Game.lines_cleared s /\
  Game.level s = Game.lines_cleared s / 10 + 1 /\
  Game.fall_speed s = Z.max 100 (FALL_SPEED - (Game.level s - 1) * 50).

(** While the game is not over there is a falling piece, and the board
    accepts it where it is; the next piece waits at the spawn
    position. *)
Definition playable (s : Game.t) : Prop :=
  (Game.game_over s = false ->
   exists p, Game.current_piece s = Some p /\ piece_fits (Game.board s) p = true) /\
  exists ty, Game.next_piece s = Some (Piece.init ty).

(** The bag holds some of the seven types, none twice, and never all
    seven between two calls. *)
Definition bag_ok (s : Game.t) : Prop :=
  NoDup (Game.piece_bag s) /\ (length (Game.piece_bag s) <= 6)%nat.

(** The state in which [lock_piece] calls [spawn_piece], when the
    locked board was cleared of [lines] lines and became [grid]. *)
Definition after_clear (lines : Z) (grid : Board.t) (s : Game.t) : Game.t :=
  if lines >? 0 then
    let s1 := Game.set_lines_cleared (Game.lines_cleared s + lines)
                (Game.set_board grid s) in
    let s2 := Game.set_score (Game.score s1 + Game.scores_get lines * Game.level s1) s1 in
    let s3 := Game.set_level (Game.lines_cleared s2 / 10 + 1) s2 in
    Game.set_fall_speed (Z.max 100 (FALL_SPEED - (Game.level s3 - 1) * 50)) s3
  else Game.set_board grid s.

(** All that holds of a state along a game. *)
Definition sound (s : Game.t) : Prop :=
  wf_game s /\ counters_ok s /\ playable s /\ bag_ok s.

Definition quits (c : Command) : bool :=
  match c with
  | Input (KEYDOWN K_ESCAPE) => true
  | _ => false
  end.

(** From [s] to [s'] nothing was lost: score, lines and level did not
    go down and the fall interval did not go up. *)
Definition grows (s s' : Game.t) : Prop :=
  Game.score s <= Game.score s' /\
  Game.lines_cleared s <= Game.lines_cleared s' /\
  Game.level s <= Game.level s' /\
  Game.fall_speed s' <= Game.fall_speed s.

(** Every piece locked brought four cells and every line cleared took
    ten away. *)
Definition conserved (s : Game.t) : Prop :=
  (Z.of_nat (occupied (Game.board s)) + 10 * Game.lines_cleared s) mod 4 = 0.

(** The current piece has no cell above the top row. *)
Definition below_top (s : Game.t) : Prop :=
  forall p, Game.current_piece s = Some p -> 0 <= Piece.row p.

(** A key that is neither P nor ESC. *)
Definition inert_when_paused (event : Event) : bool :=
  match event with
  | KEYDOWN K_p | KEYDOWN K_ESCAPE => false
  | _ => true
  end.

(** *** Sample states

    A world in which [random.shuffle] reverses the list and the clock
    advances 16 ms between two readings. *)
Definition sample_shuffle (n : nat) (l : list Tetromino) : list Tetromino := rev l.
Definition sample_ticks (n : nat) : Z := 16 * Z.of_nat n.

(** Row 19 holds six cells, columns 0 to 5; the rest is empty. *)
Definition sample_board : Board.t :=
  repeat Board.empty_row 19 ++ [repeat (Some pO) 6 ++ repeat None 4].

(** An I piece lying in the gap of row 19, nine lines cleared so far,
    hence level 1. *)
Definition sample_gap_piece : Piece.t := Piece.mk pI 0 19 6.

Definition sample_game : Game.t :=
  Game.mk sample_board (Some sample_gap_piece) (Some (Piece.init pT))
    900 1 9 false false 0 500 [pL; pJ] 2 5.

(** A T piece at its spawn position over the same board. *)
Definition sample_falling : Game.t :=
  Game.set_current_piece (Some (Piece.init pT)) sample_game.

(** An upright I piece against the left wall: its cells are in
    column 0, rows 5 to 8. *)
Definition sample_wall_piece : Piece.t := Piece.mk pI 1 5 (-2).

Definition sample_at_wall : Game.t :=
  Game.set_current_piece (Some sample_wall_piece) sample_game.

(** The same piece at the wall, with the cell at row 7, column 3
    occupied: no kick makes room for the piece lying down. *)
Definition sample_blocked : Game.t :=
  Game.set_board
    (repeat Board.empty_row 7 ++
     [[None; None; None; Some pZ; None; None; None; None; None; None]] ++
     repeat Board.empty_row 12)
    sample_at_wall.

(** The game that [reset_game] starts in the sample world, and the
    same game after a hard drop of its first piece. *)
Definition sample_started : Game.t :=
  match Game.reset_game sample_shuffle sample_ticks sample_game with
  | Done (_, s) => s
  | _ => sample_game
  end.

Definition sample_dropped : Game.t :=
  match Game.handle_input sample_shuffle sample_ticks (KEYDOWN K_SPACE) sample_started with
  | Done (_, s) => s
  | _ => sample_started
  end.

(** [sample_falling] with its piece one row lower. *)
Definition sample_lowered : Game.t :=
  Game.set_current_piece (Some (Piece.mk pT 0 1 3)) sample_falling.

(** Rows 17 and 19 are full, row 18 is the row of [sample_board]. *)
Definition sample_stack : Board.t :=
  repeat Board.empty_row 17 ++
  [repeat (Some pT) 10; repeat (Some pO) 6 ++ repeat None 4; repeat (Some pI) 10].

(** The keys that fill row 19 in the sample world: the I piece to the
    left wall, the O piece beside it, the T piece beside that, and the S
    piece upright in the last column. *)
Definition sample_line_commands : list Command :=
  [Input (KEYDOWN K_LEFT); Input (KEYDOWN K_LEFT); Input (KEYDOWN K_LEFT);
   Input (KEYDOWN K_SPACE);
   Input (KEYDOWN K_RIGHT); Input (KEYDOWN K_SPACE);
   Input (KEYDOWN K_RIGHT); Input (KEYDOWN K_RIGHT); Input (KEYDOWN K_RIGHT);
   Input (KEYDOWN K_SPACE);
   Input (KEYDOWN K_UP);
   Input (KEYDOWN K_RIGHT); Input (KEYDOWN K_RIGHT); Input (KEYDOWN K_RIGHT);
   Input (KEYDOWN K_RIGHT);
   Input (KEYDOWN K_SPACE)].

(** The state before the last of these keys, and the state after it. *)
Definition sample_before_line : Game.t :=
  match run_commands sample_shuffle sample_ticks (removelast sample_line_commands)
          sample_started with
  | Done (_, s) => s
  | _ => sample_started
  end.

Definition sample_cleared : Game.t :=
  match run_commands sample_shuffle sample_ticks sample_line_commands sample_started with
  | Done (_, s) => s
  | _ => sample_started
  end.

Definition sample_over : Game.t := Game.set_game_over true sample_falling.

Definition sample_commands : list Command :=
  [Tick; Input (KEYDOWN K_LEFT); Input (KEYDOWN K_SPACE); Tick;
   Input (KEYDOWN K_p); Input OtherEvent; Input (KEYDOWN K_DOWN)].

Definition sample_fresh : Game.t := Game.set_piece_bag [] sample_game.

(** ** Python lists *)

Lemma py_index_in_range (n : nat) (i : Z) :
  0 <= i < Z.of_nat n -> py_index n i = Some (Z.to_nat i).
Proof.
  intros Hi. unfold py_index.
  replace (0 <=? i) with true by (symmetry; apply Z.leb_le; lia).
  replace (i <? Z.of_nat n) with true by (symmetry; apply Z.ltb_lt; lia).
  reflexivity.
Qed.

Lemma py_get_in_range {A : Type} (l : list A) (i : Z) :
  0 <= i < Z.of_nat (length l) ->
  exists a, nth_error l (Z.to_nat i) = Some a /\ py_get l i = Done a.
Proof.
  intros Hi. unfold py_get. rewrite py_index_in_range by assumption.
  destruct (nth_error l (Z.to_nat i)) as [a|] eqn:E.
  - exists a. split; reflexivity.
  - apply nth_error_None in E. lia.
Qed.

Lemma py_set_in_range {A : Type} (l : list A) (i : Z) (v : A) :
  0 <= i < Z.of_nat (length l) ->
  py_set l i v = Done (replace_nth (Z.to_nat i) v l).
Proof.
  intros Hi. unfold py_set. rewrite py_index_in_range by assumption. reflexivity.
Qed.

Lemma py_del_in_range {A : Type} (l : list A) (i : Z) :
  0 <= i < Z.of_nat (length l) ->
  py_del l i = Done (remove_nth (Z.to_nat i) l).
Proof.
  intros Hi. unfold py_del. rewrite py_index_in_range by assumption. reflexivity.
Qed.

Lemma replace_nth_length {A : Type} (k : nat) (v : A) (l : list A) :
  length (replace_nth k v l) = length l.
Proof.
  revert k. induction l as [|a l IH]; intros [|k]; simpl; auto.
Qed.

Lemma nth_error_replace_nth {A : Type} (k j : nat) (v : A) (l : list A) :
  (k < length l)%nat ->
  nth_error (replace_nth k v l) j = if Nat.eqb j k then Some v else nth_error l j.
Proof.
  revert k j. induction l as [|a l IH]; intros k j Hk; simpl in Hk; [lia|].
  destruct k as [|k], j as [|j]; simpl; try reflexivity.
  apply IH. lia.
Qed.

Lemma Forall_replace_nth {A : Type} (P : A -> Prop) (k : nat) (v : A) (l : list A) :
  P v -> Forall P l -> Forall P (replace_nth k v l).
Proof.
  intros Hv Hl. revert k. induction Hl as [|a l Ha Hl IH]; intros [|k]; simpl;
    constructor; auto.
Qed.

Lemma remove_nth_app {A : Type} (top bottom : list A) (x : A) :
  remove_nth (length top) (top ++ x :: bottom) = top ++ bottom.
Proof.
  induction top as [|a top IH]; simpl; [reflexivity|]. now rewrite IH.
Qed.

Lemma nth_error_app_middle {A : Type} (top bottom : list A) (x : A) :
  nth_error (top ++ x :: bottom) (length top) = Some x.
Proof.
  induction top as [|a top IH]; simpl; auto.
Qed.

(** ** The grid *)

Lemma wf_grid_init : wf_grid Board.init.
Proof.
  split.
  - unfold Board.init. apply repeat_length.
  - unfold Board.init. apply Forall_forall. intros r Hr.
    apply repeat_spec in Hr. subst r. apply repeat_length.
Qed.

Lemma wf_grid_cell (g : Board.t) (r c : Z) :
  wf_grid g -> 0 <= r < BOARD_HEIGHT -> 0 <= c < BOARD_WIDTH ->
  exists rw x,
    nth_error g (Z.to_nat r) = Some rw /\
    length rw = Z.to_nat BOARD_WIDTH /\
    py_get g r = Done rw /\ py_get rw c = Done x /\ cell_at g r c = Some x.
Proof.
  intros [Hlen Hrows] Hr Hc.
  destruct (py_get_in_range g r) as (rw & Hnth & Hget); [lia|].
  assert (Hrw : length rw = Z.to_nat BOARD_WIDTH).
  { rewrite Forall_forall in Hrows. apply Hrows. eapply nth_error_In; eauto. }
  destruct (py_get_in_range rw c) as (x & Hnthc & Hgetc); [lia|].
  exists rw, x. repeat split; auto.
  unfold cell_at.
  replace (0 <=? r) with true by (symmetry; apply Z.leb_le; lia).
  replace (0 <=? c) with true by (symmetry; apply Z.leb_le; lia).
  simpl. now rewrite Hnth.
Qed.

Lemma cell_okb_spec (g : Board.t) (rc : Coord) :
  wf_grid g -> cell_okb g rc = true <-> cell_ok g rc.
Proof.
  intros Hwf. destruct rc as [r c]. unfold cell_okb, cell_ok.
  rewrite !andb_true_iff, Z.leb_le, !Z.ltb_lt.
  destruct (Z.leb_spec 0 r) as [Hr|Hr].
  - split.
    + intros [[[H1 H2] H3] H4]. repeat split; auto. intros _.
      destruct (cell_at g r c) as [[x|]|]; try discriminate; reflexivity.
    + intros [[H1 H2] [H3 H4]]. repeat split; auto. now rewrite H4.
  - split.
    + intros [[[H1 H2] H3] _]. repeat split; auto. lia.
    + intros [[H1 H2] [H3 _]]. repeat split; auto.
Qed.

Lemma is_valid_position_forallb (g : Board.t) (cells : list Coord) :
  wf_grid g ->
  Board.is_valid_position g cells = Done (forallb (cell_okb g) cells).
Proof.
  intros Hwf. induction cells as [|[r c] rest IH]; simpl; [reflexivity|].
  rewrite !Z.geb_leb.
  destruct (Z.ltb_spec c 0) as [Hc0|Hc0]; simpl.
  { replace (0 <=? c) with false by (symmetry; apply Z.leb_gt; lia). reflexivity. }
  replace (0 <=? c) with true by (symmetry; apply Z.leb_le; lia).
  destruct (Z.leb_spec BOARD_WIDTH c) as [Hc1|Hc1]; simpl.
  { replace (c <? BOARD_WIDTH) with false by (symmetry; apply Z.ltb_ge; lia).
    reflexivity. }
  replace (c <? BOARD_WIDTH) with true by (symmetry; apply Z.ltb_lt; lia).
  destruct (Z.leb_spec BOARD_HEIGHT r) as [Hr1|Hr1]; simpl.
  { replace (r <? BOARD_HEIGHT) with false by (symmetry; apply Z.ltb_ge; lia).
    reflexivity. }
  replace (r <? BOARD_HEIGHT) with true by (symmetry; apply Z.ltb_lt; lia).
  destruct (Z.leb_spec 0 r) as [Hr0|Hr0]; simpl; [|exact IH].
  destruct (wf_grid_cell g r c Hwf) as (rw & x & _ & _ & Hg & Hgc & Hcell); [lia|lia|].
  rewrite Hg. simpl. rewrite Hgc. simpl. rewrite Hcell.
  destruct x as [x|]; simpl; [reflexivity|exact IH].
Qed.

(** C5 -- [is_valid_position]: on a board of 20 rows of 10 cells it
    raises nothing, and it returns true exactly when every cell has its
    column in [0, 10), its row below 20 (negative rows are allowed) and,
    when its row is not negative, an empty cell in the grid. *)
Theorem is_valid_position_spec (g : Board.t) (cells : list Coord) :
  wf_grid g ->
  exists b : bool,
    Board.is_valid_position g cells = Done b /\
    (b = true <-> Forall (cell_ok g) cells).
Proof.
  intros Hwf. exists (forallb (cell_okb g) cells). split.
  - now apply is_valid_position_forallb.
  - rewrite forallb_forall, Forall_forall.
    split; intros H rc Hin; apply (cell_okb_spec g rc Hwf); auto.
Qed.

(** ** Locking a piece into the grid *)


Lemma coord_eqb_eq (a b : Coord) : coord_eqb a b = true <-> a = b.
Proof.
  destruct a as [r c], b as [r' c']. unfold coord_eqb. simpl.
  rewrite andb_true_iff, !Z.eqb_eq. split.
  - intros [-> ->]. reflexivity.
  - intros E. inversion E. auto.
Qed.

Lemma memb_In (rc : Coord) (cells : list Coord) :
  memb rc cells = true <-> In rc cells.
Proof.
  unfold memb. rewrite existsb_exists. split.
  - intros (x & Hx & E). apply coord_eqb_eq in E. now subst.
  - intros H. exists rc. split; [assumption|]. now apply coord_eqb_eq.
Qed.

Lemma cell_at_outside (g : Board.t) (r c : Z) :
  wf_grid g -> in_board r c = false -> cell_at g r c = None.
Proof.
  intros [Hlen Hrows] Hout. unfold cell_at, in_board in *.
  destruct (Z.leb_spec 0 r) as [Hr|Hr]; simpl in Hout |- *; [|reflexivity].
  destruct (Z.leb_spec 0 c) as [Hc|Hc]; simpl in Hout |- *; [|reflexivity].
  destruct (nth_error g (Z.to_nat r)) as [rw|] eqn:E; [|reflexivity].
  assert (Hr' : (Z.to_nat r < length g)%nat) by (apply nth_error_Some; congruence).
  assert (Hrw : length rw = Z.to_nat BOARD_WIDTH).
  { rewrite Forall_forall in Hrows. apply Hrows. eapply nth_error_In; eauto. }
  replace (r <? BOARD_HEIGHT) with true in Hout by (symmetry; apply Z.ltb_lt; lia).
  simpl in Hout. apply Z.ltb_ge in Hout.
  apply nth_error_None. lia.
Qed.

(** The assignment [grid[r0][c0] = v] inside the board. *)
Lemma grid_write (g : Board.t) (r0 c0 : Z) (v : Board.Cell) :
  wf_grid g -> 0 <= r0 < BOARD_HEIGHT -> 0 <= c0 < BOARD_WIDTH ->
  exists rw rw' g',
    py_get g r0 = Done rw /\ py_set rw c0 v = Done rw' /\
    py_set g r0 rw' = Done g' /\ wf_grid g' /\
    forall r c,
      cell_at g' r c = if coord_eqb (r, c) (r0, c0) then Some v else cell_at g r c.
Proof.
  intros Hwf Hr0 Hc0.
  destruct (wf_grid_cell g r0 c0 Hwf Hr0 Hc0) as (rw & x & Hnth & Hrw & Hg & _ & _).
  destruct Hwf as [Hlen Hrows].
  exists rw, (replace_nth (Z.to_nat c0) v rw),
    (replace_nth (Z.to_nat r0) (replace_nth (Z.to_nat c0) v rw) g).
  split; [exact Hg|].
  split; [apply py_set_in_range; lia|].
  split; [apply py_set_in_range; lia|].
  split.
  { split.
    - now rewrite replace_nth_length.
    - apply Forall_replace_nth; [|assumption]. now rewrite replace_nth_length. }
  intros r c. unfold cell_at, coord_eqb. simpl.
  destruct (Z.leb_spec 0 r) as [Hr|Hr]; simpl.
  2:{ replace (r =? r0) with false by (symmetry; apply Z.eqb_neq; lia). reflexivity. }
  destruct (Z.leb_spec 0 c) as [Hc|Hc]; simpl.
  2:{ replace (c =? c0) with false by (symmetry; apply Z.eqb_neq; lia).
      now rewrite andb_false_r. }
  rewrite nth_error_replace_nth by lia.
  destruct (Z.eqb_spec r r0) as [->|Hne]; simpl.
  - rewrite Nat.eqb_refl. rewrite nth_error_replace_nth by lia.
    destruct (Z.eqb_spec c c0) as [->|Hnec].
    + now rewrite Nat.eqb_refl.
    + replace (Nat.eqb (Z.to_nat c) (Z.to_nat c0)) with false
        by (symmetry; apply Nat.eqb_neq; lia).
      now rewrite Hnth.
  - replace (Nat.eqb (Z.to_nat r) (Z.to_nat r0)) with false
      by (symmetry; apply Nat.eqb_neq; lia).
    reflexivity.
Qed.

Lemma lock_cells_spec (ty : Tetromino) (cells : list Coord) :
  forall g : Board.t,
    wf_grid g ->
    exists g',
      Board.lock_cells g ty cells = Done g' /\ wf_grid g' /\
      forall r c,
        cell_at g' r c =
          if memb (r, c) cells && in_board r c then Some (Some ty) else cell_at g r c.
Proof.
  induction cells as [|[r0 c0] rest IH]; intros g Hwf.
  - exists g. repeat split; auto; apply Hwf.
  - simpl. fold (in_board r0 c0).
    destruct (in_board r0 c0) eqn:Hin.
    + assert (Hr0 : 0 <= r0 < BOARD_HEIGHT /\ 0 <= c0 < BOARD_WIDTH).
      { unfold in_board in Hin. rewrite !andb_true_iff, !Z.leb_le, !Z.ltb_lt in Hin. lia. }
      destruct (grid_write g r0 c0 (Some ty) Hwf) as
        (rw & rw' & g1 & Hg & Hs & Hs' & Hwf1 & Hcell1); [lia|lia|].
      rewrite Hg. simpl. rewrite Hs. simpl. rewrite Hs'. simpl.
      destruct (IH g1 Hwf1) as (g' & Hrun & Hwf' & Hcell').
      exists g'. repeat split; auto; try apply Hwf'.
      intros r c. rewrite Hcell', Hcell1.
      destruct (coord_eqb (r, c) (r0, c0)) eqn:E; simpl.
      * apply coord_eqb_eq in E. inversion E; subst. rewrite Hin.
        now destruct (memb (r0, c0) rest).
      * reflexivity.
    + destruct (IH g Hwf) as (g' & Hrun & Hwf' & Hcell').
      exists g'. repeat split; auto; try apply Hwf'.
      intros r c. rewrite Hcell'.
      destruct (coord_eqb (r, c) (r0, c0)) eqn:E; simpl; [|reflexivity].
      apply coord_eqb_eq in E. inversion E; subst. rewrite Hin.
      now rewrite !andb_false_r.
Qed.

(** The catalog: each type has its four rotation states, of four cells
    each, with no negative offset. *)
Lemma catalog_rotation (ty : Tetromino) (rotation : Z) :
  0 <= rotation < 4 ->
  exists offsets,
    py_get (TETROMINOES ty) rotation = Done offsets /\
    length offsets = 4%nat /\
    Forall (fun d : Coord => 0 <= fst d /\ 0 <= snd d) offsets.
Proof.
  intros H.
  assert (E : rotation = 0 \/ rotation = 1 \/ rotation = 2 \/ rotation = 3) by lia.
  destruct E as [-> | [-> | [-> | ->]]]; destruct ty;
    (eexists; split; [reflexivity|]; split; [reflexivity|];
     repeat constructor; simpl; lia).
Qed.

Lemma get_cells_at_valid (p : Piece.t) (r c rotation : Z) :
  0 <= rotation < 4 ->
  exists offsets,
    py_get (Piece.rotations p) rotation = Done offsets /\
    length offsets = 4%nat /\
    Forall (fun d : Coord => 0 <= fst d /\ 0 <= snd d) offsets /\
    Piece.get_cells_at p r c rotation =
      Done (map (fun '(dr, dc) => (r + dr, c + dc)) offsets).
Proof.
  intros H. destruct (catalog_rotation (Piece.type p) rotation H) as (offs & Hg & Hl & Hf).
  exists offs. repeat split; auto.
  unfold Piece.get_cells_at, Piece.rotations. now rewrite Hg.
Qed.

Lemma lock_piece_result (g : Board.t) (p : Piece.t) :
  wf_grid g -> valid_rotation p ->
  exists cells g',
    Piece.get_cells p = Done cells /\
    Board.lock_piece g p = Done g' /\
    wf_grid g' /\
    forall r c,
      (In (r, c) cells -> in_board r c = true ->
       cell_at g' r c = Some (Some (Piece.type p))) /\
      (~ (In (r, c) cells /\ in_board r c = true) ->
       cell_at g' r c = cell_at g r c).
Proof.
  intros Hwf Hrot.
  destruct (get_cells_at_valid p (Piece.row p) (Piece.col p) (Piece.rotation_index p) Hrot)
    as (offs & _ & _ & _ & Hcells).
  set (cells := map (fun '(dr, dc) => (Piece.row p + dr, Piece.col p + dc)) offs) in *.
  destruct (lock_cells_spec (Piece.type p) cells g Hwf) as (g' & Hrun & Hwf' & Hcell).
  exists cells, g'. split; [exact Hcells|].
  split; [unfold Board.lock_piece, Piece.get_cells; rewrite Hcells; exact Hrun|].
  split; [exact Hwf'|].
  intros r c. rewrite Hcell. split.
  - intros Hin Hb. apply memb_In in Hin. now rewrite Hin, Hb.
  - intros Hn. destruct (memb (r, c) cells) eqn:Hm; simpl; [|reflexivity].
    destruct (in_board r c) eqn:Hb; [|reflexivity].
    exfalso. apply Hn. split; [now apply memb_In|reflexivity].
Qed.

(** C6 -- [Board.lock_piece]: wherever the piece is anchored, locking
    raises nothing (no subscript is out of range), writes the type of
    the piece into exactly those of its cells that have their row in
    [0, 20) and their column in [0, 10), and leaves every other cell of
    the grid as it was. *)
Theorem lock_piece_writes_visible_cells (g : Board.t) (p : Piece.t) :
  wf_grid g -> valid_rotation p ->
  exists cells g',
    Piece.get_cells p = Done cells /\
    Board.lock_piece g p = Done g' /\
    wf_grid g' /\
    forall r c,
      (In (r, c) cells -> in_board r c = true ->
       cell_at g' r c = Some (Some (Piece.type p))) /\
      (~ (In (r, c) cells /\ in_board r c = true) ->
       cell_at g' r c = cell_at g r c).
Proof. exact (lock_piece_result g p). Qed.

(** ** Clearing lines *)


Lemma empty_row_incomplete : Board.row_complete Board.empty_row = false.
Proof. reflexivity. Qed.

Lemma complete_rows_app (g1 g2 : Board.t) :
  complete_rows (g1 ++ g2) = (complete_rows g1 + complete_rows g2)%nat.
Proof. unfold complete_rows. now rewrite filter_app, length_app. Qed.

Lemma remaining_rows_app (g1 g2 : Board.t) :
  remaining_rows (g1 ++ g2) = remaining_rows g1 ++ remaining_rows g2.
Proof. unfold remaining_rows. apply filter_app. Qed.

Lemma rows_partition (g : Board.t) :
  (complete_rows g + length (remaining_rows g))%nat = length g.
Proof.
  unfold complete_rows, remaining_rows, incomplete.
  induction g as [|r g IH]; simpl; [reflexivity|].
  destruct (Board.row_complete r); simpl; lia.
Qed.

Lemma repeat_snoc_app {A : Type} (a : A) (n : nat) (l : list A) :
  repeat a (S n) ++ l = repeat a n ++ a :: l.
Proof.
  change (repeat a (S n)) with (a :: repeat a n).
  rewrite repeat_cons, <- app_assoc. reflexivity.
Qed.

(** The loop, started at the last row of [top] with [bottom] already
    scanned: with enough iterations it removes the complete rows of
    [top] and leaves [bottom] alone. *)
Lemma clear_lines_loop_enough (fuel : nat) :
  forall (top bottom : Board.t) (lines : Z),
    (length top + complete_rows top < fuel)%nat ->
    Board.clear_lines_loop fuel (top ++ bottom) (Z.of_nat (length top) - 1) lines =
      Done (lines + Z.of_nat (complete_rows top),
            repeat Board.empty_row (complete_rows top) ++ remaining_rows top ++ bottom).
Proof.
  induction fuel as [|fuel IH]; intros top bottom lines Hfuel; [lia|].
  destruct top as [|x top _] using rev_ind.
  - simpl. f_equal. f_equal. lia.
  - rewrite length_app, complete_rows_app, remaining_rows_app in *.
    simpl length in *.
    cbn [Board.clear_lines_loop].
    replace (Z.of_nat (length top + 1) - 1) with (Z.of_nat (length top)) by lia.
    replace (Z.of_nat (length top) >=? 0) with true
      by (symmetry; rewrite Z.geb_leb; apply Z.leb_le; lia).
    rewrite <- app_assoc. simpl app.
    assert (Hget : py_get (top ++ x :: bottom) (Z.of_nat (length top)) = Done x).
    { destruct (py_get_in_range (top ++ x :: bottom) (Z.of_nat (length top)))
        as (a & Hn & Hg).
      - rewrite length_app. simpl. lia.
      - rewrite Nat2Z.id, nth_error_app_middle in Hn. congruence. }
    rewrite Hget. simpl obind.
    unfold complete_rows, remaining_rows, incomplete in *. simpl filter in *.
    destruct (Board.row_complete x) eqn:Hx; simpl negb; simpl length in *.
    + rewrite py_del_in_range by (rewrite length_app; simpl; lia).
      rewrite Nat2Z.id, remove_nth_app. simpl obind. unfold py_insert0.
      specialize (IH (Board.empty_row :: top) bottom (lines + 1)).
      simpl length in IH. simpl filter in IH.
      replace (Z.of_nat (S (length top)) - 1) with (Z.of_nat (length top)) in IH by lia.
      simpl app in IH. rewrite IH by lia.
      f_equal. f_equal; [lia|].
      rewrite Nat.add_1_r, repeat_snoc_app, app_nil_r. reflexivity.
    + specialize (IH top (x :: bottom) lines).
      rewrite IH by lia.
      f_equal. f_equal; [lia|].
      rewrite Nat.add_0_r, <- !app_assoc. reflexivity.
Qed.

Lemma complete_rows_le (g : Board.t) : (complete_rows g <= length g)%nat.
Proof. pose proof (rows_partition g). lia. Qed.

Lemma clear_lines_result (g : Board.t) :
  length g = Z.to_nat BOARD_HEIGHT ->
  Board.clear_lines g =
    Done (Z.of_nat (complete_rows g),
          repeat Board.empty_row (complete_rows g) ++ remaining_rows g).
Proof.
  intros Hlen. unfold Board.clear_lines.
  pose proof (complete_rows_le g) as Hle.
  pose proof (clear_lines_loop_enough Board.clear_lines_fuel g [] 0) as H.
  rewrite !app_nil_r in H.
  replace (Z.of_nat (length g) - 1) with (BOARD_HEIGHT - 1) in H
    by (rewrite Hlen; reflexivity).
  rewrite H; [reflexivity|].
  unfold Board.clear_lines_fuel. lia.
Qed.

Lemma clear_lines_wf (g : Board.t) :
  wf_grid g ->
  wf_grid (repeat Board.empty_row (complete_rows g) ++ remaining_rows g).
Proof.
  intros [Hlen Hrows]. split.
  - rewrite length_app, repeat_length, rows_partition. exact Hlen.
  - apply Forall_app. split.
    + apply Forall_forall. intros r Hr. apply repeat_spec in Hr. subst r.
      apply repeat_length.
    + rewrite Forall_forall in *. intros r Hr. apply Hrows.
      unfold remaining_rows in Hr. apply filter_In in Hr. tauto.
Qed.

Lemma all_empty_no_complete_row (g : Board.t) :
  wf_grid g ->
  (forall r c, in_board r c = true -> cell_at g r c = Some None) ->
  complete_rows g = 0%nat /\ remaining_rows g = g.
Proof.
  intros [Hlen Hrows] Hempty.
  assert (Hinc : forall rw, In rw g -> Board.row_complete rw = false).
  { intros rw Hin. apply In_nth_error in Hin. destruct Hin as [i Hi].
    assert (Hi' : (i < length g)%nat) by (apply nth_error_Some; congruence).
    assert (Hw : length rw = Z.to_nat BOARD_WIDTH).
    { rewrite Forall_forall in Hrows. apply Hrows. eapply nth_error_In; eauto. }
    specialize (Hempty (Z.of_nat i) 0).
    unfold cell_at, in_board in Hempty.
    replace (0 <=? Z.of_nat i) with true in Hempty by (symmetry; apply Z.leb_le; lia).
    replace (Z.of_nat i <? BOARD_HEIGHT) with true in Hempty
      by (symmetry; apply Z.ltb_lt; lia).
    rewrite Nat2Z.id, Hi in Hempty. specialize (Hempty eq_refl).
    destruct rw as [|x rw]; [discriminate|].
    simpl in Hempty. injection Hempty as ->. reflexivity. }
  unfold complete_rows, remaining_rows, incomplete.
  clear Hlen Hrows Hempty. induction g as [|rw g IH]; [split; reflexivity|].
  simpl. rewrite (Hinc rw) by (now left). simpl.
  destruct IH as [IH1 IH2]; [intros; apply Hinc; now right|].
  rewrite IH1, IH2. split; reflexivity.
Qed.

(** A row passes the test of [clear_lines] exactly when it is full. *)
Lemma row_complete_full (r : list Board.Cell) :
  Board.row_complete r = true <-> full r.
Proof.
  unfold Board.row_complete, full. rewrite forallb_forall.
  split; intros H c Hin; specialize (H c Hin); destruct c as [ty|].
  - discriminate.
  - discriminate H.
  - reflexivity.
  - now contradiction H.
Qed.

Lemma row_incomplete_not_full (r : list Board.Cell) :
  Board.row_complete r = false <-> ~ full r.
Proof.
  rewrite <- row_complete_full.
  destruct (Board.row_complete r); split; intros H; congruence.
Qed.

Lemma remaining_without_full (g : Board.t) :
  without_full_rows g (remaining_rows g) (complete_rows g).
Proof.
  unfold remaining_rows, complete_rows, incomplete.
  induction g as [|r g IH]; simpl; [constructor|].
  destruct (Board.row_complete r) eqn:E; simpl.
  - apply wfr_drop; [now apply row_complete_full|exact IH].
  - apply wfr_keep; [now apply row_incomplete_not_full|exact IH].
Qed.

Lemma no_complete_row_iff (g : Board.t) :
  complete_rows g = 0%nat <-> Forall (fun r => ~ full r) g.
Proof.
  unfold complete_rows. induction g as [|r g IH]; simpl.
  - split; [constructor|reflexivity].
  - destruct (Board.row_complete r) eqn:E; simpl.
    + split; [discriminate|]. intros H. inversion H as [|? ? Hr _]; subst.
      apply row_complete_full in E. contradiction.
    + rewrite IH. split.
      * intros H. constructor; [now apply row_incomplete_not_full|exact H].
      * intros H. now inversion H.
Qed.

(** C3 -- [clear_lines] removes every full row (every row whose cells
    are all non-empty) and no other, puts one empty row of ten cells on
    top for each row removed, keeps the other rows in their order, and
    returns the number of rows removed; on a grid with no occupied cell
    it returns 0 and the grid is as before. *)
Theorem clear_lines_spec (g : Board.t) :
  wf_grid g ->
  (exists (n : nat) (kept : Board.t),
     Board.clear_lines g = Done (Z.of_nat n, repeat (repeat None 10) n ++ kept) /\
     without_full_rows g kept n) /\
  ((forall r c, in_board r c = true -> cell_at g r c = Some None) ->
   Board.clear_lines g = Done (0, g)).
Proof.
  intros Hwf. split.
  - exists (complete_rows g), (remaining_rows g). split.
    + apply clear_lines_result, Hwf.
    + apply remaining_without_full.
  - intros Hempty. rewrite clear_lines_result by apply Hwf.
    destruct (all_empty_no_complete_row g Hwf Hempty) as [-> ->]. reflexivity.
Qed.

(** ** The shape of the grid *)

Lemma run_ops_wf (ops : list BoardOp) :
  forall g : Board.t,
    wf_grid g -> Forall op_valid ops ->
    exists g', run_ops ops g = Done g' /\ wf_grid g'.
Proof.
  induction ops as [|op rest IH]; intros g Hwf Hops.
  - exists g. split; [reflexivity|assumption].
  - inversion Hops as [|? ? Hop Hrest]; subst.
    destruct op as [piece|]; simpl.
    + destruct (lock_piece_result g piece Hwf Hop)
        as (cells & g1 & _ & Hlock & Hwf1 & _).
      rewrite Hlock. simpl. apply IH; assumption.
    + rewrite clear_lines_result by apply Hwf. simpl.
      apply IH; [|assumption]. now apply clear_lines_wf.
Qed.

(** C10 -- The grid has exactly 20 rows of exactly 10 cells: a new
    board has, and after any sequence of [lock_piece] and [clear_lines]
    calls on it (none of which raises) the grid still has. *)
Theorem grid_shape_invariant (ops : list BoardOp) :
  Forall op_valid ops ->
  wf_grid Board.init /\
  exists g', run_ops ops Board.init = Done g' /\ wf_grid g'.
Proof.
  intros Hops. split; [apply wf_grid_init|].
  apply run_ops_wf; [apply wf_grid_init|assumption].
Qed.

(** ** Moving and turning the current piece *)

Ltac munfold :=
  unfold Game.bind, Game.gets, Game.modify, Game.ret, Game.lift, Game.raise.

Lemma set_current_piece_same (s : Game.t) :
  Game.set_current_piece (Game.current_piece s) s = s.
Proof. destruct s; reflexivity. Qed.

Lemma move_piece_some (s : Game.t) (p : Piece.t) (d_row d_col : Z) :
  wf_grid (Game.board s) -> Game.current_piece s = Some p -> valid_rotation p ->
  exists cells,
    Piece.get_cells_at p (Piece.row p + d_row) (Piece.col p + d_col)
      (Piece.rotation_index p) = Done cells /\
    Board.is_valid_position (Game.board s) cells =
      Done (forallb (cell_okb (Game.board s)) cells) /\
    Game.move_piece d_row d_col s =
      Done (forallb (cell_okb (Game.board s)) cells,
            if forallb (cell_okb (Game.board s)) cells
            then Game.set_current_piece
                   (Some (placed p (Piece.row p + d_row) (Piece.col p + d_col)
                            (Piece.rotation_index p))) s
            else s).
Proof.
  intros Hwf Hcur Hrot.
  destruct (get_cells_at_valid p (Piece.row p + d_row) (Piece.col p + d_col)
              (Piece.rotation_index p) Hrot) as (offs & _ & _ & _ & Hcells).
  eexists. split; [exact Hcells|].
  split; [now apply is_valid_position_forallb|].
  unfold Game.move_piece. munfold. rewrite Hcur, Hcells.
  rewrite is_valid_position_forallb by assumption.
  destruct (forallb _ _); reflexivity.
Qed.

(** C8 -- [move_piece]: without a current piece it returns false and
    changes nothing; with one, it returns what [is_valid_position]
    says of the cells of the piece at the anchor moved by the delta
    (same rotation), and the state is the old one with the anchor moved
    when that is true, and the old one untouched when it is false. *)
Theorem move_piece_spec (s : Game.t) (d_row d_col : Z) :
  wf_game s ->
  match Game.current_piece s with
  | None => Game.move_piece d_row d_col s = Done (false, s)
  | Some p =>
      exists cells b,
        Piece.get_cells_at p (Piece.row p + d_row) (Piece.col p + d_col)
          (Piece.rotation_index p) = Done cells /\
        Board.is_valid_position (Game.board s) cells = Done b /\
        Game.move_piece d_row d_col s =
          Done (b, if b
                   then Game.set_current_piece
                          (Some (Piece.mk (Piece.type p) (Piece.rotation_index p)
                                   (Piece.row p + d_row) (Piece.col p + d_col))) s
                   else s)
  end.
Proof.
  intros (Hwf & Hcur & _).
  destruct (Game.current_piece s) as [p|] eqn:E.
  - destruct (move_piece_some s p d_row d_col Hwf E (Hcur p eq_refl))
      as (cells & Hc & Hv & Hm).
    exists cells, (forallb (cell_okb (Game.board s)) cells). auto.
  - unfold Game.move_piece. munfold. now rewrite E.
Qed.

Lemma rotation_target_range (p : Piece.t) (clockwise : bool) :
  0 <= (if clockwise then Piece.rotate_cw p else Piece.rotate_ccw p) < 4.
Proof.
  destruct clockwise; unfold Piece.rotate_cw, Piece.rotate_ccw;
    apply Z.mod_pos_bound; lia.
Qed.

Lemma valid_at_forallb (g : Board.t) (p : Piece.t) (rotation offset : Z) :
  wf_grid g -> 0 <= rotation < 4 ->
  exists cells,
    Piece.get_cells_at p (Piece.row p) (Piece.col p + offset) rotation = Done cells /\
    Board.is_valid_position g cells = Done (valid_at g p rotation offset).
Proof.
  intros Hwf Hrot.
  destruct (get_cells_at_valid p (Piece.row p) (Piece.col p + offset) rotation Hrot)
    as (offs & _ & _ & _ & Hcells).
  eexists. split; [exact Hcells|].
  unfold valid_at. rewrite Hcells.
  rewrite is_valid_position_forallb by assumption.
  now destruct (forallb _ _).
Qed.

Lemma rotate_kicks_find (s : Game.t) (p : Piece.t) (rotation : Z) (offsets : list Z) :
  wf_grid (Game.board s) -> 0 <= rotation < 4 ->
  Game.rotate_kicks p rotation offsets s =
    Done (match find (valid_at (Game.board s) p rotation) offsets with
          | Some offset =>
              (true, Game.set_current_piece
                       (Some (placed p (Piece.row p) (Piece.col p + offset) rotation)) s)
          | None => (false, s)
          end).
Proof.
  intros Hwf Hrot. induction offsets as [|offset rest IH]; [reflexivity|].
  destruct (valid_at_forallb (Game.board s) p rotation offset Hwf Hrot)
    as (cells & Hcells & Hvalid).
  simpl. munfold. rewrite Hcells, Hvalid.
  destruct (valid_at (Game.board s) p rotation offset); [reflexivity|exact IH].
Qed.

Lemma rotate_piece_result (s : Game.t) (p : Piece.t) (clockwise : bool) :
  wf_grid (Game.board s) -> Game.current_piece s = Some p ->
  let new_rotation := if clockwise then Piece.rotate_cw p else Piece.rotate_ccw p in
  Game.rotate_piece clockwise s =
    Done (if valid_at (Game.board s) p new_rotation 0
          then (true, Game.set_current_piece
                        (Some (Piece.mk (Piece.type p) new_rotation
                                 (Piece.row p) (Piece.col p))) s)
          else
            match find (valid_at (Game.board s) p new_rotation) [1; -1; 2; -2] with
            | Some offset =>
                (true, Game.set_current_piece
                         (Some (Piece.mk (Piece.type p) new_rotation
                                  (Piece.row p) (Piece.col p + offset))) s)
            | None => (false, s)
            end).
Proof.
  intros Hwf Hcur new_rotation.
  pose proof (rotation_target_range p clockwise) as Hrot.
  fold new_rotation in Hrot.
  destruct (valid_at_forallb (Game.board s) p new_rotation 0 Hwf Hrot)
    as (cells & Hcells & Hvalid).
  rewrite Z.add_0_r in Hcells.
  unfold Game.rotate_piece. munfold. rewrite Hcur. fold new_rotation.
  rewrite Hcells, Hvalid.
  destruct (valid_at (Game.board s) p new_rotation 0); [reflexivity|].
  apply rotate_kicks_find; assumption.
Qed.

(** C4 -- [rotate_piece]: the target rotation is tried at the anchor
    as it is; when the board refuses it, the column offsets 1, -1, 2,
    -2 are tried in this order and the first one the board accepts is
    committed, rotation index and anchor column together, with result
    true; when the board refuses all five positions the result is false
    and the state is the old one. *)
Theorem rotate_piece_spec (s : Game.t) (p : Piece.t) (clockwise : bool) :
  wf_grid (Game.board s) -> Game.current_piece s = Some p ->
  let new_rotation := if clockwise then Piece.rotate_cw p else Piece.rotate_ccw p in
  Game.rotate_piece clockwise s =
    Done (if valid_at (Game.board s) p new_rotation 0
          then (true, Game.set_current_piece
                        (Some (Piece.mk (Piece.type p) new_rotation
                                 (Piece.row p) (Piece.col p))) s)
          else
            match find (valid_at (Game.board s) p new_rotation) [1; -1; 2; -2] with
            | Some offset =>
                (true, Game.set_current_piece
                         (Some (Piece.mk (Piece.type p) new_rotation
                                  (Piece.row p) (Piece.col p + offset))) s)
            | None => (false, s)
            end).
Proof. exact (rotate_piece_result s p clockwise). Qed.

(** ** Falling: the hard drop and the ghost *)

Lemma valid_cells_are_above_floor (g : Board.t) (offsets : list Coord) (r c : Z) :
  length offsets = 4%nat ->
  Forall (fun d : Coord => 0 <= fst d /\ 0 <= snd d) offsets ->
  forallb (cell_okb g) (map (fun '(dr, dc) => (r + dr, c + dc)) offsets) = true ->
  r < BOARD_HEIGHT.
Proof.
  intros Hlen Hpos Hok.
  destruct offsets as [|[dr dc] rest]; [discriminate|].
  inversion Hpos as [|? ? [Hdr _] _]; subst. simpl in Hdr.
  simpl in Hok. apply andb_true_iff in Hok. destruct Hok as [Hok _].
  rewrite !andb_true_iff in Hok. destruct Hok as [[_ Hrow] _].
  apply Z.ltb_lt in Hrow. lia.
Qed.

(** Started on the same piece at the same row, the loop of [hard_drop]
    and the loop of [get_ghost_position] stop at the same row. *)
Lemma fall_loops_agree (fuel : nat) :
  forall (s : Game.t) (p : Piece.t) (r k : Z),
    wf_grid (Game.board s) -> valid_rotation p ->
    Game.current_piece s =
      Some (placed p r (Piece.col p) (Piece.rotation_index p)) ->
    (Z.to_nat (BOARD_HEIGHT - r) < fuel)%nat ->
    exists r',
      r <= r' /\
      Game.ghost_loop fuel (Game.board s) p r = Done r' /\
      Game.hard_drop_loop fuel k s =
        Done (k + (r' - r),
              Game.set_current_piece
                (Some (placed p r' (Piece.col p) (Piece.rotation_index p))) s).
Proof.
  induction fuel as [|fuel IH]; intros s p r k Hwf Hrot Hcur Hfuel; [lia|].
  set (q := placed p r (Piece.col p) (Piece.rotation_index p)) in *.
  destruct (get_cells_at_valid p (r + 1) (Piece.col p) (Piece.rotation_index p) Hrot)
    as (offs & _ & Hlen & Hpos & Hcells).
  destruct (move_piece_some s q 1 0 Hwf Hcur Hrot) as (cells & Hc & _ & Hmove).
  assert (Ecells : cells = map (fun '(dr, dc) => (r + 1 + dr, Piece.col p + dc)) offs).
  { subst q. unfold placed in Hc. cbn [Piece.row Piece.col Piece.rotation_index] in Hc.
    rewrite Z.add_0_r in Hc.
    unfold Piece.get_cells_at, Piece.rotations in Hc, Hcells.
    cbn [Piece.type] in Hc. congruence. }
  cbn [Game.ghost_loop Game.hard_drop_loop]. unfold Game.bind at 1.
  rewrite Hmove, Hcells. simpl obind.
  rewrite is_valid_position_forallb by assumption. simpl obind.
  rewrite <- Ecells.
  destruct (forallb (cell_okb (Game.board s)) cells) eqn:Hok.
  - assert (Hfloor : r + 1 < BOARD_HEIGHT).
    { rewrite Ecells in Hok.
      exact (valid_cells_are_above_floor _ _ _ _ Hlen Hpos Hok). }
    subst q. unfold placed at 1 2 3. cbn [Piece.row Piece.col Piece.rotation_index Piece.type].
    rewrite Z.add_0_r.
    set (s1 := Game.set_current_piece
                 (Some (placed p (r + 1) (Piece.col p) (Piece.rotation_index p))) s).
    destruct (IH s1 p (r + 1) (k + 1)) as (r' & Hle & Hghost & Hdrop);
      [exact Hwf|exact Hrot|reflexivity|lia|].
    exists r'. split; [lia|]. split; [exact Hghost|].
    transitivity (Game.hard_drop_loop fuel (k + 1) s1); [reflexivity|].
    rewrite Hdrop. f_equal. f_equal. lia.
  - exists r. split; [lia|]. split; [reflexivity|].
    munfold. rewrite Z.sub_diag, Z.add_0_r. fold q.
    rewrite <- Hcur, set_current_piece_same. reflexivity.
Qed.

Lemma placed_same (p : Piece.t) :
  placed p (Piece.row p) (Piece.col p) (Piece.rotation_index p) = p.
Proof. destruct p; reflexivity. Qed.

(** A result of the ghost loop does not depend on the iterations it
    was allowed beyond those it used. *)
Lemma ghost_loop_more_fuel (fuel : nat) :
  forall (fuel' : nat) (g : Board.t) (p : Piece.t) (r r' : Z),
    (fuel <= fuel')%nat ->
    Game.ghost_loop fuel g p r = Done r' ->
    Game.ghost_loop fuel' g p r = Done r'.
Proof.
  induction fuel as [|fuel IH]; intros fuel' g p r r' Hle H; [discriminate|].
  destruct fuel' as [|fuel']; [lia|].
  cbn [Game.ghost_loop] in *.
  destruct (Piece.get_cells_at p (r + 1) (Piece.col p) (Piece.rotation_index p))
    as [cells| |]; simpl obind in *; try discriminate.
  destruct (Board.is_valid_position g cells) as [[|]| |]; simpl obind in *;
    try discriminate; [|exact H].
  apply (IH fuel'); [lia|exact H].
Qed.

Section Falling.
Variable random_shuffle : nat -> list Tetromino -> list Tetromino.
Variable get_ticks : nat -> Z.

Lemma hard_drop_result (s : Game.t) (p : Piece.t) :
  wf_grid (Game.board s) -> Game.current_piece s = Some p -> valid_rotation p ->
  exists (n : Z) (landed : Piece.t) (cells : list Coord),
    0 <= n /\
    landed = Piece.mk (Piece.type p) (Piece.rotation_index p)
               (Piece.row p + n) (Piece.col p) /\
    (forall fuel, (Game.fall_fuel p <= fuel)%nat ->
       Game.hard_drop_loop fuel 0 s =
         Done (n, Game.set_current_piece (Some landed) s)) /\
    Game.get_ghost_position s = Done cells /\
    Piece.get_cells landed = Done cells /\
    Game.hard_drop random_shuffle get_ticks s =
      Game.lock_piece random_shuffle get_ticks
        (Game.set_score (Game.score s + n * 2)
           (Game.set_current_piece (Some landed) s)).
Proof.
  intros Hwf Hcur Hrot.
  assert (Hcur' : Game.current_piece s =
                    Some (placed p (Piece.row p) (Piece.col p) (Piece.rotation_index p)))
    by now rewrite placed_same.
  destruct (fall_loops_agree (Game.fall_fuel p) s p (Piece.row p) 0 Hwf Hrot Hcur')
    as (r' & Hle & Hghost & Hdrop); [unfold Game.fall_fuel; lia|].
  set (landed := placed p r' (Piece.col p) (Piece.rotation_index p)) in *.
  destruct (get_cells_at_valid p r' (Piece.col p) (Piece.rotation_index p) Hrot)
    as (offs & _ & _ & _ & Hcells).
  exists (r' - Piece.row p), landed. eexists.
  split; [lia|].
  split; [unfold landed, placed; f_equal; lia|].
  split.
  { intros fuel Hfuel.
    destruct (fall_loops_agree fuel s p (Piece.row p) 0 Hwf Hrot Hcur')
      as (r2 & _ & Hghost2 & Hdrop2); [unfold Game.fall_fuel in Hfuel; lia|].
    rewrite (ghost_loop_more_fuel _ fuel _ _ _ _ Hfuel Hghost) in Hghost2.
    injection Hghost2 as <-. exact Hdrop2. }
  split.
  { unfold Game.get_ghost_position. rewrite Hcur, Hghost. exact Hcells. }
  split.
  { unfold Piece.get_cells, landed, placed.
    cbn [Piece.row Piece.col Piece.rotation_index].
    unfold Piece.get_cells_at, Piece.rotations in *. exact Hcells. }
  unfold Game.hard_drop. unfold Game.bind at 1. unfold Game.gets at 1.
  rewrite Hcur. unfold Game.bind at 1. rewrite Hdrop. reflexivity.
Qed.

(** C9 -- [hard_drop] lowers the piece by some number [n] of rows,
    column and rotation index as they were, down to the position
    whose cells [get_ghost_position] returns on the state before the
    drop; the piece is locked there ([hard_drop] is [lock_piece] run
    on the state with the lowered piece and [2 * n] more points).
    Allowing the loop more iterations gives the same result. *)
Theorem hard_drop_lands_on_ghost (s : Game.t) (p : Piece.t) :
  wf_grid (Game.board s) -> Game.current_piece s = Some p -> valid_rotation p ->
  exists (n : Z) (landed : Piece.t) (cells : list Coord),
    0 <= n /\
    landed = Piece.mk (Piece.type p) (Piece.rotation_index p)
               (Piece.row p + n) (Piece.col p) /\
    (forall fuel, (Game.fall_fuel p <= fuel)%nat ->
       Game.hard_drop_loop fuel 0 s =
         Done (n, Game.set_current_piece (Some landed) s)) /\
    Game.get_ghost_position s = Done cells /\
    Piece.get_cells landed = Done cells /\
    Game.hard_drop random_shuffle get_ticks s =
      Game.lock_piece random_shuffle get_ticks
        (Game.set_score (Game.score s + n * 2)
           (Game.set_current_piece (Some landed) s)).
Proof. exact (hard_drop_result s p). Qed.
End Falling.

(** ** Game over *)

Section GameOver.
Variable random_shuffle : nat -> list Tetromino -> list Tetromino.
Variable get_ticks : nat -> Z.

Lemma update_game_over (s : Game.t) :
  Game.game_over s = true ->
  Game.update random_shuffle get_ticks s = Done (tt, s).
Proof.
  intros Hover. unfold Game.update. munfold. now rewrite Hover.
Qed.

Lemma handle_input_game_over (s : Game.t) (event : Event) :
  Game.game_over s = true ->
  restarts_or_quits (Input event) = false ->
  Game.handle_input random_shuffle get_ticks event s = Done (tt, s).
Proof.
  intros Hover Hev. destruct event as [key|]; [|reflexivity].
  destruct key; try discriminate;
    unfold Game.handle_input; munfold; now rewrite Hover.
Qed.

Lemma run_commands_game_over (cmds : list Command) (s : Game.t) :
  Game.game_over s = true ->
  Forall (fun c => restarts_or_quits c = false) cmds ->
  run_commands random_shuffle get_ticks cmds s = Done (tt, s).
Proof.
  intros Hover Hcmds. induction Hcmds as [|c cmds Hc _ IH]; [reflexivity|].
  destruct c as [|event]; simpl; unfold Game.bind.
  - now rewrite update_game_over.
  - now rewrite handle_input_game_over.
Qed.

(** C2 -- Once [game_over] is set, [update] (the tick) and the move
    keys given to [handle_input] leave the whole state as it is, and
    so does any sequence of ticks and events in which the restart
    key R (and the quit key) does not occur. *)
Theorem game_over_freezes (s : Game.t) (cmds : list Command) :
  Game.game_over s = true ->
  Forall (fun c => restarts_or_quits c = false) cmds ->
  Game.update random_shuffle get_ticks s = Done (tt, s) /\
  Game.handle_input random_shuffle get_ticks (KEYDOWN K_LEFT) s = Done (tt, s) /\
  Game.handle_input random_shuffle get_ticks (KEYDOWN K_RIGHT) s = Done (tt, s) /\
  Game.handle_input random_shuffle get_ticks (KEYDOWN K_DOWN) s = Done (tt, s) /\
  run_commands random_shuffle get_ticks cmds s = Done (tt, s).
Proof.
  intros Hover Hcmds.
  split; [now apply update_game_over|].
  repeat (split; [now apply handle_input_game_over|]).
  now apply run_commands_game_over.
Qed.
End GameOver.

(** ** The bag *)

Lemma py_pop_snoc {A : Type} (l : list A) (a : A) : py_pop (l ++ [a]) = Done (a, l).
Proof. unfold py_pop. rewrite rev_app_distr. simpl. now rewrite rev_involutive. Qed.

Lemma set_piece_bag_same (s : Game.t) :
  Game.set_piece_bag (Game.piece_bag s) s = s.
Proof. destruct s; reflexivity. Qed.

Section Bag.
Variable random_shuffle : nat -> list Tetromino -> list Tetromino.
Hypothesis shuffle_ok : shuffles_permute random_shuffle.

Lemma get_next_piece_type_pop (s : Game.t) (bag : list Tetromino) (x : Tetromino) :
  Game.piece_bag s = bag ++ [x] ->
  Game.get_next_piece_type random_shuffle s = Done (x, Game.set_piece_bag bag s).
Proof.
  intros Hbag. unfold Game.get_next_piece_type. munfold. rewrite Hbag.
  destruct (bag ++ [x]) as [|y rest] eqn:E; [now destruct bag|].
  rewrite Hbag, <- E, py_pop_snoc. reflexivity.
Qed.

Lemma shuffled_keys_nonempty (n : nat) :
  exists bag x, random_shuffle n TETROMINOES_keys = bag ++ [x].
Proof.
  pose proof (Permutation_length (shuffle_ok n TETROMINOES_keys)) as Hlen.
  destruct (random_shuffle n TETROMINOES_keys) as [|y l] using rev_ind;
    [discriminate|].
  eauto.
Qed.

Lemma get_next_piece_type_refill (s : Game.t) :
  Game.piece_bag s = [] ->
  Game.get_next_piece_type random_shuffle s =
    Game.get_next_piece_type random_shuffle (refilled random_shuffle s).
Proof.
  intros Hbag.
  destruct (shuffled_keys_nonempty (Game.shuffles s)) as (bag & x & E).
  rewrite (get_next_piece_type_pop (refilled random_shuffle s) bag x) by exact E.
  unfold Game.get_next_piece_type. munfold. rewrite Hbag.
  cbn [Game.piece_bag Game.set_piece_bag Game.set_shuffles Game.shuffles].
  rewrite E, py_pop_snoc. reflexivity.
Qed.

(** Whatever the state, the next type is there: the call raises
    nothing, and touches only the bag and the count of shuffles. *)
Lemma get_next_piece_type_total (s : Game.t) :
  exists x bag n,
    Game.get_next_piece_type random_shuffle s =
      Done (x, Game.set_piece_bag bag (Game.set_shuffles n s)).
Proof.
  destruct (Game.piece_bag s) as [|y l] eqn:Hbag using rev_ind.
  - rewrite get_next_piece_type_refill by assumption.
    destruct (shuffled_keys_nonempty (Game.shuffles s)) as (bag & x & E).
    rewrite (get_next_piece_type_pop (refilled random_shuffle s) bag x) by exact E.
    exists x, bag, (S (Game.shuffles s)). reflexivity.
  - rewrite (get_next_piece_type_pop s l y) by assumption.
    exists y, l, (Game.shuffles s). destruct s; reflexivity.
Qed.

(** Drawing as many types as the bag holds empties it, last one
    first. *)
Lemma draw_bag (bag : list Tetromino) :
  forall s : Game.t,
    Game.piece_bag s = bag ->
    draw random_shuffle (length bag) s = Done (rev bag, Game.set_piece_bag [] s).
Proof.
  induction bag as [|x bag IH] using rev_ind; intros s Hbag.
  - simpl. unfold Game.ret. rewrite <- Hbag, set_piece_bag_same. reflexivity.
  - rewrite length_app, Nat.add_1_r, rev_app_distr. simpl.
    unfold Game.bind at 1. rewrite (get_next_piece_type_pop s bag x Hbag).
    unfold Game.bind at 1. rewrite (IH (Game.set_piece_bag bag s)) by reflexivity.
    reflexivity.
Qed.

Lemma draw_refill (n : nat) (s : Game.t) :
  Game.piece_bag s = [] ->
  draw random_shuffle (S n) s = draw random_shuffle (S n) (refilled random_shuffle s).
Proof.
  intros Hbag. simpl. unfold Game.bind at 1 3.
  now rewrite get_next_piece_type_refill.
Qed.

(** One bag: seven calls from an empty bag. *)
Lemma draw_seven (s : Game.t) :
  Game.piece_bag s = [] ->
  exists l s',
    draw random_shuffle 7 s = Done (l, s') /\
    length l = 7%nat /\ Permutation l TETROMINOES_keys /\ Game.piece_bag s' = [].
Proof.
  intros Hbag.
  pose proof (shuffle_ok (Game.shuffles s) TETROMINOES_keys) as Hperm.
  pose proof (Permutation_length Hperm) as Hlen. simpl in Hlen.
  exists (rev (random_shuffle (Game.shuffles s) TETROMINOES_keys)),
    (Game.set_piece_bag [] (refilled random_shuffle s)).
  split.
  - rewrite draw_refill by assumption. rewrite <- Hlen. now apply draw_bag.
  - split; [now rewrite length_rev|]. split; [|reflexivity].
    eapply Permutation_trans; [|exact Hperm].
    symmetry. apply Permutation_rev.
Qed.

Lemma draw_add (a b : nat) (s : Game.t) :
  draw random_shuffle (a + b) s =
    Game.bind (draw random_shuffle a) (fun l1 =>
    Game.bind (draw random_shuffle b) (fun l2 =>
    Game.ret (l1 ++ l2))) s.
Proof.
  revert s. induction a as [|a IH]; intros s.
  - simpl. munfold. destruct (draw random_shuffle b s) as [[l s']| |]; reflexivity.
  - simpl. munfold.
    destruct (Game.get_next_piece_type random_shuffle s) as [[x s1]| |]; try reflexivity.
    rewrite IH. munfold.
    destruct (draw random_shuffle a s1) as [[l1 s2]| |]; try reflexivity.
    destruct (draw random_shuffle b s2) as [[l2 s3]| |]; reflexivity.
Qed.
End Bag.

Lemma firstn_length_app {A : Type} (a b : list A) : firstn (length a) (a ++ b) = a.
Proof. induction a as [|x a IH]; simpl; [now destruct b|now rewrite IH]. Qed.

Lemma skipn_length_add {A : Type} (a b : list A) (n : nat) :
  skipn (length a + n) (a ++ b) = skipn n b.
Proof. induction a as [|x a IH]; simpl; auto. Qed.

Lemma NoDup_TETROMINOES_keys : NoDup TETROMINOES_keys.
Proof.
  unfold TETROMINOES_keys.
  repeat (constructor; [simpl; intuition discriminate|]). constructor.
Qed.

Lemma window7_first (c l : list Tetromino) :
  length c = 7%nat -> window7 0 (c ++ l) = c.
Proof.
  intros Hc. unfold window7. rewrite Nat.mul_0_r. simpl skipn.
  rewrite <- Hc. apply firstn_length_app.
Qed.

Lemma window7_next (c l : list Tetromino) (i : nat) :
  length c = 7%nat -> window7 (S i) (c ++ l) = window7 i l.
Proof.
  intros Hc. unfold window7.
  replace (7 * S i)%nat with (length c + 7 * i)%nat by lia.
  now rewrite skipn_length_add.
Qed.

(** C7 -- Started when the bag is empty (at a refill), any number [k]
    of bags of [get_next_piece_type] calls raises nothing, and each of
    the [k] windows of 7 consecutive results is a permutation of the
    seven types, with no type twice. *)
Theorem bag_windows_are_permutations
  (random_shuffle : nat -> list Tetromino -> list Tetromino) (k : nat) (s : Game.t) :
  shuffles_permute random_shuffle ->
  Game.piece_bag s = [] ->
  exists l s',
    draw random_shuffle (7 * k) s = Done (l, s') /\
    length l = (7 * k)%nat /\
    Game.piece_bag s' = [] /\
    forall i, (i < k)%nat ->
      Permutation (window7 i l) TETROMINOES_keys /\ NoDup (window7 i l).
Proof.
  intros Hsh. revert s. induction k as [|k IH]; intros s Hbag.
  - exists [], s. split; [reflexivity|]. split; [reflexivity|].
    split; [exact Hbag|]. intros i Hi. lia.
  - destruct (draw_seven random_shuffle Hsh s Hbag) as (c & s1 & Hc & Hlen & Hperm & Hbag1).
    destruct (IH s1 Hbag1) as (l & s' & Hl & Hlenl & Hbag' & Hwin).
    exists (c ++ l), s'.
    split.
    { replace (7 * S k)%nat with (7 + 7 * k)%nat by lia.
      rewrite draw_add. unfold Game.bind at 1. rewrite Hc.
      unfold Game.bind at 1. rewrite Hl. reflexivity. }
    split; [rewrite length_app; lia|].
    split; [exact Hbag'|].
    intros [|i] Hi.
    + rewrite window7_first by assumption. split; [exact Hperm|].
      apply (Permutation_NoDup (Permutation_sym Hperm)), NoDup_TETROMINOES_keys.
    + rewrite window7_next by assumption. apply Hwin. lia.
Qed.

(** ** Locking the current piece: score and level *)

Ltac game_fields :=
  cbn [Game.board Game.current_piece Game.next_piece Game.score Game.level
       Game.lines_cleared Game.game_over Game.paused Game.last_fall_time
       Game.fall_speed Game.piece_bag Game.shuffles Game.tick_reads
       Game.set_board Game.set_current_piece Game.set_next_piece Game.set_score
       Game.set_level Game.set_lines_cleared Game.set_game_over Game.set_paused
       Game.set_last_fall_time Game.set_fall_speed Game.set_piece_bag
       Game.set_shuffles Game.set_tick_reads].

Ltac game_fields_in H :=
  cbn [Game.board Game.current_piece Game.next_piece Game.score Game.level
       Game.lines_cleared Game.game_over Game.paused Game.last_fall_time
       Game.fall_speed Game.piece_bag Game.shuffles Game.tick_reads
       Game.set_board Game.set_current_piece Game.set_next_piece Game.set_score
       Game.set_level Game.set_lines_cleared Game.set_game_over Game.set_paused
       Game.set_last_fall_time Game.set_fall_speed Game.set_piece_bag
       Game.set_shuffles Game.set_tick_reads] in H.

Section Locking.
Variable random_shuffle : nat -> list Tetromino -> list Tetromino.
Variable get_ticks : nat -> Z.
Hypothesis shuffle_ok : shuffles_permute random_shuffle.

Lemma valid_rotation_init (ty : Tetromino) : valid_rotation (Piece.init ty).
Proof. unfold valid_rotation. simpl. lia. Qed.

(** Installing piece [p] as the current one, drawing the next type
    and checking the spawn position: the end of [spawn_piece]. *)
Lemma spawn_piece_install (s : Game.t) (p : Piece.t) :
  wf_grid (Game.board s) -> valid_rotation p ->
  exists b s',
    Game.bind (Game.modify (Game.set_current_piece (Some p))) (fun _ =>
    Game.bind (Game.get_next_piece_type random_shuffle) (fun piece_type =>
    Game.bind (Game.modify (Game.set_next_piece (Some (Piece.init piece_type)))) (fun _ =>
    Game.bind (Game.lift (Piece.get_cells p)) (fun cells =>
    Game.bind (Game.gets Game.board) (fun grid =>
    Game.bind (Game.lift (Board.is_valid_position grid cells)) (fun v =>
    if negb v then
      Game.bind (Game.modify (Game.set_game_over true)) (fun _ => Game.ret false)
    else
      Game.bind (Game.pygame_time_get_ticks get_ticks) (fun now =>
      Game.bind (Game.modify (Game.set_last_fall_time now)) (fun _ =>
      Game.ret true)))))))) s = Done (b, s') /\
    wf_game s' /\
    Game.score s' = Game.score s /\ Game.level s' = Game.level s /\
    Game.lines_cleared s' = Game.lines_cleared s /\
    Game.fall_speed s' = Game.fall_speed s.
Proof.
  intros Hwf Hrot.
  destruct (get_next_piece_type_total random_shuffle shuffle_ok
              (Game.set_current_piece (Some p) s)) as (x & bag & n & Hnext).
  destruct (get_cells_at_valid p (Piece.row p) (Piece.col p)
              (Piece.rotation_index p) Hrot) as (offs & _ & _ & _ & Hcells).
  fold (Piece.get_cells p) in Hcells.
  unfold Game.bind at 1. unfold Game.modify at 1.
  unfold Game.bind at 1. rewrite Hnext.
  unfold Game.pygame_time_get_ticks. munfold. rewrite Hcells.
  game_fields. rewrite is_valid_position_forallb by assumption.
  destruct (forallb _ _); simpl negb; cbv iota;
    (eexists; eexists; split; [reflexivity|]; split;
     [split; [exact Hwf|];
      split; intros q Hq; injection Hq as <-;
      [exact Hrot|apply valid_rotation_init]
     |game_fields; auto]).
Qed.

Lemma spawn_piece_total (s : Game.t) :
  wf_grid (Game.board s) ->
  (forall p, Game.next_piece s = Some p -> valid_rotation p) ->
  exists b s',
    Game.spawn_piece random_shuffle get_ticks s = Done (b, s') /\
    wf_game s' /\
    Game.score s' = Game.score s /\ Game.level s' = Game.level s /\
    Game.lines_cleared s' = Game.lines_cleared s /\
    Game.fall_speed s' = Game.fall_speed s.
Proof.
  intros Hwf Hnext. unfold Game.spawn_piece.
  unfold Game.bind at 1. unfold Game.gets at 1.
  destruct (Game.next_piece s) as [p|] eqn:E.
  - unfold Game.bind at 1. unfold Game.ret at 1.
    apply spawn_piece_install; auto.
  - unfold Game.bind at 1. unfold Game.bind at 1.
    destruct (get_next_piece_type_total random_shuffle shuffle_ok s)
      as (x & bag & n & Hx).
    rewrite Hx. unfold Game.bind at 1. unfold Game.modify at 1.
    unfold Game.ret at 1.
    match goal with
    | |- exists b s', Game.bind _ _ ?s1 = _ /\ _ =>
        destruct (spawn_piece_install s1 (Piece.init x)) as (b & s' & Hrun & H)
    end; [exact Hwf|apply valid_rotation_init|].
    exists b, s'. split; [exact Hrun|exact H].
Qed.

(** [lock_piece] on a state with a current piece: what it does to the
    board, to the three counters and to the fall interval. *)
Lemma lock_piece_total (s : Game.t) (p : Piece.t) :
  wf_game s -> Game.current_piece s = Some p ->
  exists (g1 g2 : Board.t) (n : Z) (s' : Game.t),
    Board.lock_piece (Game.board s) p = Done g1 /\
    Board.clear_lines g1 = Done (n, g2) /\
    0 <= n /\
    Game.lock_piece random_shuffle get_ticks s = Done (tt, s') /\
    wf_game s' /\
    (1 <= n ->
     Game.score s' = Game.score s + Game.scores_get n * Game.level s /\
     Game.lines_cleared s' = Game.lines_cleared s + n /\
     Game.level s' = (Game.lines_cleared s + n) / 10 + 1 /\
     Game.fall_speed s' = Z.max 100 (FALL_SPEED - (Game.level s' - 1) * 50)) /\
    (n = 0 ->
     Game.score s' = Game.score s /\
     Game.lines_cleared s' = Game.lines_cleared s /\
     Game.level s' = Game.level s).
Proof.
  intros (Hwf & Hcurv & Hnextv) Hcur.
  destruct (lock_piece_result (Game.board s) p Hwf (Hcurv p Hcur))
    as (cells & g1 & _ & Hlock & Hwf1 & _).
  pose proof (clear_lines_result g1 (proj1 Hwf1)) as Hclear.
  pose proof (clear_lines_wf g1 Hwf1) as Hwf2.
  set (n := Z.of_nat (complete_rows g1)) in *.
  set (g2 := repeat Board.empty_row (complete_rows g1) ++ remaining_rows g1) in *.
  exists g1, g2, n.
  unfold Game.lock_piece. unfold Game.calculate_score. munfold.
  rewrite Hcur, Hlock, Hclear. game_fields.
  destruct (Z.gtb_spec n 0) as [Hn|Hn].
  - match goal with
    | |- context [Game.spawn_piece _ _ ?s3] =>
        destruct (spawn_piece_total s3)
          as (b & s' & Hrun & Hwf' & Hsc & Hlv & Hli & Hfs)
    end; [exact Hwf2|exact Hnextv|].
    rewrite Hrun. exists s'.
    split; [reflexivity|]. split; [reflexivity|]. split; [lia|].
    split; [reflexivity|]. split; [exact Hwf'|].
    rewrite Hsc, Hlv, Hli, Hfs. game_fields.
    split; [intros _; repeat split; reflexivity|intros E; lia].
  - match goal with
    | |- context [Game.spawn_piece _ _ ?s3] =>
        destruct (spawn_piece_total s3)
          as (b & s' & Hrun & Hwf' & Hsc & Hlv & Hli & Hfs)
    end; [exact Hwf2|exact Hnextv|].
    rewrite Hrun. exists s'.
    split; [reflexivity|]. split; [reflexivity|]. split; [lia|].
    split; [reflexivity|]. split; [exact Hwf'|].
    rewrite Hsc, Hlv, Hli. game_fields.
    split; [intros H1; lia|intros _; repeat split; reflexivity].
Qed.

(** C1 (amended) -- A lock that clears [n >= 1] lines adds
    [scores_get n * level] to the score, where [level] is the level
    the game has when the piece locks; the total of lines grows by
    [n] and the level becomes [total / 10 + 1] after the score is
    added, so a lock that brings a level-up is paid at the old
    level.  A lock that clears no line leaves the three counters as
    they are. *)
Theorem lock_piece_scores_at_current_level (s : Game.t) (p : Piece.t) :
  wf_game s -> Game.current_piece s = Some p ->
  exists (g1 g2 : Board.t) (n : Z) (s' : Game.t),
    Board.lock_piece (Game.board s) p = Done g1 /\
    Board.clear_lines g1 = Done (n, g2) /\
    0 <= n /\
    Game.lock_piece random_shuffle get_ticks s = Done (tt, s') /\
    (1 <= n ->
     Game.score s' = Game.score s + Game.scores_get n * Game.level s /\
     Game.lines_cleared s' = Game.lines_cleared s + n /\
     Game.level s' = (Game.lines_cleared s + n) / 10 + 1 /\
     Game.fall_speed s' = Z.max 100 (FALL_SPEED - (Game.level s' - 1) * 50)) /\
    (n = 0 ->
     Game.score s' = Game.score s /\
     Game.lines_cleared s' = Game.lines_cleared s /\
     Game.level s' = Game.level s).
Proof.
  intros Hwf Hcur.
  destruct (lock_piece_total s p Hwf Hcur)
    as (g1 & g2 & n & s' & H1 & H2 & H3 & H4 & _ & H5 & H6).
  exists g1, g2, n, s'. repeat (split; [assumption|]). assumption.
Qed.
End Locking.

(** ** The states the game can reach *)

Ltac munfold_in H :=
  unfold Game.bind, Game.gets, Game.modify, Game.ret, Game.lift, Game.raise in H.

Section Reachable.
Variable random_shuffle : nat -> list Tetromino -> list Tetromino.
Variable get_ticks : nat -> Z.
Hypothesis shuffle_ok : shuffles_permute random_shuffle.

Lemma reset_game_wf (s0 s : Game.t) :
  Game.reset_game random_shuffle get_ticks s0 = Done (tt, s) -> wf_game s.
Proof.
  unfold Game.reset_game, Game.pygame_time_get_ticks. munfold.
  match goal with
  | |- context [Game.spawn_piece _ _ ?s1] =>
      destruct (spawn_piece_total random_shuffle get_ticks shuffle_ok s1)
        as (b & s' & Hrun & Hwf & _)
  end; [apply wf_grid_init|discriminate|].
  rewrite Hrun. intros E. injection E as <-. exact Hwf.
Qed.

Lemma move_piece_wf (s s' : Game.t) (d_row d_col : Z) (b : bool) :
  wf_game s -> Game.move_piece d_row d_col s = Done (b, s') -> wf_game s'.
Proof.
  intros Hwf Hrun. pose proof Hwf as (Hg & Hc & Hn).
  destruct (Game.current_piece s) as [p|] eqn:Hcur.
  - destruct (move_piece_some s p d_row d_col Hg Hcur (Hc p eq_refl))
      as (cells & _ & _ & Hm).
    rewrite Hm in Hrun. injection Hrun as <- <-.
    destruct (forallb _ _); [|exact Hwf].
    split; [exact Hg|]. split; [|exact Hn].
    intros q Hq. injection Hq as <-. exact (Hc p eq_refl).
  - unfold Game.move_piece in Hrun. munfold_in Hrun. rewrite Hcur in Hrun.
    injection Hrun as <- <-. exact Hwf.
Qed.

Lemma rotate_piece_wf (s s' : Game.t) (clockwise b : bool) :
  wf_game s -> Game.rotate_piece clockwise s = Done (b, s') -> wf_game s'.
Proof.
  intros Hwf Hrun. pose proof Hwf as (Hg & Hc & Hn).
  destruct (Game.current_piece s) as [p|] eqn:Hcur.
  - rewrite (rotate_piece_result s p clockwise Hg Hcur) in Hrun.
    pose proof (rotation_target_range p clockwise) as Hrot.
    assert (Hnew : forall c,
               wf_game (Game.set_current_piece
                          (Some (Piece.mk (Piece.type p)
                                   (if clockwise then Piece.rotate_cw p
                                    else Piece.rotate_ccw p) (Piece.row p) c)) s)).
    { intros c. split; [exact Hg|]. split; [|exact Hn].
      intros q Hq. injection Hq as <-. exact Hrot. }
    destruct (valid_at _ _ _ 0).
    + injection Hrun as <- <-. apply Hnew.
    + destruct (find _ _); injection Hrun as <- <-; [apply Hnew|exact Hwf].
  - unfold Game.rotate_piece in Hrun. munfold_in Hrun. rewrite Hcur in Hrun.
    injection Hrun as <- <-. exact Hwf.
Qed.

Lemma lock_piece_wf (s s' : Game.t) :
  wf_game s -> Game.lock_piece random_shuffle get_ticks s = Done (tt, s') ->
  wf_game s'.
Proof.
  intros Hwf Hrun.
  destruct (Game.current_piece s) as [p|] eqn:Hcur.
  - destruct (lock_piece_total random_shuffle get_ticks shuffle_ok s p Hwf Hcur)
      as (g1 & g2 & n & s2 & _ & _ & _ & Hl & Hwf2 & _).
    rewrite Hl in Hrun. injection Hrun as <-. exact Hwf2.
  - unfold Game.lock_piece in Hrun. munfold_in Hrun. rewrite Hcur in Hrun.
    injection Hrun as <-. exact Hwf.
Qed.

Lemma hard_drop_wf (s s' : Game.t) :
  wf_game s -> Game.hard_drop random_shuffle get_ticks s = Done (tt, s') ->
  wf_game s'.
Proof.
  intros Hwf Hrun. pose proof Hwf as (Hg & Hc & Hn).
  destruct (Game.current_piece s) as [p|] eqn:Hcur.
  - destruct (hard_drop_result random_shuffle get_ticks s p Hg Hcur (Hc p eq_refl))
      as (n & landed & cells & _ & Hlanded & _ & _ & _ & Hd).
    rewrite Hd in Hrun. apply lock_piece_wf in Hrun; [exact Hrun|].
    split; [exact Hg|]. split; [|exact Hn].
    intros q Hq. injection Hq as <-. subst landed. exact (Hc p eq_refl).
  - unfold Game.hard_drop in Hrun. munfold_in Hrun. rewrite Hcur in Hrun.
    injection Hrun as <-. exact Hwf.
Qed.

Lemma update_wf (s s' : Game.t) :
  wf_game s -> Game.update random_shuffle get_ticks s = Done (tt, s') ->
  wf_game s'.
Proof.
  intros Hwf Hrun.
  unfold Game.update, Game.pygame_time_get_ticks in Hrun.
  unfold Game.bind at 1 2 in Hrun. unfold Game.gets at 1 2 in Hrun.
  destruct (Game.game_over s || Game.paused s).
  { injection Hrun as <-. exact Hwf. }
  unfold Game.bind at 1 2 3 in Hrun. unfold Game.gets at 1 in Hrun.
  unfold Game.modify at 1 in Hrun. unfold Game.ret at 1 in Hrun.
  unfold Game.bind at 1 2 in Hrun. unfold Game.gets at 1 2 in Hrun.
  set (s1 := Game.set_tick_reads (S (Game.tick_reads s)) s) in *.
  assert (Hwf1 : wf_game s1) by exact Hwf.
  destruct (_ >=? _).
  2:{ injection Hrun as <-. exact Hwf1. }
  unfold Game.bind at 1 2 in Hrun.
  destruct (Game.move_piece 1 0 s1) as [[moved s2]| |] eqn:Hmove; try discriminate.
  apply move_piece_wf in Hmove; [|exact Hwf1].
  destruct moved; cbn [negb] in Hrun; cbv beta iota in Hrun.
  - munfold_in Hrun. injection Hrun as <-. exact Hmove.
  - destruct (Game.lock_piece random_shuffle get_ticks s2) as [[[] s3]| |] eqn:Hlock;
      try discriminate.
    apply lock_piece_wf in Hlock; [|exact Hmove].
    munfold_in Hrun. injection Hrun as <-. exact Hlock.
Qed.

Lemma handle_input_wf (s s' : Game.t) (event : Event) :
  wf_game s ->
  Game.handle_input random_shuffle get_ticks event s = Done (tt, s') ->
  wf_game s'.
Proof.
  intros Hwf Hrun.
  destruct event as [key|]; [|injection Hrun as <-; exact Hwf].
  destruct key; try discriminate;
    unfold Game.handle_input in Hrun;
    unfold Game.bind at 1 in Hrun; unfold Game.gets at 1 in Hrun;
    (destruct (Game.game_over s);
     [first [ now apply reset_game_wf in Hrun
            | injection Hrun as <-; exact Hwf ] | ]).
  - (* K_r *)
    unfold Game.bind at 1 in Hrun. unfold Game.gets at 1 in Hrun.
    destruct (Game.paused s); injection Hrun as <-; exact Hwf.
  - (* K_p *)
    injection Hrun as <-. exact Hwf.
  - (* K_LEFT *)
    unfold Game.bind at 1 in Hrun. unfold Game.gets at 1 in Hrun.
    destruct (Game.paused s); [injection Hrun as <-; exact Hwf|].
    unfold Game.bind in Hrun.
    destruct (Game.move_piece 0 (-1) s) as [[b s2]| |] eqn:Hm; try discriminate.
    injection Hrun as <-. eapply move_piece_wf; eauto.
  - (* K_RIGHT *)
    unfold Game.bind at 1 in Hrun. unfold Game.gets at 1 in Hrun.
    destruct (Game.paused s); [injection Hrun as <-; exact Hwf|].
    unfold Game.bind in Hrun.
    destruct (Game.move_piece 0 1 s) as [[b s2]| |] eqn:Hm; try discriminate.
    injection Hrun as <-. eapply move_piece_wf; eauto.
  - (* K_DOWN *)
    unfold Game.bind at 1 in Hrun. unfold Game.gets at 1 in Hrun.
    destruct (Game.paused s); [injection Hrun as <-; exact Hwf|].
    unfold Game.bind at 1 in Hrun.
    destruct (Game.move_piece 1 0 s) as [[b s2]| |] eqn:Hm; try discriminate.
    apply move_piece_wf in Hm; [|exact Hwf].
    destruct b; unfold Game.pygame_time_get_ticks in Hrun; munfold_in Hrun;
      injection Hrun as <-; exact Hm.
  - (* K_UP *)
    unfold Game.bind at 1 in Hrun. unfold Game.gets at 1 in Hrun.
    destruct (Game.paused s); [injection Hrun as <-; exact Hwf|].
    unfold Game.bind in Hrun.
    destruct (Game.rotate_piece true s) as [[b s2]| |] eqn:Hm; try discriminate.
    injection Hrun as <-. eapply rotate_piece_wf; eauto.
  - (* K_SPACE *)
    unfold Game.bind at 1 in Hrun. unfold Game.gets at 1 in Hrun.
    destruct (Game.paused s); [injection Hrun as <-; exact Hwf|].
    now apply hard_drop_wf in Hrun.
  - (* any other key *)
    unfold Game.bind at 1 in Hrun. unfold Game.gets at 1 in Hrun.
    destruct (Game.paused s); injection Hrun as <-; exact Hwf.
Qed.

(** Every state the game reaches has a 20 x 10 board and pieces with
    one of the four rotation indices: the hypotheses of the theorems on
    [Game] hold all along a game. *)
Lemma reachable_wf (s : Game.t) :
  reachable random_shuffle get_ticks s -> wf_game s.
Proof.
  induction 1 as [s0 s Hreset|s s' _ IH Hupd|s s' event _ IH Hin].
  - eapply reset_game_wf; eauto.
  - eapply update_wf; eauto.
  - eapply handle_input_wf; eauto.
Qed.
End Reachable.


(** ** The theorems on the sample states *)

Ltac sample_grid := split; [reflexivity | repeat constructor].

Ltac sample_game_wf :=
  split; [sample_grid |
          split; intros q Hq; injection Hq as <-; unfold valid_rotation; simpl; lia].

Lemma sample_shuffle_permutes : shuffles_permute sample_shuffle.
Proof. intros n l. symmetry. apply Permutation_rev. Qed.

(** As C1 is stated, the reward would use the level after the lock.
    On [sample_game] the lock clears one line, the tenth, and the level
    goes from 1 to 2; the score grows by 100, not by 200. *)
Lemma lock_piece_level_up_counterexample :
  exists (g1 g2 : Board.t) (s' : Game.t),
    Board.lock_piece (Game.board sample_game) sample_gap_piece = Done g1 /\
    Board.clear_lines g1 = Done (1, g2) /\
    Game.lock_piece sample_shuffle sample_ticks sample_game = Done (tt, s') /\
    Game.level s' = (Game.lines_cleared sample_game + 1) / 10 + 1 /\
    Game.level s' = 2 /\
    Game.score s' = Game.score sample_game + 100 /\
    Game.score s' <> Game.score sample_game + Game.scores_get 1 * Game.level s'.
Proof.
  eexists. eexists. eexists.
  split; [vm_compute; reflexivity|].
  split; [vm_compute; reflexivity|].
  split; [vm_compute; reflexivity|].
  split; [reflexivity|]. split; [reflexivity|]. split; [reflexivity|].
  vm_compute. discriminate.
Qed.

Lemma lock_piece_scores_at_current_level_witness :
  shuffles_permute sample_shuffle /\ wf_game sample_game /\
  Game.current_piece sample_game = Some sample_gap_piece /\
  exists (g1 g2 : Board.t) (n : Z) (s' : Game.t),
    Board.lock_piece (Game.board sample_game) sample_gap_piece = Done g1 /\
    Board.clear_lines g1 = Done (n, g2) /\
    0 <= n /\
    Game.lock_piece sample_shuffle sample_ticks sample_game = Done (tt, s') /\
    (1 <= n ->
     Game.score s' = Game.score sample_game + Game.scores_get n * Game.level sample_game /\
     Game.lines_cleared s' = Game.lines_cleared sample_game + n /\
     Game.level s' = (Game.lines_cleared sample_game + n) / 10 + 1 /\
     Game.fall_speed s' = Z.max 100 (FALL_SPEED - (Game.level s' - 1) * 50)) /\
    (n = 0 ->
     Game.score s' = Game.score sample_game /\
     Game.lines_cleared s' = Game.lines_cleared sample_game /\
     Game.level s' = Game.level sample_game).
Proof.
  split; [exact sample_shuffle_permutes|].
  split; [sample_game_wf|].
  split; [reflexivity|].
  apply (lock_piece_scores_at_current_level sample_shuffle sample_ticks
           sample_shuffle_permutes sample_game sample_gap_piece);
    [sample_game_wf|reflexivity].
Defined.

Lemma game_over_freezes_witness :
  Game.game_over sample_over = true /\
  Forall (fun c => restarts_or_quits c = false) sample_commands /\
  Game.update sample_shuffle sample_ticks sample_over = Done (tt, sample_over) /\
  Game.handle_input sample_shuffle sample_ticks (KEYDOWN K_LEFT) sample_over =
    Done (tt, sample_over) /\
  Game.handle_input sample_shuffle sample_ticks (KEYDOWN K_RIGHT) sample_over =
    Done (tt, sample_over) /\
  Game.handle_input sample_shuffle sample_ticks (KEYDOWN K_DOWN) sample_over =
    Done (tt, sample_over) /\
  run_commands sample_shuffle sample_ticks sample_commands sample_over =
    Done (tt, sample_over).
Proof.
  split; [reflexivity|].
  split; [repeat constructor|].
  apply (game_over_freezes sample_shuffle sample_ticks sample_over sample_commands);
    [reflexivity|repeat constructor].
Defined.

Lemma cell_at_init (r c : Z) :
  in_board r c = true -> cell_at Board.init r c = Some None.
Proof.
  intros H. unfold in_board in H.
  rewrite !andb_true_iff, !Z.leb_le, !Z.ltb_lt in H.
  destruct (wf_grid_cell Board.init r c wf_grid_init) as (rw & x & Hnth & _ & _ & Hget & ->);
    [lia|lia|].
  apply nth_error_In in Hnth. apply repeat_spec in Hnth. subst rw.
  destruct (py_get_in_range Board.empty_row c) as (y & Hy & Hget');
    [unfold Board.empty_row; rewrite repeat_length; lia|].
  apply nth_error_In in Hy. apply repeat_spec in Hy.
  rewrite Hget' in Hget. injection Hget as <-. now rewrite Hy.
Qed.

Lemma clear_lines_spec_witness :
  wf_grid sample_stack /\
  (exists (n : nat) (kept : Board.t),
     Board.clear_lines sample_stack =
       Done (Z.of_nat n, repeat (repeat None 10) n ++ kept) /\
     without_full_rows sample_stack kept n) /\
  Board.clear_lines sample_stack = Done (2, sample_board) /\
  wf_grid Board.init /\
  (forall r c, in_board r c = true -> cell_at Board.init r c = Some None) /\
  Board.clear_lines Board.init = Done (0, Board.init).
Proof.
  split; [sample_grid|].
  split; [apply (clear_lines_spec sample_stack); sample_grid|].
  split; [vm_compute; reflexivity|].
  split; [sample_grid|].
  split; [exact cell_at_init|].
  apply (clear_lines_spec Board.init); [sample_grid|exact cell_at_init].
Defined.

Lemma rotate_piece_spec_witness :
  wf_grid (Game.board sample_at_wall) /\
  Game.current_piece sample_at_wall = Some sample_wall_piece /\
  Game.rotate_piece true sample_at_wall =
    Done (if valid_at (Game.board sample_at_wall) sample_wall_piece
               (Piece.rotate_cw sample_wall_piece) 0
          then (true, Game.set_current_piece
                        (Some (Piece.mk pI (Piece.rotate_cw sample_wall_piece) 5 (-2)))
                        sample_at_wall)
          else
            match find (valid_at (Game.board sample_at_wall) sample_wall_piece
                          (Piece.rotate_cw sample_wall_piece)) [1; -1; 2; -2] with
            | Some offset =>
                (true, Game.set_current_piece
                         (Some (Piece.mk pI (Piece.rotate_cw sample_wall_piece) 5
                                  (-2 + offset))) sample_at_wall)
            | None => (false, sample_at_wall)
            end).
Proof.
  split; [sample_grid|].
  split; [reflexivity|].
  apply (rotate_piece_spec sample_at_wall sample_wall_piece true);
    [sample_grid|reflexivity].
Defined.

Lemma is_valid_position_spec_witness :
  wf_grid sample_board /\
  exists b : bool,
    Board.is_valid_position sample_board [(-1, 4); (0, 4); (19, 6)] = Done b /\
    (b = true <-> Forall (cell_ok sample_board) [(-1, 4); (0, 4); (19, 6)]).
Proof.
  split; [sample_grid|].
  apply (is_valid_position_spec sample_board [(-1, 4); (0, 4); (19, 6)]). sample_grid.
Defined.

Lemma lock_piece_writes_visible_cells_witness :
  wf_grid sample_board /\ valid_rotation (Piece.mk pT 2 (-2) 8) /\
  exists cells g',
    Piece.get_cells (Piece.mk pT 2 (-2) 8) = Done cells /\
    Board.lock_piece sample_board (Piece.mk pT 2 (-2) 8) = Done g' /\
    wf_grid g' /\
    forall r c,
      (In (r, c) cells -> in_board r c = true -> cell_at g' r c = Some (Some pT)) /\
      (~ (In (r, c) cells /\ in_board r c = true) ->
       cell_at g' r c = cell_at sample_board r c).
Proof.
  split; [sample_grid|].
  split; [unfold valid_rotation; simpl; lia|].
  apply (lock_piece_writes_visible_cells sample_board (Piece.mk pT 2 (-2) 8));
    [sample_grid|unfold valid_rotation; simpl; lia].
Defined.

Lemma bag_windows_are_permutations_witness :
  shuffles_permute sample_shuffle /\ Game.piece_bag sample_fresh = [] /\
  exists l s',
    draw sample_shuffle (7 * 3) sample_fresh = Done (l, s') /\
    length l = (7 * 3)%nat /\
    Game.piece_bag s' = [] /\
    forall i, (i < 3)%nat ->
      Permutation (window7 i l) TETROMINOES_keys /\ NoDup (window7 i l).
Proof.
  split; [exact sample_shuffle_permutes|].
  split; [reflexivity|].
  apply (bag_windows_are_permutations sample_shuffle 3 sample_fresh);
    [exact sample_shuffle_permutes|reflexivity].
Defined.

Lemma move_piece_spec_witness :
  wf_game sample_falling /\
  exists cells b,
    Piece.get_cells_at (Piece.init pT) (0 + 1) (3 + 0) 0 = Done cells /\
    Board.is_valid_position (Game.board sample_falling) cells = Done b /\
    Game.move_piece 1 0 sample_falling =
      Done (b, if b
               then Game.set_current_piece (Some (Piece.mk pT 0 (0 + 1) (3 + 0)))
                      sample_falling
               else sample_falling).
Proof.
  split; [sample_game_wf|].
  apply (move_piece_spec sample_falling 1 0). sample_game_wf.
Defined.

Lemma hard_drop_lands_on_ghost_witness :
  wf_grid (Game.board sample_falling) /\
  Game.current_piece sample_falling = Some (Piece.init pT) /\
  valid_rotation (Piece.init pT) /\
  exists (n : Z) (landed : Piece.t) (cells : list Coord),
    0 <= n /\
    landed = Piece.mk pT 0 (0 + n) 3 /\
    (forall fuel, (Game.fall_fuel (Piece.init pT) <= fuel)%nat ->
       Game.hard_drop_loop fuel 0 sample_falling =
         Done (n, Game.set_current_piece (Some landed) sample_falling)) /\
    Game.get_ghost_position sample_falling = Done cells /\
    Piece.get_cells landed = Done cells /\
    Game.hard_drop sample_shuffle sample_ticks sample_falling =
      Game.lock_piece sample_shuffle sample_ticks
        (Game.set_score (Game.score sample_falling + n * 2)
           (Game.set_current_piece (Some landed) sample_falling)).
Proof.
  split; [sample_grid|].
  split; [reflexivity|].
  split; [unfold valid_rotation; simpl; lia|].
  apply (hard_drop_lands_on_ghost sample_shuffle sample_ticks sample_falling
           (Piece.init pT));
    [sample_grid|reflexivity|unfold valid_rotation; simpl; lia].
Defined.

Lemma grid_shape_invariant_witness :
  Forall op_valid [OpLock sample_gap_piece; OpClear; OpLock (Piece.mk pT 2 (-2) 8)] /\
  wf_grid Board.init /\
  exists g',
    run_ops [OpLock sample_gap_piece; OpClear; OpLock (Piece.mk pT 2 (-2) 8)]
      Board.init = Done g' /\
    wf_grid g'.
Proof.
  assert (H : Forall op_valid
                [OpLock sample_gap_piece; OpClear; OpLock (Piece.mk pT 2 (-2) 8)]).
  { repeat constructor; simpl; lia. }
  split; [exact H|].
  apply (grid_shape_invariant _ H).
Defined.

(** ** Runs of the engine on the sample states *)

Example rotate_kicks_off_left_wall :
  Game.rotate_piece true sample_at_wall =
    Done (true, Game.set_current_piece (Some (Piece.mk pI 2 5 0)) sample_at_wall).
Proof. vm_compute. reflexivity. Qed.

Example rotate_blocked_changes_nothing :
  Game.rotate_piece true sample_blocked = Done (false, sample_blocked).
Proof. vm_compute. reflexivity. Qed.

Example ghost_of_sample_falling :
  Game.get_ghost_position sample_falling = Done [(17, 4); (18, 3); (18, 4); (18, 5)].
Proof. vm_compute. reflexivity. Qed.

Example hard_drop_awards_two_points_a_row :
  exists s',
    Game.hard_drop sample_shuffle sample_ticks sample_falling = Done (tt, s') /\
    Game.score s' = Game.score sample_falling + 2 * 17 /\
    cell_at (Game.board s') 17 4 = Some (Some pT).
Proof. eexists. split; [vm_compute; reflexivity|]. split; reflexivity. Qed.

Example lock_at_level_two :
  exists s',
    Game.lock_piece sample_shuffle sample_ticks
      (Game.set_level 2 (Game.set_lines_cleared 10 sample_game)) = Done (tt, s') /\
    Game.score s' = Game.score sample_game + 200.
Proof. eexists. split; [vm_compute; reflexivity|reflexivity]. Qed.

Example lock_outside_a_short_grid_raises :
  Board.lock_piece [] (Piece.init pT) = Raise IndexError.
Proof. reflexivity. Qed.

Example seven_bag_of_sample_world :
  exists s',
    draw sample_shuffle 7 sample_fresh = Done ([pI; pO; pT; pS; pZ; pJ; pL], s').
Proof. eexists. vm_compute. reflexivity. Qed.

(** * Further properties of the engine *)

(** ** The catalog and the rotation index *)

Lemma NoDup_map_injective {A B : Type} (f : A -> B) (l : list A) :
  (forall x y, f x = f y -> x = y) -> NoDup l -> NoDup (map f l).
Proof.
  intros Hinj Hl. induction Hl as [|a l Ha Hl IH]; simpl; constructor; auto.
  intros Hin. apply in_map_iff in Hin. destruct Hin as (y & E & Hy).
  apply Hinj in E. now subst.
Qed.

Lemma catalog_offsets (ty : Tetromino) (rotation : Z) :
  0 <= rotation < 4 ->
  exists offsets,
    py_get (TETROMINOES ty) rotation = Done offsets /\
    length offsets = 4%nat /\ NoDup offsets /\ Forall (in_box 0 0) offsets.
Proof.
  intros H.
  assert (E : rotation = 0 \/ rotation = 1 \/ rotation = 2 \/ rotation = 3) by lia.
  destruct E as [-> | [-> | [-> | ->]]]; destruct ty;
    (eexists; split; [reflexivity|]; split; [reflexivity|]; split;
     [repeat (constructor; [simpl; intuition discriminate|]); constructor
     |repeat constructor; simpl; lia]).
Qed.

(** X1 -- For each of the seven types and each of the four rotation
    states, [get_cells_at] returns four cells, all different, inside
    the 4 x 4 box whose top left corner is the anchor. *)
Theorem get_cells_at_four_distinct_cells (p : Piece.t) (r c rotation : Z) :
  0 <= rotation < 4 ->
  exists cells,
    Piece.get_cells_at p r c rotation = Done cells /\
    length cells = 4%nat /\ NoDup cells /\ Forall (in_box r c) cells.
Proof.
  intros H.
  destruct (catalog_offsets (Piece.type p) rotation H) as (offs & Hg & Hl & Hnd & Hbox).
  exists (map (fun '(dr, dc) => (r + dr, c + dc)) offs).
  split; [unfold Piece.get_cells_at, Piece.rotations; now rewrite Hg|].
  split; [now rewrite length_map|].
  split.
  - apply NoDup_map_injective; [|exact Hnd].
    intros [a b] [a' b'] E. injection E as E1 E2. f_equal; lia.
  - apply Forall_map. eapply Forall_impl; [|exact Hbox].
    intros [dr dc]. unfold in_box. simpl. lia.
Qed.

(** X2 -- The rotation index stays one of 0, 1, 2, 3 in both
    directions ([rotate_ccw] of index 0 is 3, not -1); turning back
    after turning gives the index one started from, and four clockwise
    turns come back to it. *)
Theorem rotation_index_arithmetic (p : Piece.t) :
  valid_rotation p ->
  0 <= Piece.rotate_cw p < 4 /\ 0 <= Piece.rotate_ccw p < 4 /\
  Piece.rotate_ccw (Piece.set_rotation_index (Piece.rotate_cw p) p) =
    Piece.rotation_index p /\
  Piece.rotate_cw (Piece.set_rotation_index (Piece.rotate_ccw p) p) =
    Piece.rotation_index p /\
  (Piece.rotation_index p = 0 -> Piece.rotate_ccw p = 3) /\
  Piece.rotate_cw
    (Piece.set_rotation_index
       (Piece.rotate_cw
          (Piece.set_rotation_index
             (Piece.rotate_cw (Piece.set_rotation_index (Piece.rotate_cw p) p)) p)) p) =
    Piece.rotation_index p.
Proof.
  unfold valid_rotation, Piece.rotate_cw, Piece.rotate_ccw. destruct p as [ty i r c].
  cbn [Piece.rotation_index Piece.set_rotation_index Piece.type Piece.row Piece.col].
  intros H.
  assert (E : i = 0 \/ i = 1 \/ i = 2 \/ i = 3) by lia.
  destruct E as [-> | [-> | [-> | ->]]]; repeat split; try reflexivity;
    try discriminate; intros; try discriminate; reflexivity.
Qed.

(** X3 -- The rotation passed to [get_cells_at] is a Python subscript
    of a list of four: outside [-4, 4) the call raises [IndexError], and
    a negative one counts from the end. *)
Theorem get_cells_at_subscript (p : Piece.t) (r c rotation : Z) :
  (rotation < -4 \/ 4 <= rotation ->
   Piece.get_cells_at p r c rotation = Raise IndexError) /\
  (-4 <= rotation < 0 ->
   Piece.get_cells_at p r c rotation = Piece.get_cells_at p r c (rotation + 4)).
Proof.
  assert (Hlen : length (Piece.rotations p) = 4%nat)
    by (unfold Piece.rotations; now destruct (Piece.type p)).
  unfold Piece.get_cells_at, py_get, py_index. rewrite Hlen. split.
  - intros H.
    replace ((0 <=? rotation) && (rotation <? Z.of_nat 4)) with false
      by (symmetry; apply andb_false_iff; rewrite Z.leb_gt, Z.ltb_ge; lia).
    replace ((- Z.of_nat 4 <=? rotation) && (rotation <? 0)) with false
      by (symmetry; apply andb_false_iff; rewrite Z.leb_gt, Z.ltb_ge; lia).
    reflexivity.
  - intros H.
    replace ((0 <=? rotation) && (rotation <? Z.of_nat 4)) with false
      by (symmetry; apply andb_false_iff; rewrite Z.leb_gt, Z.ltb_ge; lia).
    replace ((- Z.of_nat 4 <=? rotation) && (rotation <? 0)) with true
      by (symmetry; apply andb_true_iff; rewrite Z.leb_le, Z.ltb_lt; lia).
    replace ((0 <=? rotation + 4) && (rotation + 4 <? Z.of_nat 4)) with true
      by (symmetry; apply andb_true_iff; rewrite Z.leb_le, Z.ltb_lt; lia).
    replace (Z.of_nat 4 + rotation) with (rotation + 4) by lia. reflexivity.
Qed.

(** ** More on clearing lines *)

Lemma no_complete_row_remaining (g : Board.t) :
  complete_rows g = 0%nat -> remaining_rows g = g.
Proof.
  unfold complete_rows, remaining_rows, incomplete.
  induction g as [|r g IH]; simpl; [reflexivity|].
  destruct (Board.row_complete r); simpl; [discriminate|].
  intros H. now rewrite IH.
Qed.

Lemma complete_rows_of_remaining (g : Board.t) :
  complete_rows (remaining_rows g) = 0%nat.
Proof.
  unfold complete_rows, remaining_rows, incomplete.
  induction g as [|r g IH]; simpl; [reflexivity|].
  destruct (Board.row_complete r) eqn:E; simpl; [exact IH|].
  now rewrite E.
Qed.

Lemma complete_rows_of_empty_rows (n : nat) :
  complete_rows (repeat Board.empty_row n) = 0%nat.
Proof. induction n as [|n IH]; [reflexivity|exact IH]. Qed.

Lemma complete_rows_after_clear (g : Board.t) :
  complete_rows (repeat Board.empty_row (complete_rows g) ++ remaining_rows g) = 0%nat.
Proof.
  now rewrite complete_rows_app, complete_rows_of_empty_rows, complete_rows_of_remaining.
Qed.

(** X4 -- After [clear_lines] no row of the grid is full, so a second
    call returns 0 and leaves the grid as it is; and on a grid without a
    full row the first call already returns 0 and changes nothing. *)
Theorem clear_lines_settles (g : Board.t) :
  wf_grid g ->
  exists n g',
    Board.clear_lines g = Done (n, g') /\
    Forall (fun r => ~ full r) g' /\
    Board.clear_lines g' = Done (0, g') /\
    (Forall (fun r => ~ full r) g -> n = 0 /\ g' = g).
Proof.
  intros Hwf.
  pose proof (clear_lines_wf g Hwf) as Hwf'.
  pose proof (complete_rows_after_clear g) as Hnone.
  eexists. eexists. split; [apply clear_lines_result, Hwf|].
  split; [now apply no_complete_row_iff|]. split.
  - rewrite clear_lines_result by apply Hwf'.
    rewrite Hnone. rewrite (no_complete_row_remaining _ Hnone). reflexivity.
  - intros H0. apply no_complete_row_iff in H0.
    rewrite H0, (no_complete_row_remaining g H0). split; reflexivity.
Qed.

Lemma occupied_app (g1 g2 : Board.t) :
  occupied (g1 ++ g2) = (occupied g1 + occupied g2)%nat.
Proof. unfold occupied. now rewrite map_app, list_sum_app. Qed.

Lemma occupied_empty_rows (n : nat) : occupied (repeat Board.empty_row n) = 0%nat.
Proof. induction n as [|n IH]; [reflexivity|exact IH]. Qed.

Lemma occupied_complete_row (r : list Board.Cell) :
  Board.row_complete r = true -> occupied_in_row r = length r.
Proof.
  unfold Board.row_complete, occupied_in_row. intros H.
  induction r as [|x r IH]; simpl in *; [reflexivity|].
  apply andb_true_iff in H. destruct H as [Hx Hr]. rewrite Hx. simpl.
  now rewrite IH.
Qed.

Lemma occupied_partition (g : Board.t) :
  Forall (fun r => length r = Z.to_nat BOARD_WIDTH) g ->
  occupied g = (Z.to_nat BOARD_WIDTH * complete_rows g + occupied (remaining_rows g))%nat.
Proof.
  unfold occupied, complete_rows, remaining_rows, incomplete.
  generalize (Z.to_nat BOARD_WIDTH) as w. intros w.
  induction 1 as [|r g Hr Hg IH]; simpl; [lia|].
  destruct (Board.row_complete r) eqn:E; simpl; rewrite IH.
  - rewrite (occupied_complete_row r E), Hr. lia.
  - lia.
Qed.

Lemma clear_lines_occupied (g : Board.t) :
  wf_grid g ->
  exists n g',
    Board.clear_lines g = Done (n, g') /\
    0 <= n <= 20 /\
    Z.of_nat (occupied g) = Z.of_nat (occupied g') + 10 * n.
Proof.
  intros Hwf. pose proof Hwf as [Hlen Hrows].
  eexists. eexists. split; [apply clear_lines_result, Hwf|].
  pose proof (complete_rows_le g) as Hle.
  split; [rewrite Hlen in Hle; unfold BOARD_HEIGHT in *; lia|].
  rewrite occupied_app, occupied_empty_rows, (occupied_partition g Hrows).
  unfold BOARD_WIDTH. lia.
Qed.

(** X5 -- [clear_lines] removes ten occupied cells for each line it
    reports and no other: the number of occupied cells of the grid goes
    down by exactly 10 times the number returned. *)
Theorem clear_lines_removes_ten_cells_a_line (g : Board.t) :
  wf_grid g ->
  exists n g',
    Board.clear_lines g = Done (n, g') /\
    0 <= n <= 20 /\
    Z.of_nat (occupied g) = Z.of_nat (occupied g') + 10 * n.
Proof. exact (clear_lines_occupied g). Qed.

(** ** Spawning *)

Lemma piece_fits_forallb (g : Board.t) (p : Piece.t) :
  wf_grid g -> valid_rotation p ->
  exists cells,
    Piece.get_cells p = Done cells /\
    Board.is_valid_position g cells = Done (piece_fits g p).
Proof.
  intros Hwf Hrot.
  destruct (get_cells_at_valid p (Piece.row p) (Piece.col p) (Piece.rotation_index p) Hrot)
    as (offs & _ & _ & _ & Hcells).
  fold (Piece.get_cells p) in Hcells.
  eexists. split; [exact Hcells|].
  unfold piece_fits. rewrite Hcells.
  rewrite is_valid_position_forallb by assumption.
  now destruct (forallb _ _).
Qed.

Section Spawning.
Variable random_shuffle : nat -> list Tetromino -> list Tetromino.
Variable get_ticks : nat -> Z.
Hypothesis shuffle_ok : shuffles_permute random_shuffle.

(** A call of [get_next_piece_type] keeps the bag without repeats and
    leaves at most six types in it. *)
Lemma get_next_piece_type_bag (s : Game.t) :
  bag_ok s ->
  exists x bag n,
    Game.get_next_piece_type random_shuffle s =
      Done (x, Game.set_piece_bag bag (Game.set_shuffles n s)) /\
    NoDup bag /\ (length bag <= 6)%nat.
Proof.
  intros [Hnd Hlen].
  destruct (Game.piece_bag s) as [|y l] eqn:Hbag using rev_ind.
  - rewrite (get_next_piece_type_refill random_shuffle shuffle_ok) by assumption.
    pose proof (shuffle_ok (Game.shuffles s) TETROMINOES_keys) as Hperm.
    destruct (shuffled_keys_nonempty random_shuffle shuffle_ok (Game.shuffles s))
      as (bag & x & E).
    rewrite (get_next_piece_type_pop random_shuffle (refilled random_shuffle s) bag x)
      by exact E.
    exists x, bag, (S (Game.shuffles s)). split; [reflexivity|].
    rewrite E in Hperm. split.
    + assert (Hnd' : NoDup (bag ++ [x])).
      { apply (Permutation_NoDup (Permutation_sym Hperm)), NoDup_TETROMINOES_keys. }
      apply NoDup_app_remove_r in Hnd'. exact Hnd'.
    + apply Permutation_length in Hperm. rewrite length_app in Hperm.
      simpl in Hperm. lia.
  - rewrite (get_next_piece_type_pop random_shuffle s l y) by assumption.
    exists y, l, (Game.shuffles s). split; [destruct s; reflexivity|].
    split; [now apply NoDup_app_remove_r in Hnd|].
    rewrite length_app in Hlen. simpl in Hlen. lia.
Qed.

(** The end of [spawn_piece], from the installation of [p] on. *)
Lemma spawn_piece_install_full (s : Game.t) (p : Piece.t) :
  wf_grid (Game.board s) -> valid_rotation p -> bag_ok s ->
  exists ty bag n,
    NoDup bag /\ (length bag <= 6)%nat /\
    Game.bind (Game.modify (Game.set_current_piece (Some p))) (fun _ =>
    Game.bind (Game.get_next_piece_type random_shuffle) (fun piece_type =>
    Game.bind (Game.modify (Game.set_next_piece (Some (Piece.init piece_type)))) (fun _ =>
    Game.bind (Game.lift (Piece.get_cells p)) (fun cells =>
    Game.bind (Game.gets Game.board) (fun grid =>
    Game.bind (Game.lift (Board.is_valid_position grid cells)) (fun v =>
    if negb v then
      Game.bind (Game.modify (Game.set_game_over true)) (fun _ => Game.ret false)
    else
      Game.bind (Game.pygame_time_get_ticks get_ticks) (fun now =>
      Game.bind (Game.modify (Game.set_last_fall_time now)) (fun _ =>
      Game.ret true)))))))) s =
    Done (piece_fits (Game.board s) p,
          let s1 := Game.set_next_piece (Some (Piece.init ty))
                      (Game.set_piece_bag bag
                         (Game.set_shuffles n
                            (Game.set_current_piece (Some p) s))) in
          if piece_fits (Game.board s) p
          then Game.set_last_fall_time (get_ticks (Game.tick_reads s))
                 (Game.set_tick_reads (S (Game.tick_reads s)) s1)
          else Game.set_game_over true s1).
Proof.
  intros Hwf Hrot Hbag.
  destruct (get_next_piece_type_bag (Game.set_current_piece (Some p) s) Hbag)
    as (x & bag & n & Hnext & Hnd & Hlen).
  destruct (piece_fits_forallb (Game.board s) p Hwf Hrot) as (cells & Hcells & Hvalid).
  exists x, bag, n. split; [exact Hnd|]. split; [exact Hlen|].
  unfold Game.bind at 1. unfold Game.modify at 1.
  unfold Game.bind at 1. rewrite Hnext.
  unfold Game.pygame_time_get_ticks. munfold. rewrite Hcells.
  game_fields. rewrite Hvalid.
  destruct (piece_fits (Game.board s) p); reflexivity.
Qed.

Lemma spawn_piece_facts (s : Game.t) :
  wf_grid (Game.board s) -> bag_ok s ->
  (forall q, Game.next_piece s = Some q -> valid_rotation q) ->
  exists (p : Piece.t) (ty : Tetromino) (s' : Game.t),
    Game.spawn_piece random_shuffle get_ticks s =
      Done (piece_fits (Game.board s) p, s') /\
    (forall q, Game.next_piece s = Some q -> p = q) /\
    (Game.next_piece s = None -> exists ty0, p = Piece.init ty0) /\
    valid_rotation p /\
    Game.current_piece s' = Some p /\
    Game.next_piece s' = Some (Piece.init ty) /\
    Game.board s' = Game.board s /\
    Game.score s' = Game.score s /\ Game.level s' = Game.level s /\
    Game.lines_cleared s' = Game.lines_cleared s /\
    Game.fall_speed s' = Game.fall_speed s /\ Game.paused s' = Game.paused s /\
    bag_ok s' /\
    (piece_fits (Game.board s) p = true ->
     Game.game_over s' = Game.game_over s /\
     Game.last_fall_time s' = get_ticks (Game.tick_reads s)) /\
    (piece_fits (Game.board s) p = false ->
     Game.game_over s' = true /\
     Game.last_fall_time s' = Game.last_fall_time s).
Proof.
  intros Hwf Hbag Hnext. unfold Game.spawn_piece.
  unfold Game.bind at 1. unfold Game.gets at 1.
  destruct (Game.next_piece s) as [q|] eqn:E.
  - unfold Game.bind at 1. unfold Game.ret at 1.
    destruct (spawn_piece_install_full s q Hwf (Hnext q eq_refl) Hbag)
      as (ty & bag & n & Hnd & Hlen & Hrun).
    rewrite Hrun. exists q, ty. eexists. split; [reflexivity|].
    split; [intros q' Hq'; now injection Hq'|].
    split; [discriminate|]. split; [exact (Hnext q eq_refl)|].
    cbv zeta. destruct (piece_fits (Game.board s) q); game_fields;
      repeat (split; [reflexivity|]);
      (split; [split; assumption|]);
      (split; [intros _; split; reflexivity|intros H; try discriminate H; split; reflexivity])
      || (split; [intros H; discriminate H|intros _; split; reflexivity]).
  - unfold Game.bind at 1. unfold Game.bind at 1.
    destruct (get_next_piece_type_bag s Hbag) as (x & bag0 & n0 & Hx & Hnd0 & Hlen0).
    rewrite Hx. unfold Game.bind at 1. unfold Game.modify at 1.
    unfold Game.ret at 1.
    match goal with
    | |- context [Game.bind _ _ ?s1] =>
        destruct (spawn_piece_install_full s1 (Piece.init x))
          as (ty & bag & n & Hnd & Hlen & Hrun)
    end; [exact Hwf|apply valid_rotation_init|split; assumption|].
    rewrite Hrun. exists (Piece.init x), ty. eexists. split; [reflexivity|].
    split; [discriminate|].
    split; [intros _; now exists x|]. split; [apply valid_rotation_init|].
    cbv zeta. game_fields. destruct (piece_fits (Game.board s) (Piece.init x)); game_fields;
      repeat (split; [reflexivity|]);
      (split; [split; assumption|]);
      (split; [intros _; split; reflexivity|intros H; try discriminate H; split; reflexivity])
      || (split; [intros H; discriminate H|intros _; split; reflexivity]).
Qed.

End Spawning.

(** ** A new game *)

Lemma spawn_position_is_free (ty : Tetromino) :
  piece_fits Board.init (Piece.init ty) = true.
Proof. destruct ty; reflexivity. Qed.

Lemma list_of_seven_ends {A : Type} (l : list A) :
  length l = 7%nat -> exists bag x2 x1, l = bag ++ [x2; x1] /\ length bag = 5%nat.
Proof.
  intros H.
  destruct l as [|a [|b [|c [|d [|e [|f [|g [|h l]]]]]]]]; try discriminate.
  exists [a; b; c; d; e], f, g. split; reflexivity.
Qed.

Section NewGame.
Variable random_shuffle : nat -> list Tetromino -> list Tetromino.
Variable get_ticks : nat -> Z.
Hypothesis shuffle_ok : shuffles_permute random_shuffle.

Lemma reset_game_facts (s0 : Game.t) :
  exists (ty1 ty2 : Tetromino) (bag : list Tetromino) (s : Game.t),
    Game.reset_game random_shuffle get_ticks s0 = Done (tt, s) /\
    random_shuffle (Game.shuffles s0) TETROMINOES_keys = bag ++ [ty2; ty1] /\
    s = Game.mk Board.init (Some (Piece.init ty1)) (Some (Piece.init ty2))
          0 1 0 false false (get_ticks (S (Game.tick_reads s0))) FALL_SPEED bag
          (S (Game.shuffles s0)) (S (S (Game.tick_reads s0))).
Proof.
  pose proof (shuffle_ok (Game.shuffles s0) TETROMINOES_keys) as Hperm.
  destruct (list_of_seven_ends _ (Permutation_length Hperm)) as (bag & x2 & x1 & E & Hlen).
  exists x1, x2, bag. eexists. split; [|split; [exact E|reflexivity]].
  unfold Game.reset_game, Game.pygame_time_get_ticks. munfold. game_fields.
  unfold Game.spawn_piece, Game.pygame_time_get_ticks. munfold. game_fields.
  match goal with
  | |- context [Game.get_next_piece_type random_shuffle ?s1] =>
      rewrite (get_next_piece_type_refill random_shuffle shuffle_ok s1) by reflexivity;
      rewrite (get_next_piece_type_pop random_shuffle (refilled random_shuffle s1)
                 (bag ++ [x2]) x1)
        by (unfold refilled; game_fields; rewrite E, <- app_assoc; reflexivity)
  end.
  game_fields.
  match goal with
  | |- context [Game.get_next_piece_type random_shuffle ?s2] =>
      rewrite (get_next_piece_type_pop random_shuffle s2 bag x2) by reflexivity
  end.
  game_fields.
  destruct (piece_fits_forallb Board.init (Piece.init x1) wf_grid_init
              (valid_rotation_init x1)) as (cells & Hcells & Hvalid).
  rewrite Hcells. unfold refilled. game_fields.
  rewrite Hvalid, spawn_position_is_free. simpl negb. cbv iota.
  game_fields. reflexivity.
Qed.

(** X7 -- Whatever the state before, [reset_game] raises nothing and
    gives a running game: an empty board, score 0, level 1, no line
    cleared, fall interval 500, neither paused nor over, the fall timer
    at the clock; the current and the next piece are the first two
    types of a freshly shuffled bag, hence different, both at the spawn
    position, and five types are left in the bag. *)
Theorem reset_game_starts_a_fresh_game (s0 : Game.t) :
  exists (ty1 ty2 : Tetromino) (s : Game.t),
    Game.reset_game random_shuffle get_ticks s0 = Done (tt, s) /\
    Game.board s = Board.init /\
    Game.current_piece s = Some (Piece.init ty1) /\
    Game.next_piece s = Some (Piece.init ty2) /\
    ty1 <> ty2 /\
    Game.score s = 0 /\ Game.level s = 1 /\ Game.lines_cleared s = 0 /\
    Game.fall_speed s = 500 /\
    Game.game_over s = false /\ Game.paused s = false /\
    Game.last_fall_time s = get_ticks (S (Game.tick_reads s0)) /\
    length (Game.piece_bag s) = 5%nat /\
    ~ In ty1 (Game.piece_bag s) /\ ~ In ty2 (Game.piece_bag s).
Proof.
  destruct (reset_game_facts s0) as (ty1 & ty2 & bag & s & Hrun & E & ->).
  pose proof (shuffle_ok (Game.shuffles s0) TETROMINOES_keys) as Hperm.
  assert (Hnd : NoDup (bag ++ [ty2; ty1])).
  { rewrite <- E. apply (Permutation_NoDup (Permutation_sym Hperm)), NoDup_TETROMINOES_keys. }
  assert (Hlen : length bag = 5%nat).
  { apply Permutation_length in Hperm. rewrite E, length_app in Hperm.
    simpl in Hperm. lia. }
  exists ty1, ty2. eexists. split; [exact Hrun|]. game_fields.
  repeat (split; [reflexivity|]).
  apply NoDup_remove in Hnd. destruct Hnd as [Hnd H2].
  change (bag ++ [ty1]) with (bag ++ ty1 :: []) in *.
  apply NoDup_remove in Hnd. destruct Hnd as [_ H1].
  rewrite app_nil_r in H1.
  split.
  { intros ->. apply H2. apply in_or_app. right. now left. }
  repeat (split; [reflexivity|]).
  split; [exact Hlen|]. split; [exact H1|].
  intros Hin. apply H2. apply in_or_app. now left.
Qed.
End NewGame.

(** ** What every step of a game keeps *)

(** An invariant of the four moves of the engine and of the writes to
    the timers, the pause flag and the soft drop bonus is an invariant
    of [update] and [handle_input], hence of the whole game. *)
Lemma move_piece_game_over (s s' : Game.t) (d_row d_col : Z) (b : bool) :
  Game.move_piece d_row d_col s = Done (b, s') ->
  Game.game_over s' = Game.game_over s.
Proof.
  unfold Game.move_piece. munfold.
  destruct (Game.current_piece s) as [p|]; [|intros E; now injection E as _ <-].
  destruct (Piece.get_cells_at _ _ _ _) as [cells| |]; try discriminate.
  destruct (Board.is_valid_position _ _) as [[|]| |]; try discriminate;
    intros E; now injection E as _ <-.
Qed.

Section StepInvariant.
Variable random_shuffle : nat -> list Tetromino -> list Tetromino.
Variable get_ticks : nat -> Z.
Variable Inv : Game.t -> Prop.

Hypothesis Inv_tick_reads : forall s v, Inv s -> Inv (Game.set_tick_reads v s).
Hypothesis Inv_last_fall_time : forall s v, Inv s -> Inv (Game.set_last_fall_time v s).
Hypothesis Inv_paused : forall s v, Inv s -> Inv (Game.set_paused v s).
Hypothesis Inv_soft_drop : forall s, Inv s -> Inv (Game.set_score (Game.score s + 1) s).
Hypothesis Inv_move : forall s s' d_row d_col b,
  0 <= d_row -> Inv s -> Game.move_piece d_row d_col s = Done (b, s') -> Inv s'.
Hypothesis Inv_rotate : forall s s' clockwise b,
  Inv s -> Game.rotate_piece clockwise s = Done (b, s') -> Inv s'.
Hypothesis Inv_lock : forall s s',
  Inv s -> Game.game_over s = false ->
  Game.lock_piece random_shuffle get_ticks s = Done (tt, s') -> Inv s'.
Hypothesis Inv_hard_drop : forall s s',
  Inv s -> Game.game_over s = false ->
  Game.hard_drop random_shuffle get_ticks s = Done (tt, s') -> Inv s'.
Hypothesis Inv_reset : forall s0 s,
  Game.reset_game random_shuffle get_ticks s0 = Done (tt, s) -> Inv s.

Lemma update_keeps (s s' : Game.t) :
  Inv s -> Game.update random_shuffle get_ticks s = Done (tt, s') -> Inv s'.
Proof.
  intros Hinv Hrun.
  unfold Game.update, Game.pygame_time_get_ticks in Hrun.
  unfold Game.bind at 1 2 in Hrun. unfold Game.gets at 1 2 in Hrun.
  destruct (Game.game_over s || Game.paused s) eqn:Hguard.
  { injection Hrun as <-. exact Hinv. }
  apply orb_false_elim in Hguard. destruct Hguard as [Hover _].
  unfold Game.bind at 1 2 3 in Hrun. unfold Game.gets at 1 in Hrun.
  unfold Game.modify at 1 in Hrun. unfold Game.ret at 1 in Hrun.
  unfold Game.bind at 1 2 in Hrun. unfold Game.gets at 1 2 in Hrun.
  set (s1 := Game.set_tick_reads (S (Game.tick_reads s)) s) in *.
  assert (Hinv1 : Inv s1) by (apply Inv_tick_reads; exact Hinv).
  destruct (_ >=? _).
  2:{ injection Hrun as <-. exact Hinv1. }
  unfold Game.bind at 1 2 in Hrun.
  destruct (Game.move_piece 1 0 s1) as [[moved s2]| |] eqn:Hmove; try discriminate.
  pose proof (move_piece_game_over s1 s2 1 0 moved Hmove) as Hover2.
  apply Inv_move in Hmove; [|lia|exact Hinv1].
  destruct moved; cbn [negb] in Hrun; cbv beta iota in Hrun.
  - munfold_in Hrun. injection Hrun as <-. now apply Inv_last_fall_time.
  - destruct (Game.lock_piece random_shuffle get_ticks s2) as [[[] s3]| |] eqn:Hlock;
      try discriminate.
    apply Inv_lock in Hlock; [|exact Hmove|now rewrite Hover2].
    munfold_in Hrun. injection Hrun as <-. now apply Inv_last_fall_time.
Qed.

Lemma handle_input_keeps (s s' : Game.t) (event : Event) :
  Inv s ->
  Game.handle_input random_shuffle get_ticks event s = Done (tt, s') ->
  Inv s'.
Proof.
  intros Hinv Hrun.
  destruct event as [key|]; [|injection Hrun as <-; exact Hinv].
  destruct key; try discriminate;
    unfold Game.handle_input in Hrun;
    unfold Game.bind at 1 in Hrun; unfold Game.gets at 1 in Hrun;
    (destruct (Game.game_over s) eqn:Hover;
     [first [ now apply Inv_reset in Hrun
            | injection Hrun as <-; exact Hinv ] | ]).
  - unfold Game.bind at 1 in Hrun. unfold Game.gets at 1 in Hrun.
    destruct (Game.paused s); injection Hrun as <-; exact Hinv.
  - injection Hrun as <-. now apply Inv_paused.
  - unfold Game.bind at 1 in Hrun. unfold Game.gets at 1 in Hrun.
    destruct (Game.paused s); [injection Hrun as <-; exact Hinv|].
    unfold Game.bind in Hrun.
    destruct (Game.move_piece 0 (-1) s) as [[b s2]| |] eqn:Hm; try discriminate.
    injection Hrun as <-. eapply Inv_move; [|exact Hinv|exact Hm]. lia.
  - unfold Game.bind at 1 in Hrun. unfold Game.gets at 1 in Hrun.
    destruct (Game.paused s); [injection Hrun as <-; exact Hinv|].
    unfold Game.bind in Hrun.
    destruct (Game.move_piece 0 1 s) as [[b s2]| |] eqn:Hm; try discriminate.
    injection Hrun as <-. eapply Inv_move; [|exact Hinv|exact Hm]. lia.
  - unfold Game.bind at 1 in Hrun. unfold Game.gets at 1 in Hrun.
    destruct (Game.paused s); [injection Hrun as <-; exact Hinv|].
    unfold Game.bind at 1 in Hrun.
    destruct (Game.move_piece 1 0 s) as [[b s2]| |] eqn:Hm; try discriminate.
    apply Inv_move in Hm; [|lia|exact Hinv].
    destruct b; unfold Game.pygame_time_get_ticks in Hrun; munfold_in Hrun;
      injection Hrun as <-; [|exact Hm].
    apply Inv_last_fall_time, Inv_tick_reads, Inv_soft_drop, Hm.
  - unfold Game.bind at 1 in Hrun. unfold Game.gets at 1 in Hrun.
    destruct (Game.paused s); [injection Hrun as <-; exact Hinv|].
    unfold Game.bind in Hrun.
    destruct (Game.rotate_piece true s) as [[b s2]| |] eqn:Hm; try discriminate.
    injection Hrun as <-. eapply Inv_rotate; eauto.
  - unfold Game.bind at 1 in Hrun. unfold Game.gets at 1 in Hrun.
    destruct (Game.paused s); [injection Hrun as <-; exact Hinv|].
    apply Inv_hard_drop in Hrun; assumption.
  - unfold Game.bind at 1 in Hrun. unfold Game.gets at 1 in Hrun.
    destruct (Game.paused s); injection Hrun as <-; exact Hinv.
Qed.

(** While the game is not over [handle_input] never restarts it. *)
Lemma handle_input_keeps_running (s s' : Game.t) (event : Event) :
  Inv s -> Game.game_over s = false ->
  Game.handle_input random_shuffle get_ticks event s = Done (tt, s') ->
  Inv s'.
Proof.
  intros Hinv Hover Hrun.
  destruct event as [key|]; [|injection Hrun as <-; exact Hinv].
  destruct key; try discriminate;
    unfold Game.handle_input in Hrun;
    unfold Game.bind at 1 in Hrun; unfold Game.gets at 1 in Hrun;
    rewrite Hover in Hrun.
  - unfold Game.bind at 1 in Hrun. unfold Game.gets at 1 in Hrun.
    destruct (Game.paused s); injection Hrun as <-; exact Hinv.
  - injection Hrun as <-. now apply Inv_paused.
  - unfold Game.bind at 1 in Hrun. unfold Game.gets at 1 in Hrun.
    destruct (Game.paused s); [injection Hrun as <-; exact Hinv|].
    unfold Game.bind in Hrun.
    destruct (Game.move_piece 0 (-1) s) as [[b s2]| |] eqn:Hm; try discriminate.
    injection Hrun as <-. eapply Inv_move; [|exact Hinv|exact Hm]. lia.
  - unfold Game.bind at 1 in Hrun. unfold Game.gets at 1 in Hrun.
    destruct (Game.paused s); [injection Hrun as <-; exact Hinv|].
    unfold Game.bind in Hrun.
    destruct (Game.move_piece 0 1 s) as [[b s2]| |] eqn:Hm; try discriminate.
    injection Hrun as <-. eapply Inv_move; [|exact Hinv|exact Hm]. lia.
  - unfold Game.bind at 1 in Hrun. unfold Game.gets at 1 in Hrun.
    destruct (Game.paused s); [injection Hrun as <-; exact Hinv|].
    unfold Game.bind at 1 in Hrun.
    destruct (Game.move_piece 1 0 s) as [[b s2]| |] eqn:Hm; try discriminate.
    apply Inv_move in Hm; [|lia|exact Hinv].
    destruct b; unfold Game.pygame_time_get_ticks in Hrun; munfold_in Hrun;
      injection Hrun as <-; [|exact Hm].
    apply Inv_last_fall_time, Inv_tick_reads, Inv_soft_drop, Hm.
  - unfold Game.bind at 1 in Hrun. unfold Game.gets at 1 in Hrun.
    destruct (Game.paused s); [injection Hrun as <-; exact Hinv|].
    unfold Game.bind in Hrun.
    destruct (Game.rotate_piece true s) as [[b s2]| |] eqn:Hm; try discriminate.
    injection Hrun as <-. eapply Inv_rotate; eauto.
  - unfold Game.bind at 1 in Hrun. unfold Game.gets at 1 in Hrun.
    destruct (Game.paused s); [injection Hrun as <-; exact Hinv|].
    apply Inv_hard_drop in Hrun; assumption.
  - unfold Game.bind at 1 in Hrun. unfold Game.gets at 1 in Hrun.
    destruct (Game.paused s); injection Hrun as <-; exact Hinv.
Qed.

Lemma reachable_keeps (s : Game.t) :
  reachable random_shuffle get_ticks s -> Inv s.
Proof.
  induction 1 as [s0 s Hreset|s s' _ IH Hupd|s s' event _ IH Hin].
  - eapply Inv_reset; eauto.
  - eapply update_keeps; eauto.
  - eapply handle_input_keeps; eauto.
Qed.
End StepInvariant.

Lemma scores_get_nonneg (lines : Z) : 0 <= Game.scores_get lines.
Proof.
  unfold Game.scores_get.
  repeat match goal with |- context [if ?b then _ else _] => destruct b end; lia.
Qed.

Lemma counters_level_positive (s : Game.t) : counters_ok s -> 1 <= Game.level s.
Proof.
  intros (_ & Hl & Hlv & _). rewrite Hlv.
  pose proof (Z.div_pos (Game.lines_cleared s) 10 Hl ltac:(lia)). lia.
Qed.

Lemma after_clear_counters (lines : Z) (grid : Board.t) (s : Game.t) :
  counters_ok s -> 0 <= lines -> counters_ok (after_clear lines grid s).
Proof.
  intros Hc Hn. pose proof (counters_level_positive s Hc) as Hlv.
  destruct Hc as (Hs & Hl & Hlevel & Hspeed).
  unfold after_clear. destruct (lines >? 0); cbv zeta; unfold counters_ok; game_fields.
  - pose proof (scores_get_nonneg lines). repeat split; try reflexivity; nia.
  - repeat split; assumption.
Qed.

Lemma valid_at_piece_fits (g : Board.t) (p : Piece.t) (rotation offset : Z) :
  valid_at g p rotation offset =
    piece_fits g (Piece.mk (Piece.type p) rotation (Piece.row p) (Piece.col p + offset)).
Proof. reflexivity. Qed.

Lemma valid_at_in_place (g : Board.t) (p : Piece.t) (rotation : Z) :
  valid_at g p rotation 0 =
    piece_fits g (Piece.mk (Piece.type p) rotation (Piece.row p) (Piece.col p)).
Proof.
  unfold valid_at, piece_fits, Piece.get_cells.
  cbn [Piece.row Piece.col Piece.rotation_index]. now rewrite Z.add_0_r.
Qed.

Lemma move_piece_fits (s : Game.t) (p : Piece.t) (d_row d_col : Z) :
  wf_grid (Game.board s) -> Game.current_piece s = Some p -> valid_rotation p ->
  Game.move_piece d_row d_col s =
    let q := placed p (Piece.row p + d_row) (Piece.col p + d_col)
               (Piece.rotation_index p) in
    Done (piece_fits (Game.board s) q,
          if piece_fits (Game.board s) q
          then Game.set_current_piece (Some q) s else s).
Proof.
  intros Hwf Hcur Hrot.
  destruct (move_piece_some s p d_row d_col Hwf Hcur Hrot) as (cells & Hc & Hv & Hm).
  cbv zeta. rewrite Hm.
  assert (E : piece_fits (Game.board s)
                (placed p (Piece.row p + d_row) (Piece.col p + d_col)
                   (Piece.rotation_index p)) =
              forallb (cell_okb (Game.board s)) cells).
  { unfold piece_fits.
    change (Piece.get_cells (placed p (Piece.row p + d_row) (Piece.col p + d_col)
                               (Piece.rotation_index p)))
      with (Piece.get_cells_at p (Piece.row p + d_row) (Piece.col p + d_col)
              (Piece.rotation_index p)).
    rewrite Hc, Hv. now destruct (forallb _ _). }
  now rewrite E.
Qed.

Section Sound.
Variable random_shuffle : nat -> list Tetromino -> list Tetromino.
Variable get_ticks : nat -> Z.
Hypothesis shuffle_ok : shuffles_permute random_shuffle.

Lemma spawn_piece_sound (s s' : Game.t) (b : bool) :
  wf_grid (Game.board s) -> bag_ok s -> counters_ok s ->
  (forall q, Game.next_piece s = Some q -> valid_rotation q) ->
  Game.spawn_piece random_shuffle get_ticks s = Done (b, s') ->
  sound s'.
Proof.
  intros Hwf Hbag Hc Hnext Hrun.
  destruct (spawn_piece_facts random_shuffle get_ticks shuffle_ok s Hwf Hbag Hnext)
    as (p & ty & s2 & Hrun2 & _ & _ & Hrot & Hcur & Hnx & Hb & Hsc & Hlv & Hli & Hfs
        & _ & Hbag2 & Hfit & Hnofit).
  rewrite Hrun2 in Hrun. injection Hrun as _ <-.
  split.
  { split; [now rewrite Hb|]. split; intros q Hq.
    - rewrite Hcur in Hq. now injection Hq as <-.
    - rewrite Hnx in Hq. injection Hq as <-. apply valid_rotation_init. }
  split.
  { unfold counters_ok in *. now rewrite Hsc, Hlv, Hli, Hfs. }
  split; [|exact Hbag2].
  split; [|now exists ty].
  intros Hover. exists p. split; [exact Hcur|]. rewrite Hb.
  destruct (piece_fits (Game.board s) p); [reflexivity|].
  destruct (Hnofit eq_refl) as [Hov _]. congruence.
Qed.

Lemma reset_game_sound (s0 s : Game.t) :
  Game.reset_game random_shuffle get_ticks s0 = Done (tt, s) -> sound s.
Proof.
  unfold Game.reset_game, Game.pygame_time_get_ticks. munfold.
  match goal with
  | |- context [Game.spawn_piece _ _ ?s1] =>
      destruct (Game.spawn_piece random_shuffle get_ticks s1) as [[b s2]| |] eqn:Hrun;
      try discriminate;
      apply spawn_piece_sound in Hrun
  end.
  - intros E. injection E as <-. exact Hrun.
  - apply wf_grid_init.
  - split; [constructor|simpl; lia].
  - unfold counters_ok. game_fields. repeat split; try reflexivity; lia.
  - discriminate.
Qed.

Lemma move_piece_sound (s s' : Game.t) (d_row d_col : Z) (b : bool) :
  sound s -> Game.move_piece d_row d_col s = Done (b, s') -> sound s'.
Proof.
  intros (Hwf & Hc & Hp & Hbag) Hrun.
  pose proof (move_piece_wf s s' d_row d_col b Hwf Hrun) as Hwf'.
  destruct Hwf as (Hg & Hcv & Hnv).
  destruct (Game.current_piece s) as [p|] eqn:Hcur.
  - rewrite (move_piece_fits s p d_row d_col Hg Hcur (Hcv p eq_refl)) in Hrun.
    cbv zeta in Hrun. injection Hrun as _ <-.
    destruct (piece_fits (Game.board s) _) eqn:Hfit.
    + split; [exact Hwf'|]. split; [exact Hc|]. split; [|exact Hbag].
      split; [|exact (proj2 Hp)].
      intros _. eexists. split; [reflexivity|exact Hfit].
    + exact (conj Hwf' (conj Hc (conj Hp Hbag))).
  - unfold Game.move_piece in Hrun. munfold_in Hrun. rewrite Hcur in Hrun.
    injection Hrun as _ <-. exact (conj Hwf' (conj Hc (conj Hp Hbag))).
Qed.

Lemma rotate_piece_sound (s s' : Game.t) (clockwise b : bool) :
  sound s -> Game.rotate_piece clockwise s = Done (b, s') -> sound s'.
Proof.
  intros (Hwf & Hc & Hp & Hbag) Hrun.
  pose proof (rotate_piece_wf s s' clockwise b Hwf Hrun) as Hwf'.
  destruct Hwf as (Hg & Hcv & Hnv).
  destruct (Game.current_piece s) as [p|] eqn:Hcur.
  - rewrite (rotate_piece_result s p clockwise Hg Hcur) in Hrun.
    destruct (valid_at _ _ _ 0) eqn:H0.
    + injection Hrun as _ <-. rewrite valid_at_in_place in H0.
      split; [exact Hwf'|]. split; [exact Hc|]. split; [|exact Hbag].
      split; [|exact (proj2 Hp)].
      intros _. eexists. split; [reflexivity|exact H0].
    + destruct (find _ _) as [offset|] eqn:Hfind; injection Hrun as _ <-.
      * apply find_some in Hfind. destruct Hfind as [_ Hv].
        rewrite valid_at_piece_fits in Hv.
        split; [exact Hwf'|]. split; [exact Hc|]. split; [|exact Hbag].
        split; [|exact (proj2 Hp)].
        intros _. eexists. split; [reflexivity|exact Hv].
      * exact (conj Hwf' (conj Hc (conj Hp Hbag))).
  - unfold Game.rotate_piece in Hrun. munfold_in Hrun. rewrite Hcur in Hrun.
    injection Hrun as _ <-. exact (conj Hwf' (conj Hc (conj Hp Hbag))).
Qed.

(** [lock_piece] with a current piece: the board is written and
    cleared, the counters updated, and [spawn_piece] does the rest. *)
Lemma lock_piece_as_spawn (s : Game.t) (p : Piece.t) :
  wf_game s -> Game.current_piece s = Some p ->
  exists (g1 g2 : Board.t) (n : Z),
    Board.lock_piece (Game.board s) p = Done g1 /\
    Board.clear_lines g1 = Done (n, g2) /\
    wf_grid g2 /\ 0 <= n /\
    Game.lock_piece random_shuffle get_ticks s =
      Game.bind (Game.spawn_piece random_shuffle get_ticks) (fun _ => Game.ret tt)
        (after_clear n g2 s).
Proof.
  intros (Hwf & Hcurv & Hnextv) Hcur.
  destruct (lock_piece_result (Game.board s) p Hwf (Hcurv p Hcur))
    as (cells & g1 & _ & Hlock & Hwf1 & _).
  pose proof (clear_lines_result g1 (proj1 Hwf1)) as Hclear.
  pose proof (clear_lines_wf g1 Hwf1) as Hwf2.
  eexists. eexists. eexists.
  split; [exact Hlock|]. split; [exact Hclear|]. split; [exact Hwf2|].
  split; [lia|].
  unfold Game.lock_piece, Game.calculate_score, after_clear. munfold.
  rewrite Hcur, Hlock, Hclear.
  destruct (_ >? 0); reflexivity.
Qed.

Lemma after_clear_frame (n : Z) (g : Board.t) (s : Game.t) :
  Game.board (after_clear n g s) = g /\
  Game.next_piece (after_clear n g s) = Game.next_piece s /\
  Game.piece_bag (after_clear n g s) = Game.piece_bag s /\
  Game.current_piece (after_clear n g s) = Game.current_piece s /\
  Game.game_over (after_clear n g s) = Game.game_over s /\
  Game.paused (after_clear n g s) = Game.paused s /\
  Game.tick_reads (after_clear n g s) = Game.tick_reads s /\
  Game.last_fall_time (after_clear n g s) = Game.last_fall_time s.
Proof. unfold after_clear. destruct (n >? 0); repeat split; reflexivity. Qed.

Lemma lock_piece_sound_some (s s' : Game.t) (p : Piece.t) :
  wf_game s -> counters_ok s -> bag_ok s -> Game.current_piece s = Some p ->
  Game.lock_piece random_shuffle get_ticks s = Done (tt, s') -> sound s'.
Proof.
  intros Hwf Hc Hbag Hcur Hrun.
  destruct (lock_piece_as_spawn s p Hwf Hcur) as (g1 & g2 & n & _ & _ & Hwf2 & Hn & E).
  rewrite E in Hrun. unfold Game.bind in Hrun.
  destruct (Game.spawn_piece _ _ _) as [[b s2]| |] eqn:Hspawn; try discriminate.
  munfold_in Hrun. injection Hrun as <-.
  destruct (after_clear_frame n g2 s) as (Hb & Hnx & Hbg & _).
  apply spawn_piece_sound in Hspawn; [exact Hspawn| | | |].
  - now rewrite Hb.
  - unfold bag_ok. now rewrite Hbg.
  - now apply after_clear_counters.
  - rewrite Hnx. apply Hwf.
Qed.

Lemma lock_piece_sound (s s' : Game.t) :
  sound s -> Game.lock_piece random_shuffle get_ticks s = Done (tt, s') -> sound s'.
Proof.
  intros Hs Hrun. pose proof Hs as (Hwf & Hc & Hp & Hbag).
  destruct (Game.current_piece s) as [p|] eqn:Hcur.
  - now apply (lock_piece_sound_some s s' p).
  - unfold Game.lock_piece in Hrun. munfold_in Hrun. rewrite Hcur in Hrun.
    injection Hrun as <-. exact Hs.
Qed.

Lemma hard_drop_sound (s s' : Game.t) :
  sound s -> Game.hard_drop random_shuffle get_ticks s = Done (tt, s') -> sound s'.
Proof.
  intros Hs Hrun. pose proof Hs as ((Hg & Hcv & Hnv) & Hc & Hp & Hbag).
  destruct (Game.current_piece s) as [p|] eqn:Hcur.
  - destruct (hard_drop_result random_shuffle get_ticks s p Hg Hcur (Hcv p eq_refl))
      as (n & landed & cells & Hn & Hlanded & _ & _ & _ & Hd).
    rewrite Hd in Hrun.
    apply (lock_piece_sound_some _ s' landed) in Hrun; [exact Hrun| | | |reflexivity].
    + split; [exact Hg|]. split; [|exact Hnv].
      intros q Hq. injection Hq as <-. subst landed. exact (Hcv p eq_refl).
    + destruct Hc as (H1 & H2 & H3 & H4). unfold counters_ok. game_fields.
      repeat split; try assumption. lia.
    + exact Hbag.
  - unfold Game.hard_drop in Hrun. munfold_in Hrun. rewrite Hcur in Hrun.
    injection Hrun as <-. exact Hs.
Qed.

Lemma reachable_sound (s : Game.t) :
  reachable random_shuffle get_ticks s -> sound s.
Proof.
  apply (reachable_keeps random_shuffle get_ticks sound).
  - intros s1 v (Hw & Hc & Hp & Hb). exact (conj Hw (conj Hc (conj Hp Hb))).
  - intros s1 v (Hw & Hc & Hp & Hb). exact (conj Hw (conj Hc (conj Hp Hb))).
  - intros s1 v (Hw & Hc & Hp & Hb). exact (conj Hw (conj Hc (conj Hp Hb))).
  - intros s1 (Hw & Hc & Hp & Hb). split; [exact Hw|]. split; [|split; assumption].
    destruct Hc as (H1 & H2 & H3 & H4). unfold counters_ok. game_fields.
    repeat split; try assumption. lia.
  - intros s1 s2 dr dc b _. apply move_piece_sound.
  - intros s1 s2 cw b. apply rotate_piece_sound.
  - intros s1 s2 Hs _. now apply lock_piece_sound.
  - intros s1 s2 Hs _. now apply hard_drop_sound.
  - apply reset_game_sound.
Qed.
End Sound.

(** ** The engine raises nothing *)

Section Total.
Variable random_shuffle : nat -> list Tetromino -> list Tetromino.
Variable get_ticks : nat -> Z.
Hypothesis shuffle_ok : shuffles_permute random_shuffle.

Lemma move_piece_returns (s : Game.t) (d_row d_col : Z) :
  wf_game s -> exists b s', Game.move_piece d_row d_col s = Done (b, s').
Proof.
  intros (Hg & Hcv & _).
  destruct (Game.current_piece s) as [p|] eqn:Hcur.
  - destruct (move_piece_some s p d_row d_col Hg Hcur (Hcv p eq_refl))
      as (cells & _ & _ & Hm).
    rewrite Hm. eauto.
  - unfold Game.move_piece. munfold. rewrite Hcur. eauto.
Qed.

Lemma rotate_piece_returns (s : Game.t) (clockwise : bool) :
  wf_game s -> exists b s', Game.rotate_piece clockwise s = Done (b, s').
Proof.
  intros (Hg & Hcv & _).
  destruct (Game.current_piece s) as [p|] eqn:Hcur.
  - rewrite (rotate_piece_result s p clockwise Hg Hcur).
    destruct (valid_at _ _ _ 0); [eauto|]. destruct (find _ _); eauto.
  - unfold Game.rotate_piece. munfold. rewrite Hcur. eauto.
Qed.

Lemma lock_piece_returns (s : Game.t) :
  wf_game s -> exists s', Game.lock_piece random_shuffle get_ticks s = Done (tt, s').
Proof.
  intros Hwf.
  destruct (Game.current_piece s) as [p|] eqn:Hcur.
  - destruct (lock_piece_total random_shuffle get_ticks shuffle_ok s p Hwf Hcur)
      as (g1 & g2 & n & s' & _ & _ & _ & Hl & _).
    eauto.
  - unfold Game.lock_piece. munfold. rewrite Hcur. eauto.
Qed.

Lemma hard_drop_returns (s : Game.t) :
  wf_game s -> exists s', Game.hard_drop random_shuffle get_ticks s = Done (tt, s').
Proof.
  intros Hwf. pose proof Hwf as (Hg & Hcv & Hnv).
  destruct (Game.current_piece s) as [p|] eqn:Hcur.
  - destruct (hard_drop_result random_shuffle get_ticks s p Hg Hcur (Hcv p eq_refl))
      as (n & landed & cells & _ & Hlanded & _ & _ & _ & Hd).
    rewrite Hd. apply lock_piece_returns.
    split; [exact Hg|]. split; [|exact Hnv].
    intros q Hq. injection Hq as <-. subst landed. exact (Hcv p eq_refl).
  - unfold Game.hard_drop. munfold. rewrite Hcur. eauto.
Qed.

Lemma update_returns (s : Game.t) :
  wf_game s -> exists s', Game.update random_shuffle get_ticks s = Done (tt, s').
Proof.
  intros Hwf.
  unfold Game.update, Game.pygame_time_get_ticks.
  unfold Game.bind at 1 2. unfold Game.gets at 1 2.
  destruct (Game.game_over s || Game.paused s); [unfold Game.ret; eauto|].
  unfold Game.bind at 1 2 3. unfold Game.gets at 1.
  unfold Game.modify at 1. unfold Game.ret at 1.
  unfold Game.bind at 1 2. unfold Game.gets at 1 2.
  set (s1 := Game.set_tick_reads (S (Game.tick_reads s)) s).
  assert (Hwf1 : wf_game s1) by exact Hwf.
  destruct (_ >=? _); [|unfold Game.ret; eauto].
  unfold Game.bind at 1 2.
  destruct (move_piece_returns s1 1 0 Hwf1) as (b & s2 & Hm). rewrite Hm.
  pose proof (move_piece_wf s1 s2 1 0 b Hwf1 Hm) as Hwf2.
  destruct b; cbn [negb]; cbv beta iota.
  - munfold. eauto.
  - destruct (lock_piece_returns s2 Hwf2) as (s3 & Hl). rewrite Hl. munfold. eauto.
Qed.

Lemma reset_game_returns (s0 : Game.t) :
  exists s, Game.reset_game random_shuffle get_ticks s0 = Done (tt, s).
Proof.
  destruct (reset_game_facts random_shuffle get_ticks shuffle_ok s0)
    as (ty1 & ty2 & bag & s & Hrun & _).
  eauto.
Qed.

Lemma handle_input_returns (s : Game.t) (event : Event) :
  wf_game s -> event <> KEYDOWN K_ESCAPE ->
  exists s', Game.handle_input random_shuffle get_ticks event s = Done (tt, s').
Proof.
  intros Hwf Hev.
  destruct event as [key|]; [|unfold Game.handle_input, Game.ret; eauto].
  destruct key; try congruence;
    unfold Game.handle_input;
    unfold Game.bind at 1; unfold Game.gets at 1;
    (destruct (Game.game_over s);
     [first [ apply reset_game_returns | unfold Game.ret; eauto ] | ]);
    try (unfold Game.modify; eauto; fail);
    unfold Game.bind at 1; unfold Game.gets at 1;
    (destruct (Game.paused s); [unfold Game.ret; eauto|]).
  - unfold Game.ret. eauto.
  - unfold Game.bind.
    destruct (move_piece_returns s 0 (-1) Hwf) as (b & s2 & ->).
    unfold Game.ret. eauto.
  - unfold Game.bind.
    destruct (move_piece_returns s 0 1 Hwf) as (b & s2 & ->).
    unfold Game.ret. eauto.
  - unfold Game.bind at 1.
    destruct (move_piece_returns s 1 0 Hwf) as (b & s2 & ->).
    destruct b; unfold Game.pygame_time_get_ticks; munfold; eauto.
  - unfold Game.bind.
    destruct (rotate_piece_returns s true Hwf) as (b & s2 & ->).
    unfold Game.ret. eauto.
  - now apply hard_drop_returns.
  - unfold Game.ret. eauto.
Qed.

Lemma run_commands_returns (cmds : list Command) :
  forall s : Game.t,
    reachable random_shuffle get_ticks s ->
    Forall (fun c => quits c = false) cmds ->
    exists s',
      run_commands random_shuffle get_ticks cmds s = Done (tt, s') /\
      reachable random_shuffle get_ticks s'.
Proof.
  induction cmds as [|c cmds IH]; intros s Hreach Hcmds.
  - exists s. split; [reflexivity|assumption].
  - inversion Hcmds as [|? ? Hc Hrest]; subst.
    pose proof (reachable_wf random_shuffle get_ticks shuffle_ok s Hreach) as Hwf.
    destruct c as [|event]; simpl; unfold Game.bind.
    + destruct (update_returns s Hwf) as (s1 & Hu). rewrite Hu.
      apply IH; [|assumption]. eapply reachable_update; eauto.
    + assert (Hev : event <> KEYDOWN K_ESCAPE) by (intros ->; discriminate Hc).
      destruct (handle_input_returns s event Hwf Hev) as (s1 & Hu). rewrite Hu.
      apply IH; [|assumption]. eapply reachable_input; eauto.
Qed.

(** X8 -- Along a game the engine raises nothing and every loop ends:
    from any state a game reaches, [update] returns, [handle_input]
    returns for every event but the ESC key (which leaves by
    [SystemExit]), and so does any sequence of ticks and events without
    ESC. *)
Theorem engine_raises_nothing (s : Game.t) (cmds : list Command) :
  reachable random_shuffle get_ticks s ->
  Forall (fun c => quits c = false) cmds ->
  (exists s', Game.update random_shuffle get_ticks s = Done (tt, s')) /\
  (forall event, event <> KEYDOWN K_ESCAPE ->
     exists s', Game.handle_input random_shuffle get_ticks event s = Done (tt, s')) /\
  Game.handle_input random_shuffle get_ticks (KEYDOWN K_ESCAPE) s = Raise SystemExit /\
  exists s', run_commands random_shuffle get_ticks cmds s = Done (tt, s').
Proof.
  intros Hreach Hcmds.
  pose proof (reachable_wf random_shuffle get_ticks shuffle_ok s Hreach) as Hwf.
  split; [now apply update_returns|].
  split; [intros event Hev; now apply handle_input_returns|].
  split; [reflexivity|].
  destruct (run_commands_returns cmds s Hreach Hcmds) as (s' & Hrun & _). eauto.
Qed.
End Total.

(** ** Invariants of a game *)

Lemma piece_fits_cells (g : Board.t) (p : Piece.t) :
  wf_grid g -> valid_rotation p -> piece_fits g p = true ->
  exists cells, Piece.get_cells p = Done cells /\ Forall (cell_ok g) cells.
Proof.
  intros Hwf Hrot Hfit.
  destruct (piece_fits_forallb g p Hwf Hrot) as (cells & Hcells & Hvalid).
  exists cells. split; [exact Hcells|].
  rewrite is_valid_position_forallb, Hfit in Hvalid by assumption.
  injection Hvalid as Hall. rewrite forallb_forall in Hall.
  apply Forall_forall. intros rc Hin. apply (cell_okb_spec g rc Hwf). auto.
Qed.

Lemma not_full_has_empty (r : list Board.Cell) :
  ~ full r -> exists k, nth_error r k = Some None.
Proof.
  induction r as [|x r IH]; intros H.
  - exfalso. apply H. intros c [].
  - destruct x as [ty|]; [|now exists 0%nat].
    destruct IH as [k Hk].
    + intros Hr. apply H. intros c [<-|Hin]; [discriminate|now apply Hr].
    + now exists (S k).
Qed.

Lemma rows_have_an_empty_cell (g : Board.t) (r : Z) :
  wf_grid g -> Forall (fun rw => ~ full rw) g -> 0 <= r < BOARD_HEIGHT ->
  exists c, 0 <= c < BOARD_WIDTH /\ cell_at g r c = Some None.
Proof.
  intros Hwf Hnone Hr. pose proof Hwf as [Hlen Hrows].
  destruct (py_get_in_range g r) as (rw & Hnth & _); [lia|].
  assert (Hin : In rw g) by (eapply nth_error_In; eauto).
  rewrite Forall_forall in Hnone, Hrows.
  destruct (not_full_has_empty rw (Hnone rw Hin)) as [k Hk].
  assert (Hk' : (k < length rw)%nat) by (apply nth_error_Some; congruence).
  rewrite (Hrows rw Hin) in Hk'.
  exists (Z.of_nat k). split; [lia|].
  unfold cell_at.
  replace (0 <=? r) with true by (symmetry; apply Z.leb_le; lia).
  replace (0 <=? Z.of_nat k) with true by (symmetry; apply Z.leb_le; lia).
  simpl. now rewrite Hnth, Nat2Z.id.
Qed.

Section Invariants.
Variable random_shuffle : nat -> list Tetromino -> list Tetromino.
Variable get_ticks : nat -> Z.
Hypothesis shuffle_ok : shuffles_permute random_shuffle.

(** X9 -- Along a game the score and the number of lines cleared are
    never negative, the level is always [lines_cleared // 10 + 1]
    (hence at least 1), and the fall interval is always
    [max(100, 500 - (level - 1) * 50)], between 100 and 500 ms. *)
Theorem counters_along_a_game (s : Game.t) :
  reachable random_shuffle get_ticks s ->
  0 <= Game.score s /\ 0 <= Game.lines_cleared s /\
  Game.level s = Game.lines_cleared s / 10 + 1 /\ 1 <= Game.level s /\
  Game.fall_speed s = Z.max 100 (FALL_SPEED - (Game.level s - 1) * 50) /\
  100 <= Game.fall_speed s <= 500.
Proof.
  intros Hreach.
  destruct (reachable_sound random_shuffle get_ticks shuffle_ok s Hreach)
    as (_ & Hc & _).
  pose proof (counters_level_positive s Hc) as Hlv.
  destruct Hc as (H1 & H2 & H3 & H4).
  repeat (split; [assumption|]).
  rewrite H4. unfold FALL_SPEED. lia.
Qed.

(** X10 -- Along a game, as long as it is not over, there is a current
    piece with one of the four rotation indices, and each of its four
    cells has its column in [0, 10), its row below 20 and, from row 0
    on, an empty cell of the board under it: the falling piece never
    overlaps the locked cells nor leaves the board sideways or
    downwards.  The next piece waits at the spawn position. *)
Theorem falling_piece_always_fits (s : Game.t) :
  reachable random_shuffle get_ticks s ->
  (Game.game_over s = false ->
   exists p cells,
     Game.current_piece s = Some p /\ valid_rotation p /\
     Piece.get_cells p = Done cells /\ Forall (cell_ok (Game.board s)) cells) /\
  exists ty, Game.next_piece s = Some (Piece.init ty).
Proof.
  intros Hreach.
  destruct (reachable_sound random_shuffle get_ticks shuffle_ok s Hreach)
    as ((Hg & Hcv & _) & _ & (Hplay & Hnext) & _).
  split; [|exact Hnext].
  intros Hover. destruct (Hplay Hover) as (p & Hcur & Hfit).
  destruct (piece_fits_cells (Game.board s) p Hg (Hcv p Hcur) Hfit) as (cells & Hc & Hall).
  exists p, cells. auto.
Qed.

Lemma move_piece_board (s s' : Game.t) (d_row d_col : Z) (b : bool) :
  wf_game s -> Game.move_piece d_row d_col s = Done (b, s') ->
  Game.board s' = Game.board s.
Proof.
  intros (Hg & Hcv & _) Hrun.
  destruct (Game.current_piece s) as [p|] eqn:Hcur.
  - rewrite (move_piece_fits s p d_row d_col Hg Hcur (Hcv p eq_refl)) in Hrun.
    cbv zeta in Hrun. injection Hrun as _ <-. now destruct (piece_fits _ _).
  - unfold Game.move_piece in Hrun. munfold_in Hrun. rewrite Hcur in Hrun.
    now injection Hrun as _ <-.
Qed.

Lemma rotate_piece_board (s s' : Game.t) (clockwise b : bool) :
  wf_game s -> Game.rotate_piece clockwise s = Done (b, s') ->
  Game.board s' = Game.board s.
Proof.
  intros (Hg & Hcv & _) Hrun.
  destruct (Game.current_piece s) as [p|] eqn:Hcur.
  - rewrite (rotate_piece_result s p clockwise Hg Hcur) in Hrun.
    destruct (valid_at _ _ _ 0); [now injection Hrun as _ <-|].
    destruct (find _ _); now injection Hrun as _ <-.
  - unfold Game.rotate_piece in Hrun. munfold_in Hrun. rewrite Hcur in Hrun.
    now injection Hrun as _ <-.
Qed.

Lemma lock_piece_board_settled (s s' : Game.t) (p : Piece.t) :
  wf_game s -> bag_ok s -> Game.current_piece s = Some p ->
  Game.lock_piece random_shuffle get_ticks s = Done (tt, s') ->
  complete_rows (Game.board s') = 0%nat.
Proof.
  intros Hwf Hbag Hcur Hrun.
  destruct (lock_piece_as_spawn random_shuffle get_ticks s p Hwf Hcur)
    as (g1 & g2 & n & Hlock & Hclear & Hwf2 & _ & E).
  assert (Hg1 : wf_grid g1).
  { destruct Hwf as (Hg & Hcv & _).
    destruct (lock_piece_result (Game.board s) p Hg (Hcv p Hcur))
      as (cells & g1' & _ & Hlock' & Hwf1 & _).
    congruence. }
  rewrite (clear_lines_result g1 (proj1 Hg1)) in Hclear. injection Hclear as _ <-.
  rewrite E in Hrun. unfold Game.bind in Hrun.
  destruct (after_clear_frame n
              (repeat Board.empty_row (complete_rows g1) ++ remaining_rows g1) s)
    as (Hb & Hnx & Hbg & _).
  match type of Hrun with
  | context [Game.spawn_piece _ _ ?mid] =>
      destruct (spawn_piece_facts random_shuffle get_ticks shuffle_ok mid)
        as (q & ty & s2 & Hsp & _ & _ & _ & _ & _ & Hboard & _)
  end.
  - now rewrite Hb.
  - unfold bag_ok. now rewrite Hbg.
  - rewrite Hnx. apply Hwf.
  - rewrite Hsp in Hrun. munfold_in Hrun. injection Hrun as <-.
    rewrite Hboard, Hb. apply complete_rows_after_clear.
Qed.

Lemma reachable_board_settled (s : Game.t) :
  reachable random_shuffle get_ticks s ->
  sound s /\ complete_rows (Game.board s) = 0%nat.
Proof.
  apply (reachable_keeps random_shuffle get_ticks
           (fun s => sound s /\ complete_rows (Game.board s) = 0%nat)).
  - intros s1 v [(Hw & Hc & Hp & Hb) H]. split; [|exact H].
    exact (conj Hw (conj Hc (conj Hp Hb))).
  - intros s1 v [(Hw & Hc & Hp & Hb) H]. split; [|exact H].
    exact (conj Hw (conj Hc (conj Hp Hb))).
  - intros s1 v [(Hw & Hc & Hp & Hb) H]. split; [|exact H].
    exact (conj Hw (conj Hc (conj Hp Hb))).
  - intros s1 [(Hw & Hc & Hp & Hb) H]. split; [|exact H].
    split; [exact Hw|]. split; [|split; assumption].
    destruct Hc as (H1 & H2 & H3 & H4). unfold counters_ok. game_fields.
    repeat split; try assumption. lia.
  - intros s1 s2 dr dc b _ [Hs H] Hrun. split.
    + eapply move_piece_sound; eauto.
    + rewrite (move_piece_board s1 s2 dr dc b (proj1 Hs) Hrun). exact H.
  - intros s1 s2 cw b [Hs H] Hrun. split.
    + eapply rotate_piece_sound; eauto.
    + rewrite (rotate_piece_board s1 s2 cw b (proj1 Hs) Hrun). exact H.
  - intros s1 s2 [Hs H] _ Hrun. split.
    + eapply lock_piece_sound; eauto.
    + destruct (Game.current_piece s1) as [p|] eqn:Hcur.
      * eapply lock_piece_board_settled; eauto; apply Hs.
      * unfold Game.lock_piece in Hrun. munfold_in Hrun. rewrite Hcur in Hrun.
        now injection Hrun as <-.
  - intros s1 s2 [Hs H] _ Hrun. split.
    + eapply hard_drop_sound; eauto.
    + pose proof Hs as ((Hg & Hcv & Hnv) & _ & _ & Hbag).
      destruct (Game.current_piece s1) as [p|] eqn:Hcur.
      * destruct (hard_drop_result random_shuffle get_ticks s1 p Hg Hcur (Hcv p eq_refl))
          as (n & landed & cells & _ & Hlanded & _ & _ & _ & Hd).
        rewrite Hd in Hrun.
        match type of Hrun with
        | Game.lock_piece _ _ ?x = _ =>
            apply (lock_piece_board_settled x s2 landed); [| |reflexivity|exact Hrun]
        end.
        -- split; [exact Hg|]. split; [|exact Hnv].
           intros q Hq. injection Hq as <-. subst landed. exact (Hcv p eq_refl).
        -- exact Hbag.
      * unfold Game.hard_drop in Hrun. munfold_in Hrun. rewrite Hcur in Hrun.
        now injection Hrun as <-.
  - intros s0 s1 Hrun. split; [eapply reset_game_sound; eauto|].
    destruct (reset_game_facts random_shuffle get_ticks shuffle_ok s0)
      as (ty1 & ty2 & bag & s' & Hrun' & _ & ->).
    rewrite Hrun' in Hrun. injection Hrun as <-. reflexivity.
Qed.

(** X11 -- Along a game the board has 20 rows of 10 cells and never
    shows a full row between two commands: every lock is followed by
    the clearing of the lines it completed, so that each of the 20 rows
    has an empty cell. *)
Theorem board_along_a_game (s : Game.t) :
  reachable random_shuffle get_ticks s ->
  wf_grid (Game.board s) /\
  Forall (fun r => ~ full r) (Game.board s) /\
  forall r, 0 <= r < BOARD_HEIGHT ->
    exists c, 0 <= c < BOARD_WIDTH /\ cell_at (Game.board s) r c = Some None.
Proof.
  intros Hreach.
  destruct (reachable_board_settled s Hreach) as [((Hg & _) & _) H0].
  apply no_complete_row_iff in H0.
  split; [exact Hg|]. split; [exact H0|].
  intros r Hr. now apply rows_have_an_empty_cell.
Qed.
End Invariants.

(** ** Pause, soft drop and gravity *)

Lemma set_paused_same (s : Game.t) : Game.set_paused (Game.paused s) s = s.
Proof. destruct s; reflexivity. Qed.

Section Playing.
Variable random_shuffle : nat -> list Tetromino -> list Tetromino.
Variable get_ticks : nat -> Z.

(** X12 -- In a game that is not over, the P key flips the pause flag
    and nothing else, so that pressing it twice gives the state back;
    while the game is paused, [update] and every event but P and ESC
    (the R key too) leave the state as it is. *)
Theorem pause_freezes_and_resumes (s : Game.t) (event : Event) :
  Game.game_over s = false ->
  Game.handle_input random_shuffle get_ticks (KEYDOWN K_p) s =
    Done (tt, Game.set_paused (negb (Game.paused s)) s) /\
  Game.bind (Game.handle_input random_shuffle get_ticks (KEYDOWN K_p))
    (fun _ => Game.handle_input random_shuffle get_ticks (KEYDOWN K_p)) s =
    Done (tt, s) /\
  (Game.paused s = true ->
   Game.update random_shuffle get_ticks s = Done (tt, s) /\
   (inert_when_paused event = true ->
    Game.handle_input random_shuffle get_ticks event s = Done (tt, s))).
Proof.
  intros Hover.
  assert (Hp : forall s1, Game.game_over s1 = false ->
            Game.handle_input random_shuffle get_ticks (KEYDOWN K_p) s1 =
              Done (tt, Game.set_paused (negb (Game.paused s1)) s1)).
  { intros s1 H1. unfold Game.handle_input. munfold. now rewrite H1. }
  split; [now apply Hp|]. split.
  - unfold Game.bind. rewrite (Hp s Hover). rewrite Hp by exact Hover.
    game_fields. rewrite negb_involutive.
    destruct s; reflexivity.
  - intros Hpaused. split.
    + unfold Game.update. munfold. rewrite Hover, Hpaused. reflexivity.
    + intros Hev. destruct event as [key|]; [|reflexivity].
      destruct key; try discriminate;
        unfold Game.handle_input; munfold; now rewrite Hover, Hpaused.
Qed.

(** X13 -- The soft drop (DOWN key on a running game): when the board
    accepts the piece one row lower, the piece goes there, the score
    grows by 1 and the fall timer is set to the clock; otherwise the
    state is as it was, with no point and no lock. *)
Theorem soft_drop_spec (s : Game.t) (p : Piece.t) :
  wf_grid (Game.board s) -> Game.current_piece s = Some p -> valid_rotation p ->
  Game.game_over s = false -> Game.paused s = false ->
  let q := Piece.mk (Piece.type p) (Piece.rotation_index p)
             (Piece.row p + 1) (Piece.col p) in
  Game.handle_input random_shuffle get_ticks (KEYDOWN K_DOWN) s =
    Done (tt,
          if piece_fits (Game.board s) q
          then Game.set_last_fall_time (get_ticks (Game.tick_reads s))
                 (Game.set_tick_reads (S (Game.tick_reads s))
                    (Game.set_score (Game.score s + 1)
                       (Game.set_current_piece (Some q) s)))
          else s).
Proof.
  intros Hwf Hcur Hrot Hover Hpaused q.
  pose proof (move_piece_fits s p 1 0 Hwf Hcur Hrot) as Hm.
  cbv zeta in Hm. unfold placed in Hm. rewrite Z.add_0_r in Hm. fold q in Hm.
  unfold Game.handle_input, Game.pygame_time_get_ticks.
  unfold Game.bind at 1. unfold Game.gets at 1. rewrite Hover.
  unfold Game.bind at 1. unfold Game.gets at 1. rewrite Hpaused.
  unfold Game.bind at 1. rewrite Hm.
  destruct (piece_fits (Game.board s) q); reflexivity.
Qed.

(** X14 -- Gravity ([update] on a running game): before the fall
    interval has elapsed nothing changes (the clock was read); once it
    has, the piece goes one row down when the board accepts it there,
    and is locked by [lock_piece] when not; in both cases the fall
    timer becomes the time read at the start of the call. *)
Theorem update_applies_gravity (s : Game.t) (p : Piece.t) :
  wf_grid (Game.board s) -> Game.current_piece s = Some p -> valid_rotation p ->
  Game.game_over s = false -> Game.paused s = false ->
  let now := get_ticks (Game.tick_reads s) in
  let s1 := Game.set_tick_reads (S (Game.tick_reads s)) s in
  let q := Piece.mk (Piece.type p) (Piece.rotation_index p)
             (Piece.row p + 1) (Piece.col p) in
  Game.update random_shuffle get_ticks s =
    if now - Game.last_fall_time s >=? Game.fall_speed s then
      if piece_fits (Game.board s) q
      then Done (tt, Game.set_last_fall_time now (Game.set_current_piece (Some q) s1))
      else
        match Game.lock_piece random_shuffle get_ticks s1 with
        | Done (_, s2) => Done (tt, Game.set_last_fall_time now s2)
        | Raise e => Raise e
        | Timeout => Timeout
        end
    else Done (tt, s1).
Proof.
  intros Hwf Hcur Hrot Hover Hpaused now s1 q.
  pose proof (move_piece_fits s1 p 1 0 Hwf Hcur Hrot) as Hm.
  cbv zeta in Hm. unfold placed in Hm. rewrite Z.add_0_r in Hm. fold q in Hm.
  unfold Game.update, Game.pygame_time_get_ticks.
  unfold Game.bind at 1 2. unfold Game.gets at 1 2. rewrite Hover, Hpaused.
  cbn [orb].
  unfold Game.bind at 1 2 3. unfold Game.gets at 1.
  unfold Game.modify at 1. unfold Game.ret at 1.
  unfold Game.bind at 1 2. unfold Game.gets at 1 2.
  fold s1. fold now. change (Game.last_fall_time s1) with (Game.last_fall_time s).
  change (Game.fall_speed s1) with (Game.fall_speed s).
  destruct (now - Game.last_fall_time s >=? Game.fall_speed s); [|reflexivity].
  unfold Game.bind at 1 2. rewrite Hm.
  change (Game.board s1) with (Game.board s).
  destruct (piece_fits (Game.board s) q); cbn [negb]; cbv beta iota.
  - reflexivity.
  - destruct (Game.lock_piece random_shuffle get_ticks s1) as [[[] s2]| |]; reflexivity.
Qed.
End Playing.

(** ** The ghost, the hard drop and the way back *)

(** The row at which the ghost loop stops: every row passed on the way
    is accepted by the board, the next one is not. *)
Lemma ghost_loop_stops_at_rest (fuel : nat) (g : Board.t) (p : Piece.t) :
  forall r r' : Z,
    Game.ghost_loop fuel g p r = Done r' ->
    r <= r' /\
    piece_fits g (placed p (r' + 1) (Piece.col p) (Piece.rotation_index p)) = false /\
    forall k, r < k <= r' ->
      piece_fits g (placed p k (Piece.col p) (Piece.rotation_index p)) = true.
Proof.
  induction fuel as [|fuel IH]; intros r r' H; [discriminate|].
  cbn [Game.ghost_loop] in H.
  assert (E : piece_fits g (placed p (r + 1) (Piece.col p) (Piece.rotation_index p)) =
              match Piece.get_cells_at p (r + 1) (Piece.col p) (Piece.rotation_index p) with
              | Done cells =>
                  match Board.is_valid_position g cells with
                  | Done true => true
                  | _ => false
                  end
              | _ => false
              end) by reflexivity.
  destruct (Piece.get_cells_at p (r + 1) (Piece.col p) (Piece.rotation_index p))
    as [cells| |]; simpl obind in H; try discriminate.
  destruct (Board.is_valid_position g cells) as [[|]| |]; simpl obind in H;
    try discriminate.
  - destruct (IH (r + 1) r' H) as (Hle & Hstop & Hpath).
    split; [lia|]. split; [exact Hstop|].
    intros k Hk. destruct (Z.eq_dec k (r + 1)) as [->|Hne]; [exact E|].
    apply Hpath. lia.
  - injection H as <-. split; [lia|]. split; [exact E|]. intros k Hk. lia.
Qed.

(** X15 -- The ghost is the resting place of the piece: it lies [n >= 0]
    rows under the piece, same column and rotation; the board accepts
    the piece at each of the rows passed on the way down and refuses it
    one row under the ghost. *)
Theorem ghost_is_the_resting_place (s : Game.t) (p : Piece.t) :
  wf_grid (Game.board s) -> Game.current_piece s = Some p -> valid_rotation p ->
  exists (n : Z) (cells : list Coord),
    0 <= n /\
    Game.get_ghost_position s = Done cells /\
    Piece.get_cells_at p (Piece.row p + n) (Piece.col p) (Piece.rotation_index p) =
      Done cells /\
    (forall k, 0 < k <= n ->
       piece_fits (Game.board s)
         (Piece.mk (Piece.type p) (Piece.rotation_index p) (Piece.row p + k)
            (Piece.col p)) = true) /\
    piece_fits (Game.board s)
      (Piece.mk (Piece.type p) (Piece.rotation_index p) (Piece.row p + n + 1)
         (Piece.col p)) = false.
Proof.
  intros Hwf Hcur Hrot.
  assert (Hcur' : Game.current_piece s =
                    Some (placed p (Piece.row p) (Piece.col p) (Piece.rotation_index p)))
    by now rewrite placed_same.
  destruct (fall_loops_agree (Game.fall_fuel p) s p (Piece.row p) 0 Hwf Hrot Hcur')
    as (r' & Hle & Hghost & _); [unfold Game.fall_fuel; lia|].
  destruct (ghost_loop_stops_at_rest _ _ _ _ _ Hghost) as (_ & Hstop & Hpath).
  destruct (get_cells_at_valid p r' (Piece.col p) (Piece.rotation_index p) Hrot)
    as (offs & _ & _ & _ & Hcells).
  exists (r' - Piece.row p). eexists.
  split; [lia|].
  split; [unfold Game.get_ghost_position; rewrite Hcur, Hghost; exact Hcells|].
  replace (Piece.row p + (r' - Piece.row p)) with r' by lia.
  split; [exact Hcells|]. split.
  - intros k Hk. apply (Hpath (Piece.row p + k)). lia.
  - exact Hstop.
Qed.

Section HardDrop.
Variable random_shuffle : nat -> list Tetromino -> list Tetromino.
Variable get_ticks : nat -> Z.
Hypothesis shuffle_ok : shuffles_permute random_shuffle.

(** X16 -- [hard_drop] raises nothing and pays 2 points for each of
    the [n] rows between the piece and its ghost, then what the lock
    pays: [scores_get m * level] for the [m] lines it clears, at the
    level held before the drop.  The lines cleared so far grow by
    [m]. *)
Theorem hard_drop_score (s : Game.t) (p : Piece.t) :
  wf_game s -> Game.current_piece s = Some p ->
  exists (n m : Z) (cells : list Coord) (s' : Game.t),
    0 <= n /\ 0 <= m /\
    Game.get_ghost_position s = Done cells /\
    Piece.get_cells_at p (Piece.row p + n) (Piece.col p) (Piece.rotation_index p) =
      Done cells /\
    Game.hard_drop random_shuffle get_ticks s = Done (tt, s') /\
    Game.score s' = Game.score s + 2 * n + Game.scores_get m * Game.level s /\
    Game.lines_cleared s' = Game.lines_cleared s + m.
Proof.
  intros Hwf Hcur. pose proof Hwf as (Hg & Hcv & Hnv).
  destruct (hard_drop_result random_shuffle get_ticks s p Hg Hcur (Hcv p Hcur))
    as (n & landed & cells & Hn & Hlanded & _ & Hghost & Hcells & Hd).
  match type of Hd with
  | _ = Game.lock_piece _ _ ?x =>
      destruct (lock_piece_total random_shuffle get_ticks shuffle_ok x landed)
        as (g1 & g2 & m & s' & _ & _ & Hm & Hl & _ & Hpos & Hzero)
  end.
  { split; [exact Hg|]. split; [|exact Hnv].
    intros q Hq. injection Hq as <-. subst landed. exact (Hcv p Hcur). }
  { reflexivity. }
  exists n, m, cells, s'.
  split; [exact Hn|]. split; [exact Hm|]. split; [exact Hghost|].
  split; [subst landed; exact Hcells|].
  split; [now rewrite Hd|].
  game_fields_in Hpos. game_fields_in Hzero.
  destruct (Z.eq_dec m 0) as [->|Hne].
  - destruct (Hzero eq_refl) as (H1 & H2 & _). rewrite H1, H2.
    change (Game.scores_get 0) with 0. split; lia.
  - destruct (Hpos ltac:(lia)) as (H1 & H2 & _). rewrite H1, H2. split; lia.
Qed.
End HardDrop.

Lemma set_current_piece_back (s : Game.t) (p q : Piece.t) :
  Game.current_piece s = Some p ->
  Game.set_current_piece (Some p) (Game.set_current_piece (Some q) s) = s.
Proof. intros H. destruct s; simpl in *; now subst. Qed.

(** X17 -- A move that succeeded is undone by the opposite move: when
    the board accepts the current piece where it is and
    [move_piece d_row d_col] returns true, [move_piece (-d_row) (-d_col)]
    returns true as well and gives the first state back. *)
Theorem move_piece_round_trip (s s1 : Game.t) (p : Piece.t) (d_row d_col : Z) :
  wf_grid (Game.board s) -> Game.current_piece s = Some p -> valid_rotation p ->
  piece_fits (Game.board s) p = true ->
  Game.move_piece d_row d_col s = Done (true, s1) ->
  Game.move_piece (- d_row) (- d_col) s1 = Done (true, s).
Proof.
  intros Hwf Hcur Hrot Hfit Hmove.
  rewrite (move_piece_fits s p d_row d_col Hwf Hcur Hrot) in Hmove.
  cbv zeta in Hmove. injection Hmove as Hb <-. rewrite Hb.
  set (q := placed p (Piece.row p + d_row) (Piece.col p + d_col)
              (Piece.rotation_index p)).
  rewrite (move_piece_fits (Game.set_current_piece (Some q) s) q (- d_row) (- d_col));
    [|exact Hwf|reflexivity|exact Hrot].
  cbv zeta. game_fields.
  assert (E : placed q (Piece.row q + - d_row) (Piece.col q + - d_col)
                (Piece.rotation_index q) = p).
  { destruct p as [ty i r c]. unfold q, placed. simpl. f_equal; lia. }
  rewrite E, Hfit. now rewrite set_current_piece_back.
Qed.

(** ** The bag along a game *)

Lemma In_TETROMINOES_keys (ty : Tetromino) : In ty TETROMINOES_keys.
Proof. destruct ty; simpl; tauto. Qed.

Section Drought.
Variable random_shuffle : nat -> list Tetromino -> list Tetromino.
Variable get_ticks : nat -> Z.
Hypothesis shuffle_ok : shuffles_permute random_shuffle.

Lemma draw_returns (n : nat) :
  forall s : Game.t,
    exists l s', draw random_shuffle n s = Done (l, s') /\ length l = n.
Proof.
  induction n as [|n IH]; intros s.
  - exists [], s. split; reflexivity.
  - destruct (get_next_piece_type_total random_shuffle shuffle_ok s)
      as (x & bag & k & Hx).
    simpl. unfold Game.bind at 1. rewrite Hx.
    destruct (IH (Game.set_piece_bag bag (Game.set_shuffles k s))) as (l & s' & Hl & Hlen).
    unfold Game.bind at 1. rewrite Hl. exists (x :: l), s'.
    split; [reflexivity|simpl; now rewrite Hlen].
Qed.

Lemma draw_thirteen (s : Game.t) :
  (length (Game.piece_bag s) <= 6)%nat ->
  exists l s',
    draw random_shuffle 13 s = Done (l, s') /\ length l = 13%nat /\
    forall ty, In ty l.
Proof.
  intros Hlen. set (m := length (Game.piece_bag s)) in *.
  replace 13%nat with (m + (7 + (6 - m)))%nat by lia.
  pose proof (draw_bag random_shuffle (Game.piece_bag s) s eq_refl) as H1.
  fold m in H1.
  destruct (draw_seven random_shuffle shuffle_ok (Game.set_piece_bag [] s) eq_refl)
    as (c & s2 & H2 & Hc & Hperm & _).
  destruct (draw_returns (6 - m) s2) as (l3 & s3 & H3 & Hl3).
  exists (rev (Game.piece_bag s) ++ (c ++ l3)), s3.
  split.
  { rewrite draw_add. unfold Game.bind at 1. rewrite H1.
    unfold Game.bind at 1. rewrite draw_add.
    unfold Game.bind at 1. rewrite H2.
    unfold Game.bind at 1. rewrite H3. reflexivity. }
  split.
  { rewrite !length_app, length_rev. fold m. lia. }
  intros ty. apply in_or_app. right. apply in_or_app. left.
  apply (Permutation_in ty (Permutation_sym Hperm)), In_TETROMINOES_keys.
Qed.

(** X18 -- Along a game the bag never holds a type twice nor more than
    six types between two commands, and from any state with at most six
    types in the bag the next 13 results of [get_next_piece_type]
    contain each of the seven types: no type stays away for more than
    12 pieces. *)
Theorem no_type_is_missing_for_long (s : Game.t) :
  (reachable random_shuffle get_ticks s ->
   NoDup (Game.piece_bag s) /\ (length (Game.piece_bag s) <= 6)%nat) /\
  ((length (Game.piece_bag s) <= 6)%nat ->
   exists l s',
     draw random_shuffle 13 s = Done (l, s') /\ length l = 13%nat /\
     forall ty, In ty l).
Proof.
  split.
  - intros Hreach.
    destruct (reachable_sound random_shuffle get_ticks shuffle_ok s Hreach)
      as (_ & _ & _ & Hbag).
    exact Hbag.
  - apply draw_thirteen.
Qed.
End Drought.

(** ** Nothing is lost within a game *)

Lemma grows_refl (s : Game.t) : grows s s.
Proof. unfold grows. lia. Qed.

Lemma grows_trans (s1 s2 s3 : Game.t) : grows s1 s2 -> grows s2 s3 -> grows s1 s3.
Proof. unfold grows. lia. Qed.

Lemma after_clear_grows (lines : Z) (grid : Board.t) (s : Game.t) :
  counters_ok s -> 0 <= lines -> grows s (after_clear lines grid s).
Proof.
  intros Hc Hn. pose proof (counters_level_positive s Hc) as Hlv.
  destruct Hc as (Hs & Hl & Hlevel & Hspeed).
  unfold after_clear. destruct (lines >? 0); cbv zeta;
    [|unfold grows; game_fields; lia].
  unfold grows. game_fields.
  pose proof (scores_get_nonneg lines) as Hsc.
  assert (Hdiv : Game.lines_cleared s / 10 <= (Game.lines_cleared s + lines) / 10)
    by (apply Z.div_le_mono; lia).
  rewrite Hspeed, Hlevel. unfold FALL_SPEED.
  repeat split; try nia; lia.
Qed.

Section Growth.
Variable random_shuffle : nat -> list Tetromino -> list Tetromino.
Variable get_ticks : nat -> Z.
Hypothesis shuffle_ok : shuffles_permute random_shuffle.

Lemma move_piece_grows (s s' : Game.t) (d_row d_col : Z) (b : bool) :
  wf_game s -> Game.move_piece d_row d_col s = Done (b, s') -> grows s s'.
Proof.
  intros (Hg & Hcv & _) Hrun.
  destruct (Game.current_piece s) as [p|] eqn:Hcur.
  - rewrite (move_piece_fits s p d_row d_col Hg Hcur (Hcv p eq_refl)) in Hrun.
    cbv zeta in Hrun. injection Hrun as _ <-.
    destruct (piece_fits _ _); (unfold grows; game_fields; lia).
  - unfold Game.move_piece in Hrun. munfold_in Hrun. rewrite Hcur in Hrun.
    injection Hrun as _ <-. (unfold grows; game_fields; lia).
Qed.

Lemma rotate_piece_grows (s s' : Game.t) (clockwise b : bool) :
  wf_game s -> Game.rotate_piece clockwise s = Done (b, s') -> grows s s'.
Proof.
  intros (Hg & Hcv & _) Hrun.
  destruct (Game.current_piece s) as [p|] eqn:Hcur.
  - rewrite (rotate_piece_result s p clockwise Hg Hcur) in Hrun.
    destruct (valid_at _ _ _ 0); [injection Hrun as _ <-; (unfold grows; game_fields; lia)|].
    destruct (find _ _); injection Hrun as _ <-; (unfold grows; game_fields; lia).
  - unfold Game.rotate_piece in Hrun. munfold_in Hrun. rewrite Hcur in Hrun.
    injection Hrun as _ <-. (unfold grows; game_fields; lia).
Qed.

Lemma lock_piece_grows_some (s s' : Game.t) (p : Piece.t) :
  wf_game s -> counters_ok s -> bag_ok s -> Game.current_piece s = Some p ->
  Game.lock_piece random_shuffle get_ticks s = Done (tt, s') -> grows s s'.
Proof.
  intros Hwf Hc Hbag Hcur Hrun.
  destruct (lock_piece_as_spawn random_shuffle get_ticks s p Hwf Hcur)
    as (g1 & g2 & n & _ & _ & Hwf2 & Hn & E).
  rewrite E in Hrun. unfold Game.bind in Hrun.
  destruct (after_clear_frame n g2 s) as (Hb & Hnx & Hbg & _).
  pose proof (after_clear_grows n g2 s Hc Hn) as Hgrow.
  match type of Hrun with
  | context [Game.spawn_piece _ _ ?mid] =>
      destruct (spawn_piece_facts random_shuffle get_ticks shuffle_ok mid)
        as (q & ty & s2 & Hsp & _ & _ & _ & _ & _ & _ & Hsc & Hlv & Hli & Hfs & _)
  end.
  - now rewrite Hb.
  - unfold bag_ok. now rewrite Hbg.
  - rewrite Hnx. apply Hwf.
  - rewrite Hsp in Hrun. munfold_in Hrun. injection Hrun as <-.
    unfold grows in *. rewrite Hsc, Hlv, Hli, Hfs. exact Hgrow.
Qed.

Lemma lock_piece_grows (s s' : Game.t) :
  sound s -> Game.lock_piece random_shuffle get_ticks s = Done (tt, s') -> grows s s'.
Proof.
  intros (Hwf & Hc & _ & Hbag) Hrun.
  destruct (Game.current_piece s) as [p|] eqn:Hcur.
  - now apply (lock_piece_grows_some s s' p).
  - unfold Game.lock_piece in Hrun. munfold_in Hrun. rewrite Hcur in Hrun.
    injection Hrun as <-. apply grows_refl.
Qed.

Lemma hard_drop_grows (s s' : Game.t) :
  sound s -> Game.hard_drop random_shuffle get_ticks s = Done (tt, s') -> grows s s'.
Proof.
  intros ((Hg & Hcv & Hnv) & Hc & _ & Hbag) Hrun.
  destruct (Game.current_piece s) as [p|] eqn:Hcur.
  - destruct (hard_drop_result random_shuffle get_ticks s p Hg Hcur (Hcv p eq_refl))
      as (n & landed & cells & Hn & Hlanded & _ & _ & _ & Hd).
    rewrite Hd in Hrun.
    match type of Hrun with
    | Game.lock_piece _ _ ?x = _ =>
        apply (lock_piece_grows_some x s' landed) in Hrun;
        [apply (grows_trans s x s'); [|exact Hrun]| | | |reflexivity]
    end.
    + unfold grows. game_fields. lia.
    + split; [exact Hg|]. split; [|exact Hnv].
      intros q Hq. injection Hq as <-. subst landed. exact (Hcv p eq_refl).
    + destruct Hc as (H1 & H2 & H3 & H4). unfold counters_ok. game_fields.
      repeat split; try assumption. lia.
    + exact Hbag.
  - unfold Game.hard_drop in Hrun. munfold_in Hrun. rewrite Hcur in Hrun.
    injection Hrun as <-. apply grows_refl.
Qed.

(** The invariant "sound, and not below [s0]". *)
Lemma since_tick_reads (s0 s : Game.t) (v : nat) :
  sound s /\ grows s0 s ->
  sound (Game.set_tick_reads v s) /\ grows s0 (Game.set_tick_reads v s).
Proof. intros [(Hw & Hc & Hp & Hb) H]. split; [exact (conj Hw (conj Hc (conj Hp Hb)))|exact H]. Qed.

Lemma since_last_fall_time (s0 s : Game.t) (v : Z) :
  sound s /\ grows s0 s ->
  sound (Game.set_last_fall_time v s) /\ grows s0 (Game.set_last_fall_time v s).
Proof. intros [(Hw & Hc & Hp & Hb) H]. split; [exact (conj Hw (conj Hc (conj Hp Hb)))|exact H]. Qed.

Lemma since_paused (s0 s : Game.t) (v : bool) :
  sound s /\ grows s0 s ->
  sound (Game.set_paused v s) /\ grows s0 (Game.set_paused v s).
Proof. intros [(Hw & Hc & Hp & Hb) H]. split; [exact (conj Hw (conj Hc (conj Hp Hb)))|exact H]. Qed.

Lemma since_soft_drop (s0 s : Game.t) :
  sound s /\ grows s0 s ->
  sound (Game.set_score (Game.score s + 1) s) /\
  grows s0 (Game.set_score (Game.score s + 1) s).
Proof.
  intros [(Hw & Hc & Hp & Hb) H]. split.
  - split; [exact Hw|]. split; [|split; assumption].
    destruct Hc as (H1 & H2 & H3 & H4). unfold counters_ok. game_fields.
    repeat split; try assumption. lia.
  - unfold grows in *. game_fields. lia.
Qed.

(** X19 -- Within a game nothing is lost: a call of [update], or of
    [handle_input] (the R key after game over apart, which starts a new
    game), never lowers the score, the number of lines cleared or the
    level, and never raises the fall interval. *)
Theorem nothing_is_lost_within_a_game (s s' : Game.t) (event : Event) :
  reachable random_shuffle get_ticks s ->
  (Game.update random_shuffle get_ticks s = Done (tt, s') -> grows s s') /\
  (Game.game_over s = false \/ event <> KEYDOWN K_r ->
   Game.handle_input random_shuffle get_ticks event s = Done (tt, s') -> grows s s').
Proof.
  intros Hreach.
  pose proof (reachable_sound random_shuffle get_ticks shuffle_ok s Hreach) as Hs.
  assert (Hstart : sound s /\ grows s s) by (split; [exact Hs|apply grows_refl]).
  split.
  - intros Hrun.
    apply (update_keeps random_shuffle get_ticks (fun x => sound x /\ grows s x))
      with (s := s) (s' := s'); [| | | |exact Hstart|exact Hrun].
    + intros x v. apply since_tick_reads.
    + intros x v. apply since_last_fall_time.
    + intros x y dr dc b _ [Hx Hg] Hm. split; [eapply move_piece_sound; eauto|].
      eapply grows_trans; [exact Hg|]. eapply move_piece_grows; eauto. apply Hx.
    + intros x y [Hx Hg] _ Hl. split; [eapply lock_piece_sound; eauto|].
      eapply grows_trans; [exact Hg|]. eapply lock_piece_grows; eauto.
  - intros Hev Hrun.
    destruct (Game.game_over s) eqn:Hover.
    + destruct Hev as [Hev|Hev]; [discriminate|].
      assert (Hq : restarts_or_quits (Input event) = false).
      { destruct event as [[]|]; try reflexivity; [discriminate Hrun|congruence]. }
      rewrite (handle_input_game_over random_shuffle get_ticks s event Hover Hq) in Hrun.
      injection Hrun as <-. apply grows_refl.
    + apply (handle_input_keeps_running random_shuffle get_ticks
               (fun x => sound x /\ grows s x))
        with (s := s) (s' := s') (event := event);
        [| | | | | | |exact Hstart|exact Hover|exact Hrun].
      * intros x v. apply since_tick_reads.
      * intros x v. apply since_last_fall_time.
      * intros x v. apply since_paused.
      * intros x. apply since_soft_drop.
      * intros x y dr dc b _ [Hx Hg] Hm. split; [eapply move_piece_sound; eauto|].
        eapply grows_trans; [exact Hg|]. eapply move_piece_grows; eauto. apply Hx.
      * intros x y cw b [Hx Hg] Hm. split; [eapply rotate_piece_sound; eauto|].
        eapply grows_trans; [exact Hg|]. eapply rotate_piece_grows; eauto. apply Hx.
      * intros x y [Hx Hg] _ Hm. split; [eapply hard_drop_sound; eauto|].
        eapply grows_trans; [exact Hg|]. eapply hard_drop_grows; eauto.
Qed.
End Growth.

(** ** Locking fills four cells *)

Lemma occupied_in_row_write (rw : list Board.Cell) (c : nat) (ty : Tetromino) :
  nth_error rw c = Some None ->
  occupied_in_row (replace_nth c (Some ty) rw) = S (occupied_in_row rw).
Proof.
  unfold occupied_in_row. revert c.
  induction rw as [|x rw IH]; intros [|c] H; simpl in H; try discriminate.
  - injection H as ->. reflexivity.
  - simpl. destruct (Board.is_not_None x); simpl; now rewrite (IH c H).
Qed.

Lemma list_sum_map_replace_nth {A : Type} (f : A -> nat) (l : list A) (k : nat) (x x' : A) :
  nth_error l k = Some x -> f x' = S (f x) ->
  list_sum (map f (replace_nth k x' l)) = S (list_sum (map f l)).
Proof.
  revert k. induction l as [|a l IH]; intros [|k] H Hf; simpl in H; try discriminate.
  - injection H as ->. simpl. lia.
  - simpl. rewrite (IH k H Hf). lia.
Qed.

Lemma occupied_write (g g' : Board.t) (rw rw' : list Board.Cell) (r0 c0 : Z)
  (ty : Tetromino) :
  wf_grid g -> in_board r0 c0 = true -> cell_at g r0 c0 = Some None ->
  py_get g r0 = Done rw -> py_set rw c0 (Some ty) = Done rw' ->
  py_set g r0 rw' = Done g' ->
  occupied g' = S (occupied g).
Proof.
  intros Hwf Hin Hempty Hget Hset Hset'.
  unfold in_board in Hin. rewrite !andb_true_iff, !Z.leb_le, !Z.ltb_lt in Hin.
  destruct (wf_grid_cell g r0 c0 Hwf) as (rw0 & x & Hnth & Hlen & Hget0 & _ & _);
    [lia|lia|].
  assert (rw0 = rw) by congruence. subst rw0.
  rewrite py_set_in_range in Hset by lia. injection Hset as <-.
  rewrite py_set_in_range in Hset' by (destruct Hwf as [-> _]; lia).
  injection Hset' as <-.
  unfold cell_at in Hempty.
  replace (0 <=? r0) with true in Hempty by (symmetry; apply Z.leb_le; lia).
  replace (0 <=? c0) with true in Hempty by (symmetry; apply Z.leb_le; lia).
  simpl in Hempty. rewrite Hnth in Hempty.
  unfold occupied.
  apply (list_sum_map_replace_nth occupied_in_row g (Z.to_nat r0) rw); [exact Hnth|].
  now apply occupied_in_row_write.
Qed.

Lemma lock_cells_adds (ty : Tetromino) (cells : list Coord) :
  forall g : Board.t,
    wf_grid g -> NoDup cells ->
    Forall (fun rc => in_board (fst rc) (snd rc) = true /\
                      cell_at g (fst rc) (snd rc) = Some None) cells ->
    exists g',
      Board.lock_cells g ty cells = Done g' /\
      occupied g' = (occupied g + length cells)%nat.
Proof.
  induction cells as [|[r0 c0] rest IH]; intros g Hwf Hnd Hall.
  - exists g. split; [reflexivity|simpl; lia].
  - inversion Hnd as [|? ? Hnotin Hnd']; subst.
    inversion Hall as [|? ? [Hin Hempty] Hall']; subst. simpl in Hin, Hempty.
    simpl. fold (in_board r0 c0). rewrite Hin.
    pose proof Hin as Hin'.
    unfold in_board in Hin'. rewrite !andb_true_iff, !Z.leb_le, !Z.ltb_lt in Hin'.
    destruct (grid_write g r0 c0 (Some ty) Hwf) as
      (rw & rw' & g1 & Hg & Hs & Hs' & Hwf1 & Hcell1); [lia|lia|].
    rewrite Hg. simpl. rewrite Hs. simpl. rewrite Hs'. simpl.
    pose proof (occupied_write g g1 rw rw' r0 c0 ty Hwf Hin Hempty Hg Hs Hs') as Hocc.
    destruct (IH g1 Hwf1 Hnd') as (g' & Hrun & Hocc').
    + rewrite Forall_forall in *. intros [r c] Hrc. specialize (Hall' (r, c) Hrc).
      simpl in *. split; [apply Hall'|]. rewrite Hcell1.
      destruct (coord_eqb (r, c) (r0, c0)) eqn:E; [|apply Hall'].
      apply coord_eqb_eq in E. inversion E; subst. contradiction.
    + exists g'. split; [exact Hrun|]. rewrite Hocc', Hocc. simpl. lia.
Qed.

(** The four cells of a piece that the board accepts and that has no
    cell above the top row. *)
Lemma fitting_cells (g : Board.t) (p : Piece.t) :
  wf_grid g -> valid_rotation p -> piece_fits g p = true -> 0 <= Piece.row p ->
  exists cells,
    Piece.get_cells p = Done cells /\ length cells = 4%nat /\ NoDup cells /\
    Forall (fun rc => in_board (fst rc) (snd rc) = true /\
                      cell_at g (fst rc) (snd rc) = Some None) cells.
Proof.
  intros Hwf Hrot Hfit Hrow.
  destruct (piece_fits_cells g p Hwf Hrot Hfit) as (cells & Hcells & Hok).
  destruct (catalog_offsets (Piece.type p) (Piece.rotation_index p) Hrot)
    as (offs & Hg & Hl & Hnd & Hbox).
  assert (E : cells = map (fun '(dr, dc) => (Piece.row p + dr, Piece.col p + dc)) offs).
  { unfold Piece.get_cells, Piece.get_cells_at, Piece.rotations in Hcells.
    rewrite Hg in Hcells. simpl in Hcells. congruence. }
  exists cells. split; [exact Hcells|].
  split; [subst cells; now rewrite length_map|].
  split.
  { subst cells. apply NoDup_map_injective; [|exact Hnd].
    intros [a b] [a' b'] H. injection H as H1 H2. f_equal; lia. }
  subst cells. rewrite Forall_forall in *. intros rc Hrc.
  pose proof (Hok rc Hrc) as Hcell.
  apply in_map_iff in Hrc. destruct Hrc as ([dr dc] & <- & Hd).
  specialize (Hbox (dr, dc) Hd). unfold in_box in Hbox. simpl in Hbox.
  unfold cell_ok in Hcell. simpl. destruct Hcell as (Hc & Hr & He).
  split; [|apply He; lia].
  unfold in_board. rewrite !andb_true_iff, !Z.leb_le, !Z.ltb_lt. lia.
Qed.

Lemma lock_piece_adds_four (g : Board.t) (p : Piece.t) :
  wf_grid g -> valid_rotation p -> piece_fits g p = true -> 0 <= Piece.row p ->
  exists g',
    Board.lock_piece g p = Done g' /\
    occupied g' = (occupied g + 4)%nat /\
    piece_fits g' p = false.
Proof.
  intros Hwf Hrot Hfit Hrow.
  destruct (fitting_cells g p Hwf Hrot Hfit Hrow) as (cells & Hcells & Hlen & Hnd & Hall).
  destruct (lock_cells_adds (Piece.type p) cells g Hwf Hnd Hall) as (g' & Hrun & Hocc).
  destruct (lock_cells_spec (Piece.type p) cells g Hwf) as (g2 & Hrun2 & Hwf2 & Hcell).
  assert (g2 = g') by congruence. subst g2.
  exists g'. split; [unfold Board.lock_piece; now rewrite Hcells|].
  split; [now rewrite Hocc, Hlen|].
  destruct (piece_fits_forallb g' p Hwf2 Hrot) as (cells' & Hcells' & Hvalid).
  assert (cells' = cells) by congruence. subst cells'.
  rewrite is_valid_position_forallb in Hvalid by assumption.
  injection Hvalid as <-.
  destruct cells as [|[r0 c0] rest]; [discriminate|].
  inversion Hall as [|? ? [Hin _] _]; subst. simpl in Hin.
  simpl. apply andb_false_iff. left.
  rewrite Hcell. unfold memb. simpl.
  assert (E : coord_eqb (r0, c0) (r0, c0) = true) by now apply coord_eqb_eq.
  rewrite E, Hin. simpl.
  unfold in_board in Hin. rewrite !andb_true_iff, !Z.leb_le in Hin.
  replace (0 <=? r0) with true by (symmetry; apply Z.leb_le; lia).
  now rewrite andb_false_r.
Qed.

(** X20 -- Locking a piece that the board accepts, none of its cells
    above the top row, fills exactly four cells that were empty: the
    number of occupied cells grows by 4, and afterwards the board no
    longer accepts the piece at that place. *)
Theorem lock_piece_fills_four_cells (g : Board.t) (p : Piece.t) :
  wf_grid g -> valid_rotation p -> piece_fits g p = true -> 0 <= Piece.row p ->
  exists g',
    Board.lock_piece g p = Done g' /\
    occupied g' = (occupied g + 4)%nat /\
    piece_fits g' p = false.
Proof. exact (lock_piece_adds_four g p). Qed.

(** ** Inside the board, and the count of cells *)

Lemma after_clear_lines (n : Z) (g : Board.t) (s : Game.t) :
  0 <= n -> Game.lines_cleared (after_clear n g s) = Game.lines_cleared s + n.
Proof.
  intros Hn. unfold after_clear.
  destruct (Z.gtb_spec n 0); cbv zeta; game_fields; lia.
Qed.

Section Conservation.
Variable random_shuffle : nat -> list Tetromino -> list Tetromino.
Variable get_ticks : nat -> Z.
Hypothesis shuffle_ok : shuffles_permute random_shuffle.

(** What a lock does to a state in which the piece fits. *)
Lemma lock_piece_visible (s s' : Game.t) (p : Piece.t) :
  sound s -> Game.current_piece s = Some p ->
  piece_fits (Game.board s) p = true -> 0 <= Piece.row p -> conserved s ->
  Game.lock_piece random_shuffle get_ticks s = Done (tt, s') ->
  below_top s' /\ conserved s'.
Proof.
  intros (Hwf & Hc & (_ & [ty Hnext]) & Hbag) Hcur Hfit Hrow Hcons Hrun.
  pose proof Hwf as (Hg & Hcv & Hnv).
  destruct (lock_piece_as_spawn random_shuffle get_ticks s p Hwf Hcur)
    as (g1 & g2 & n & Hlock & Hclear & Hwf2 & Hn & E).
  destruct (lock_piece_adds_four (Game.board s) p Hg (Hcv p Hcur) Hfit Hrow)
    as (g1' & Hlock' & Hocc & _).
  assert (g1' = g1) by congruence. subst g1'.
  assert (Hwf1 : wf_grid g1).
  { destruct (lock_piece_result (Game.board s) p Hg (Hcv p Hcur))
      as (cells & g1' & _ & Hl' & Hw & _). congruence. }
  destruct (clear_lines_occupied g1 Hwf1) as (n' & g2' & Hclear' & _ & Hocc2).
  assert (En : (n', g2') = (n, g2)) by congruence. injection En as -> ->.
  rewrite E in Hrun. unfold Game.bind in Hrun.
  destruct (after_clear_frame n g2 s) as (Hb & Hnx & Hbg & _).
  match type of Hrun with
  | context [Game.spawn_piece _ _ ?mid] =>
      destruct (spawn_piece_facts random_shuffle get_ticks shuffle_ok mid)
        as (q & ty' & s2 & Hsp & Hq & _ & _ & Hcur2 & _ & Hboard & _ & _ & Hli & _)
  end.
  - now rewrite Hb.
  - unfold bag_ok. now rewrite Hbg.
  - rewrite Hnx. exact Hnv.
  - rewrite Hsp in Hrun. munfold_in Hrun. injection Hrun as <-.
    split.
    + intros q' Hq'. rewrite Hcur2 in Hq'. injection Hq' as <-.
      rewrite (Hq (Piece.init ty)) by (rewrite Hnx; exact Hnext). simpl. lia.
    + unfold conserved in *. rewrite Hboard, Hb, Hli, (after_clear_lines n g2 s Hn).
      rewrite Hocc in Hocc2.
      replace (Z.of_nat (occupied g2) + 10 * (Game.lines_cleared s + n))
        with (Z.of_nat (occupied (Game.board s)) + 10 * Game.lines_cleared s + 1 * 4)
        by lia.
      now rewrite Z.mod_add by lia.
Qed.

(** Where the hard drop takes the piece, the board accepts it. *)
Lemma hard_drop_landing (s : Game.t) (p : Piece.t) :
  wf_grid (Game.board s) -> Game.current_piece s = Some p -> valid_rotation p ->
  piece_fits (Game.board s) p = true ->
  exists (n : Z) (landed : Piece.t),
    0 <= n /\
    landed = Piece.mk (Piece.type p) (Piece.rotation_index p)
               (Piece.row p + n) (Piece.col p) /\
    piece_fits (Game.board s) landed = true /\
    Game.hard_drop random_shuffle get_ticks s =
      Game.lock_piece random_shuffle get_ticks
        (Game.set_score (Game.score s + n * 2)
           (Game.set_current_piece (Some landed) s)).
Proof.
  intros Hwf Hcur Hrot Hfit.
  assert (Hcur' : Game.current_piece s =
                    Some (placed p (Piece.row p) (Piece.col p) (Piece.rotation_index p)))
    by now rewrite placed_same.
  destruct (fall_loops_agree (Game.fall_fuel p) s p (Piece.row p) 0 Hwf Hrot Hcur')
    as (r' & Hle & Hghost & Hdrop); [unfold Game.fall_fuel; lia|].
  destruct (ghost_loop_stops_at_rest _ _ _ _ _ Hghost) as (_ & _ & Hpath).
  exists (r' - Piece.row p), (placed p r' (Piece.col p) (Piece.rotation_index p)).
  split; [lia|].
  split; [unfold placed; f_equal; lia|].
  split.
  - destruct (Z.eq_dec r' (Piece.row p)) as [->|Hne].
    + now rewrite placed_same.
    + apply Hpath. lia.
  - unfold Game.hard_drop. unfold Game.bind at 1. unfold Game.gets at 1.
    rewrite Hcur. unfold Game.bind at 1. rewrite Hdrop. reflexivity.
Qed.

Lemma reachable_conserved (s : Game.t) :
  reachable random_shuffle get_ticks s ->
  sound s /\ below_top s /\ conserved s.
Proof.
  apply (reachable_keeps random_shuffle get_ticks
           (fun s => sound s /\ below_top s /\ conserved s)).
  - intros s1 v [(Hw & Hc & Hp & Hb) H]. split; [|exact H].
    exact (conj Hw (conj Hc (conj Hp Hb))).
  - intros s1 v [(Hw & Hc & Hp & Hb) H]. split; [|exact H].
    exact (conj Hw (conj Hc (conj Hp Hb))).
  - intros s1 v [(Hw & Hc & Hp & Hb) H]. split; [|exact H].
    exact (conj Hw (conj Hc (conj Hp Hb))).
  - intros s1 [(Hw & Hc & Hp & Hb) H]. split; [|exact H].
    split; [exact Hw|]. split; [|split; assumption].
    destruct Hc as (H1 & H2 & H3 & H4). unfold counters_ok. game_fields.
    repeat split; try assumption. lia.
  - intros s1 s2 dr dc b Hdr [Hs [Hrow Hcons]] Hrun.
    split; [eapply move_piece_sound; eauto|].
    pose proof Hs as ((Hg & Hcv & _) & _).
    destruct (Game.current_piece s1) as [p|] eqn:Hcur.
    + rewrite (move_piece_fits s1 p dr dc Hg Hcur (Hcv p eq_refl)) in Hrun.
      cbv zeta in Hrun. injection Hrun as _ <-.
      destruct (piece_fits _ _).
      * split; [|exact Hcons]. intros q Hq. injection Hq as <-.
        simpl. specialize (Hrow p Hcur). lia.
      * split; [|exact Hcons]. intros q Hq. apply Hrow. congruence.
    + unfold Game.move_piece in Hrun. munfold_in Hrun. rewrite Hcur in Hrun.
      injection Hrun as _ <-. split; [|exact Hcons].
      intros q Hq. congruence.
  - intros s1 s2 cw b [Hs [Hrow Hcons]] Hrun.
    split; [eapply rotate_piece_sound; eauto|].
    pose proof Hs as ((Hg & Hcv & _) & _).
    destruct (Game.current_piece s1) as [p|] eqn:Hcur.
    + rewrite (rotate_piece_result s1 p cw Hg Hcur) in Hrun.
      specialize (Hrow p Hcur).
      destruct (valid_at _ _ _ 0).
      * injection Hrun as _ <-. split; [|exact Hcons].
        intros q Hq. injection Hq as <-. exact Hrow.
      * destruct (find _ _); injection Hrun as _ <-; (split; [|exact Hcons]).
        -- intros q Hq. injection Hq as <-. exact Hrow.
        -- intros q Hq. rewrite Hcur in Hq. injection Hq as <-. exact Hrow.
    + unfold Game.rotate_piece in Hrun. munfold_in Hrun. rewrite Hcur in Hrun.
      injection Hrun as _ <-. split; [|exact Hcons]. intros q Hq. congruence.
  - intros s1 s2 [Hs [Hrow Hcons]] Hover Hrun.
    split; [eapply lock_piece_sound; eauto|].
    destruct Hs as (Hw & Hc & Hp & Hb).
    destruct (proj1 Hp Hover) as (p & Hcur & Hfit).
    apply (lock_piece_visible s1 s2 p); auto.
    exact (conj Hw (conj Hc (conj Hp Hb))).
  - intros s1 s2 [Hs [Hrow Hcons]] Hover Hrun.
    split; [eapply hard_drop_sound; eauto|].
    destruct Hs as (Hw & Hc & Hp & Hb). pose proof Hw as (Hg & Hcv & Hnv).
    destruct (proj1 Hp Hover) as (p & Hcur & Hfit).
    destruct (hard_drop_landing s1 p Hg Hcur (Hcv p Hcur) Hfit)
      as (n & landed & Hn & Hlanded & Hfit' & Hd).
    rewrite Hd in Hrun.
    match type of Hrun with
    | Game.lock_piece _ _ ?x = _ =>
        apply (lock_piece_visible x s2 landed); [|reflexivity|exact Hfit'| |exact Hcons|exact Hrun]
    end.
    + split.
      { split; [exact Hg|]. split; [|exact Hnv].
        intros q Hq. injection Hq as <-. subst landed. exact (Hcv p Hcur). }
      split.
      { destruct Hc as (H1 & H2 & H3 & H4). unfold counters_ok. game_fields.
        repeat split; try assumption. lia. }
      split; [|exact Hb].
      split; [|exact (proj2 Hp)].
      intros _. exists landed. split; [reflexivity|exact Hfit'].
    + subst landed. simpl. specialize (Hrow p Hcur). lia.
  - intros s0 s1 Hrun. split; [eapply reset_game_sound; eauto|].
    destruct (reset_game_facts random_shuffle get_ticks shuffle_ok s0)
      as (ty1 & ty2 & bag & s' & Hrun' & _ & ->).
    rewrite Hrun' in Hrun. injection Hrun as <-. split.
    + intros q Hq. injection Hq as <-. simpl. lia.
    + reflexivity.
Qed.

(** X21 -- Along a game no cell of the current piece is above the top
    row, and while the game is not over each of its four cells has its
    row in [0, 20) and its column in [0, 10) over an empty cell of the
    board: [lock_piece] never has a cell to skip. *)
Theorem falling_piece_is_inside_the_board (s : Game.t) (p : Piece.t) :
  reachable random_shuffle get_ticks s -> Game.current_piece s = Some p ->
  0 <= Piece.row p /\
  (Game.game_over s = false ->
   exists cells,
     Piece.get_cells p = Done cells /\ length cells = 4%nat /\ NoDup cells /\
     Forall (fun rc => in_board (fst rc) (snd rc) = true /\
                       cell_at (Game.board s) (fst rc) (snd rc) = Some None) cells).
Proof.
  intros Hreach Hcur.
  destruct (reachable_conserved s Hreach) as (((Hg & Hcv & _) & _ & (Hplay & _) & _) & Hrow & _).
  split; [exact (Hrow p Hcur)|].
  intros Hover. destruct (Hplay Hover) as (q & Hq & Hfit).
  assert (q = p) by congruence. subst q.
  exact (fitting_cells (Game.board s) p Hg (Hcv p Hcur) Hfit (Hrow p Hcur)).
Qed.

(** X22 -- Along a game the number of occupied cells of the board plus
    ten times the number of lines cleared is a multiple of 4: each lock
    adds the four cells of its piece, each cleared line takes ten cells
    away, and nothing else writes the board. *)
Theorem cells_are_conserved (s : Game.t) :
  reachable random_shuffle get_ticks s ->
  (Z.of_nat (occupied (Game.board s)) + 10 * Game.lines_cleared s) mod 4 = 0.
Proof.
  intros Hreach. destruct (reachable_conserved s Hreach) as (_ & _ & H). exact H.
Qed.
End Conservation.

(** ** The further properties on the sample states *)

Ltac sample_rotation := unfold valid_rotation; simpl; lia.

Lemma sample_started_reachable : reachable sample_shuffle sample_ticks sample_started.
Proof. apply (reachable_reset _ _ sample_game). vm_compute. reflexivity. Qed.


Lemma get_cells_at_four_distinct_cells_witness :
  0 <= 3 < 4 /\
  exists cells,
    Piece.get_cells_at sample_gap_piece (-1) 8 3 = Done cells /\
    length cells = 4%nat /\ NoDup cells /\ Forall (in_box (-1) 8) cells.
Proof.
  split; [lia|].
  apply (get_cells_at_four_distinct_cells sample_gap_piece (-1) 8 3). lia.
Defined.

Lemma rotation_index_arithmetic_witness :
  valid_rotation (Piece.init pS) /\
  Piece.rotate_ccw (Piece.init pS) = 3 /\
  Piece.rotate_ccw (Piece.set_rotation_index (Piece.rotate_cw (Piece.init pS))
                      (Piece.init pS)) = 0.
Proof.
  split; [sample_rotation|].
  destruct (rotation_index_arithmetic (Piece.init pS)) as (_ & _ & H1 & _ & H2 & _);
    [sample_rotation|].
  split; [apply H2; reflexivity|exact H1].
Defined.

Lemma get_cells_at_subscript_witness :
  Piece.get_cells_at sample_gap_piece 0 0 4 = Raise IndexError /\
  Piece.get_cells_at sample_gap_piece 0 0 (-1) = Piece.get_cells_at sample_gap_piece 0 0 3.
Proof.
  split.
  - apply (proj1 (get_cells_at_subscript sample_gap_piece 0 0 4)). lia.
  - apply (proj2 (get_cells_at_subscript sample_gap_piece 0 0 (-1))). lia.
Defined.

Lemma clear_lines_settles_witness :
  wf_grid sample_stack /\
  (exists n g',
     Board.clear_lines sample_stack = Done (n, g') /\
     Forall (fun r => ~ full r) g' /\
     Board.clear_lines g' = Done (0, g') /\
     (Forall (fun r => ~ full r) sample_stack -> n = 0 /\ g' = sample_stack)) /\
  Board.clear_lines sample_stack = Done (2, sample_board) /\
  wf_grid sample_board /\
  Forall (fun r => ~ full r) sample_board /\
  Board.clear_lines sample_board = Done (0, sample_board).
Proof.
  assert (Hnone : Forall (fun r => ~ full r) sample_board)
    by (apply no_complete_row_iff; reflexivity).
  split; [sample_grid|].
  split; [apply (clear_lines_settles sample_stack); sample_grid|].
  split; [vm_compute; reflexivity|].
  split; [sample_grid|].
  split; [exact Hnone|].
  destruct (clear_lines_settles sample_board) as (n & g' & H1 & _ & _ & H4);
    [sample_grid|].
  destruct (H4 Hnone) as [-> ->]. exact H1.
Defined.

Lemma clear_lines_removes_ten_cells_a_line_witness :
  wf_grid sample_board /\
  exists n g',
    Board.clear_lines sample_board = Done (n, g') /\
    0 <= n <= 20 /\
    Z.of_nat (occupied sample_board) = Z.of_nat (occupied g') + 10 * n.
Proof.
  split; [sample_grid|].
  apply (clear_lines_removes_ten_cells_a_line sample_board). sample_grid.
Defined.


Lemma reset_game_starts_a_fresh_game_witness :
  shuffles_permute sample_shuffle /\
  exists (ty1 ty2 : Tetromino) (s : Game.t),
    Game.reset_game sample_shuffle sample_ticks sample_over = Done (tt, s) /\
    Game.board s = Board.init /\
    ty1 <> ty2 /\
    Game.score s = 0 /\ Game.game_over s = false /\
    length (Game.piece_bag s) = 5%nat.
Proof.
  split; [exact sample_shuffle_permutes|].
  destruct (reset_game_starts_a_fresh_game sample_shuffle sample_ticks
              sample_shuffle_permutes sample_over)
    as (ty1 & ty2 & s & H1 & H2 & _ & _ & H3 & H4 & _ & _ & _ & H5 & _ & _ & H6 & _).
  exists ty1, ty2, s.
  exact (conj H1 (conj H2 (conj H3 (conj H4 (conj H5 H6))))).
Defined.

Lemma engine_raises_nothing_witness :
  shuffles_permute sample_shuffle /\
  reachable sample_shuffle sample_ticks sample_started /\
  Forall (fun c => quits c = false) sample_commands /\
  exists s', run_commands sample_shuffle sample_ticks sample_commands sample_started =
               Done (tt, s').
Proof.
  split; [exact sample_shuffle_permutes|].
  split; [exact sample_started_reachable|].
  split; [repeat constructor|].
  apply (engine_raises_nothing sample_shuffle sample_ticks sample_shuffle_permutes
           sample_started sample_commands);
    [exact sample_started_reachable|repeat constructor].
Defined.

Lemma counters_along_a_game_witness :
  shuffles_permute sample_shuffle /\
  reachable sample_shuffle sample_ticks sample_started /\
  0 <= Game.score sample_started /\ 0 <= Game.lines_cleared sample_started /\
  Game.level sample_started = Game.lines_cleared sample_started / 10 + 1 /\
  1 <= Game.level sample_started /\
  Game.fall_speed sample_started =
    Z.max 100 (FALL_SPEED - (Game.level sample_started - 1) * 50) /\
  100 <= Game.fall_speed sample_started <= 500.
Proof.
  split; [exact sample_shuffle_permutes|].
  split; [exact sample_started_reachable|].
  apply (counters_along_a_game sample_shuffle sample_ticks sample_shuffle_permutes
           sample_started sample_started_reachable).
Defined.

Lemma falling_piece_always_fits_witness :
  shuffles_permute sample_shuffle /\
  reachable sample_shuffle sample_ticks sample_started /\
  (Game.game_over sample_started = false ->
   exists p cells,
     Game.current_piece sample_started = Some p /\ valid_rotation p /\
     Piece.get_cells p = Done cells /\
     Forall (cell_ok (Game.board sample_started)) cells) /\
  exists ty, Game.next_piece sample_started = Some (Piece.init ty).
Proof.
  split; [exact sample_shuffle_permutes|].
  split; [exact sample_started_reachable|].
  apply (falling_piece_always_fits sample_shuffle sample_ticks sample_shuffle_permutes
           sample_started sample_started_reachable).
Defined.

Lemma run_commands_reachable (cmds : list Command) :
  forall (random_shuffle : nat -> list Tetromino -> list Tetromino)
         (get_ticks : nat -> Z) (s s' : Game.t),
    reachable random_shuffle get_ticks s ->
    run_commands random_shuffle get_ticks cmds s = Done (tt, s') ->
    reachable random_shuffle get_ticks s'.
Proof.
  induction cmds as [|c cmds IH]; intros sh tk s s' Hreach Hrun.
  - injection Hrun as <-. exact Hreach.
  - destruct c as [|event]; simpl in Hrun; unfold Game.bind in Hrun.
    + destruct (Game.update sh tk s) as [[[] s1]| |] eqn:E; try discriminate.
      apply (IH sh tk s1 s'); [|exact Hrun]. eapply reachable_update; eauto.
    + destruct (Game.handle_input sh tk event s) as [[[] s1]| |] eqn:E;
        try discriminate.
      apply (IH sh tk s1 s'); [|exact Hrun]. eapply reachable_input; eauto.
Qed.

Lemma sample_cleared_reachable : reachable sample_shuffle sample_ticks sample_cleared.
Proof.
  apply (run_commands_reachable sample_line_commands _ _ sample_started);
    [exact sample_started_reachable|vm_compute; reflexivity].
Qed.

Lemma board_along_a_game_witness :
  shuffles_permute sample_shuffle /\
  reachable sample_shuffle sample_ticks sample_cleared /\
  Game.lines_cleared sample_cleared = 1 /\
  wf_grid (Game.board sample_cleared) /\
  Forall (fun r => ~ full r) (Game.board sample_cleared) /\
  forall r, 0 <= r < BOARD_HEIGHT ->
    exists c, 0 <= c < BOARD_WIDTH /\ cell_at (Game.board sample_cleared) r c = Some None.
Proof.
  split; [exact sample_shuffle_permutes|].
  split; [exact sample_cleared_reachable|].
  split; [reflexivity|].
  apply (board_along_a_game sample_shuffle sample_ticks sample_shuffle_permutes
           sample_cleared sample_cleared_reachable).
Defined.

Lemma pause_freezes_and_resumes_witness :
  Game.game_over sample_falling = false /\
  Game.handle_input sample_shuffle sample_ticks (KEYDOWN K_p) sample_falling =
    Done (tt, Game.set_paused (negb (Game.paused sample_falling)) sample_falling) /\
  Game.bind (Game.handle_input sample_shuffle sample_ticks (KEYDOWN K_p))
    (fun _ => Game.handle_input sample_shuffle sample_ticks (KEYDOWN K_p))
    sample_falling = Done (tt, sample_falling) /\
  (Game.paused sample_falling = true ->
   Game.update sample_shuffle sample_ticks sample_falling = Done (tt, sample_falling) /\
   (inert_when_paused (KEYDOWN K_SPACE) = true ->
    Game.handle_input sample_shuffle sample_ticks (KEYDOWN K_SPACE) sample_falling =
      Done (tt, sample_falling))).
Proof.
  split; [reflexivity|].
  apply (pause_freezes_and_resumes sample_shuffle sample_ticks sample_falling
           (KEYDOWN K_SPACE)).
  reflexivity.
Defined.

Lemma soft_drop_spec_witness :
  wf_grid (Game.board sample_falling) /\
  Game.current_piece sample_falling = Some (Piece.init pT) /\
  valid_rotation (Piece.init pT) /\
  Game.game_over sample_falling = false /\ Game.paused sample_falling = false /\
  Game.handle_input sample_shuffle sample_ticks (KEYDOWN K_DOWN) sample_falling =
    Done (tt,
          if piece_fits (Game.board sample_falling) (Piece.mk pT 0 (0 + 1) 3)
          then Game.set_last_fall_time (sample_ticks (Game.tick_reads sample_falling))
                 (Game.set_tick_reads (S (Game.tick_reads sample_falling))
                    (Game.set_score (Game.score sample_falling + 1)
                       (Game.set_current_piece (Some (Piece.mk pT 0 (0 + 1) 3))
                          sample_falling)))
          else sample_falling).
Proof.
  split; [sample_grid|].
  split; [reflexivity|].
  split; [sample_rotation|].
  split; [reflexivity|]. split; [reflexivity|].
  apply (soft_drop_spec sample_shuffle sample_ticks sample_falling (Piece.init pT));
    [sample_grid|reflexivity|sample_rotation|reflexivity|reflexivity].
Defined.

Lemma update_applies_gravity_witness :
  wf_grid (Game.board sample_falling) /\
  Game.current_piece sample_falling = Some (Piece.init pT) /\
  valid_rotation (Piece.init pT) /\
  Game.game_over sample_falling = false /\ Game.paused sample_falling = false /\
  Game.update sample_shuffle sample_ticks sample_falling =
    Done (tt, Game.set_tick_reads 6 sample_falling).
Proof.
  split; [sample_grid|].
  split; [reflexivity|].
  split; [sample_rotation|].
  split; [reflexivity|]. split; [reflexivity|].
  rewrite (update_applies_gravity sample_shuffle sample_ticks sample_falling
             (Piece.init pT));
    [reflexivity|sample_grid|reflexivity|sample_rotation|reflexivity|reflexivity].
Defined.

Lemma ghost_is_the_resting_place_witness :
  wf_grid (Game.board sample_falling) /\
  Game.current_piece sample_falling = Some (Piece.init pT) /\
  valid_rotation (Piece.init pT) /\
  exists (n : Z) (cells : list Coord),
    0 <= n /\
    Game.get_ghost_position sample_falling = Done cells /\
    Piece.get_cells_at (Piece.init pT) (0 + n) 3 0 = Done cells /\
    (forall k, 0 < k <= n ->
       piece_fits (Game.board sample_falling) (Piece.mk pT 0 (0 + k) 3) = true) /\
    piece_fits (Game.board sample_falling) (Piece.mk pT 0 (0 + n + 1) 3) = false.
Proof.
  split; [sample_grid|].
  split; [reflexivity|].
  split; [sample_rotation|].
  apply (ghost_is_the_resting_place sample_falling (Piece.init pT));
    [sample_grid|reflexivity|sample_rotation].
Defined.

Lemma hard_drop_score_witness :
  shuffles_permute sample_shuffle /\ wf_game sample_falling /\
  Game.current_piece sample_falling = Some (Piece.init pT) /\
  exists (n m : Z) (cells : list Coord) (s' : Game.t),
    0 <= n /\ 0 <= m /\
    Game.get_ghost_position sample_falling = Done cells /\
    Piece.get_cells_at (Piece.init pT) (0 + n) 3 0 = Done cells /\
    Game.hard_drop sample_shuffle sample_ticks sample_falling = Done (tt, s') /\
    Game.score s' =
      Game.score sample_falling + 2 * n + Game.scores_get m * Game.level sample_falling /\
    Game.lines_cleared s' = Game.lines_cleared sample_falling + m.
Proof.
  split; [exact sample_shuffle_permutes|].
  split; [sample_game_wf|].
  split; [reflexivity|].
  apply (hard_drop_score sample_shuffle sample_ticks sample_shuffle_permutes
           sample_falling (Piece.init pT));
    [sample_game_wf|reflexivity].
Defined.

Lemma move_piece_round_trip_witness :
  wf_grid (Game.board sample_falling) /\
  Game.current_piece sample_falling = Some (Piece.init pT) /\
  valid_rotation (Piece.init pT) /\
  piece_fits (Game.board sample_falling) (Piece.init pT) = true /\
  Game.move_piece 1 0 sample_falling = Done (true, sample_lowered) /\
  Game.move_piece (- (1)) (- 0) sample_lowered = Done (true, sample_falling).
Proof.
  split; [sample_grid|].
  split; [reflexivity|].
  split; [sample_rotation|].
  split; [reflexivity|].
  split; [reflexivity|].
  apply (move_piece_round_trip sample_falling sample_lowered (Piece.init pT) 1 0);
    [sample_grid|reflexivity|sample_rotation|reflexivity|reflexivity].
Defined.

Lemma no_type_is_missing_for_long_witness :
  shuffles_permute sample_shuffle /\
  (length (Game.piece_bag sample_game) <= 6)%nat /\
  exists l s',
    draw sample_shuffle 13 sample_game = Done (l, s') /\ length l = 13%nat /\
    forall ty, In ty l.
Proof.
  split; [exact sample_shuffle_permutes|].
  split; [unfold sample_game; simpl; lia|].
  apply (no_type_is_missing_for_long sample_shuffle sample_ticks sample_shuffle_permutes
           sample_game).
  unfold sample_game. simpl. lia.
Defined.

Lemma nothing_is_lost_within_a_game_witness :
  shuffles_permute sample_shuffle /\
  reachable sample_shuffle sample_ticks sample_started /\
  Game.handle_input sample_shuffle sample_ticks (KEYDOWN K_SPACE) sample_started =
    Done (tt, sample_dropped) /\
  grows sample_started sample_dropped.
Proof.
  split; [exact sample_shuffle_permutes|].
  split; [exact sample_started_reachable|].
  assert (H : Game.handle_input sample_shuffle sample_ticks (KEYDOWN K_SPACE)
                sample_started = Done (tt, sample_dropped))
    by (vm_compute; reflexivity).
  split; [exact H|].
  apply (nothing_is_lost_within_a_game sample_shuffle sample_ticks
           sample_shuffle_permutes sample_started sample_dropped (KEYDOWN K_SPACE)
           sample_started_reachable);
    [left; reflexivity|exact H].
Defined.

Lemma lock_piece_fills_four_cells_witness :
  wf_grid sample_board /\ valid_rotation sample_gap_piece /\
  piece_fits sample_board sample_gap_piece = true /\ 0 <= Piece.row sample_gap_piece /\
  exists g',
    Board.lock_piece sample_board sample_gap_piece = Done g' /\
    occupied g' = (occupied sample_board + 4)%nat /\
    piece_fits g' sample_gap_piece = false.
Proof.
  split; [sample_grid|].
  split; [sample_rotation|].
  split; [reflexivity|].
  split; [simpl; lia|].
  apply (lock_piece_fills_four_cells sample_board sample_gap_piece);
    [sample_grid|sample_rotation|reflexivity|simpl; lia].
Defined.

Lemma falling_piece_is_inside_the_board_witness :
  shuffles_permute sample_shuffle /\
  reachable sample_shuffle sample_ticks sample_started /\
  Game.current_piece sample_started = Some (Piece.init pI) /\
  0 <= Piece.row (Piece.init pI) /\
  (Game.game_over sample_started = false ->
   exists cells,
     Piece.get_cells (Piece.init pI) = Done cells /\ length cells = 4%nat /\
     NoDup cells /\
     Forall (fun rc => in_board (fst rc) (snd rc) = true /\
                       cell_at (Game.board sample_started) (fst rc) (snd rc) = Some None)
       cells).
Proof.
  split; [exact sample_shuffle_permutes|].
  split; [exact sample_started_reachable|].
  split; [reflexivity|].
  apply (falling_piece_is_inside_the_board sample_shuffle sample_ticks
           sample_shuffle_permutes sample_started (Piece.init pI)
           sample_started_reachable).
  reflexivity.
Defined.

Lemma cells_are_conserved_witness :
  shuffles_permute sample_shuffle /\
  reachable sample_shuffle sample_ticks sample_started /\
  (Z.of_nat (occupied (Game.board sample_started)) +
   10 * Game.lines_cleared sample_started) mod 4 = 0.
Proof.
  split; [exact sample_shuffle_permutes|].
  split; [exact sample_started_reachable|].
  apply (cells_are_conserved sample_shuffle sample_ticks sample_shuffle_permutes
           sample_started sample_started_reachable).
Defined.

Example last_key_clears_the_line :
  Game.lines_cleared sample_before_line = 0 /\
  Game.handle_input sample_shuffle sample_ticks (KEYDOWN K_SPACE) sample_before_line =
    Done (tt, sample_cleared) /\
  Game.lines_cleared sample_cleared = 1 /\
  Game.score sample_cleared = Game.score sample_before_line + 2 * 17 + 100.
Proof.
  split; [vm_compute; reflexivity|].
  split; [vm_compute; reflexivity|].
  split; vm_compute; reflexivity.
Qed.
